(** * The uSockets event-loop core (packages/bun-usockets/src/loop.c)

    A shallow embedding of the loop core: the timer sweep, the low-priority
    admission queue, the DNS hand-off list and the dispatch of ready polls.

    Pointers are object identifiers ([nat]); the null pointer is [None].
    The structures of the C code are records, the heap is one total map per
    structure type.  A poll pointer that the C code casts to a socket, a
    UDP socket or an internal callback is the same identifier used in the
    corresponding map.

    Functions of other translation units (the poller adapter, the BSD
    layer, socket.c, context.c) and the user callbacks are fields of an
    environment record [env]; each acts on the whole program state, so a
    callback may close, relink or re-arm anything.  Every call that leaves
    loop.c is recorded in a trace of events. *)

From Stdlib Require Import ZArith List Bool Lia.
Import ListNotations.
Open Scope Z_scope.

(** ** Data model *)

Definition ptr := option nat.

Definition ptr_eqb (a b : ptr) : bool :=
  match a, b with
  | Some x, Some y => Nat.eqb x y
  | None, None => true
  | _, _ => false
  end.

Definition upd {A : Type} (f : nat -> A) (k : nat) (v : A) : nat -> A :=
  fun k' => if Nat.eqb k' k then v else f k'.

Inductive poll_type_t :=
| POLL_TYPE_SOCKET
| POLL_TYPE_SOCKET_SHUT_DOWN
| POLL_TYPE_SEMI_SOCKET
| POLL_TYPE_CALLBACK
| POLL_TYPE_UDP.

Record us_socket_flags := mk_flags {
  low_prio_state : Z;
  allow_half_open : bool;
  is_paused : bool;
  is_ipc : bool
}.

Record us_socket_t := mk_socket {
  s_context : nat;
  s_prev : ptr;
  s_next : ptr;
  timeout : Z;
  long_timeout : Z;
  connect_state : ptr;
  flags : us_socket_flags
}.

Record us_socket_context_t := mk_context {
  c_next : ptr;
  c_prev : ptr;
  global_tick : Z;
  timestamp : Z;
  long_timestamp : Z;
  head_sockets : ptr;
  c_iterator : ptr
}.

Record us_connecting_socket_t := mk_connecting {
  cs_context : nat;
  addrinfo_req : Z;
  cs_next : ptr
}.

Record us_udp_socket_t := mk_udp {
  u_closed : bool;
  u_next : ptr
}.

Record us_internal_callback_t := mk_callback {
  cb_expects_the_loop : bool;
  leave_poll_ready : bool
}.

Record us_internal_loop_data_t := mk_loop_data {
  sweep_timer_count : Z;
  head : ptr;
  iterator : ptr;
  low_prio_budget : Z;
  low_prio_head : ptr;
  dns_ready_head : ptr;
  closed_head : ptr;
  closed_udp_head : ptr;
  closed_connecting_head : ptr;
  closed_context_head : ptr;
  iteration_nr : Z;
  last_write_failed : Z
}.

(** The program state: the loop, the heap of every structure type, and
    [world], whatever else the collaborators keep (kernel queues, user
    data). *)
Record state (W : Type) := mk_state {
  data : us_internal_loop_data_t;
  num_ready_polls : Z;
  sockets : nat -> us_socket_t;
  listen_socket_ext_size : nat -> Z;
  contexts : nat -> us_socket_context_t;
  connecting : nat -> us_connecting_socket_t;
  udp_sockets : nat -> us_udp_socket_t;
  callbacks : nat -> us_internal_callback_t;
  world : W
}.

Arguments mk_state {W}.
Arguments data {W}.
Arguments num_ready_polls {W}.
Arguments sockets {W}.
Arguments listen_socket_ext_size {W}.
Arguments contexts {W}.
Arguments connecting {W}.
Arguments udp_sockets {W}.
Arguments callbacks {W}.
Arguments world {W}.

(** ** Field writes *)

Definition set_flags_low_prio_state (v : Z) (f : us_socket_flags) :=
  mk_flags v (allow_half_open f) (is_paused f) (is_ipc f).
Definition set_flags_allow_half_open (v : bool) (f : us_socket_flags) :=
  mk_flags (low_prio_state f) v (is_paused f) (is_ipc f).
Definition set_flags_is_paused (v : bool) (f : us_socket_flags) :=
  mk_flags (low_prio_state f) (allow_half_open f) v (is_ipc f).
Definition set_flags_is_ipc (v : bool) (f : us_socket_flags) :=
  mk_flags (low_prio_state f) (allow_half_open f) (is_paused f) v.

Definition sock_set_context (v : nat) (x : us_socket_t) :=
  mk_socket v (s_prev x) (s_next x) (timeout x) (long_timeout x) (connect_state x) (flags x).
Definition sock_set_prev (v : ptr) (x : us_socket_t) :=
  mk_socket (s_context x) v (s_next x) (timeout x) (long_timeout x) (connect_state x) (flags x).
Definition sock_set_next (v : ptr) (x : us_socket_t) :=
  mk_socket (s_context x) (s_prev x) v (timeout x) (long_timeout x) (connect_state x) (flags x).
Definition sock_set_timeout (v : Z) (x : us_socket_t) :=
  mk_socket (s_context x) (s_prev x) (s_next x) v (long_timeout x) (connect_state x) (flags x).
Definition sock_set_long_timeout (v : Z) (x : us_socket_t) :=
  mk_socket (s_context x) (s_prev x) (s_next x) (timeout x) v (connect_state x) (flags x).
Definition sock_set_connect_state (v : ptr) (x : us_socket_t) :=
  mk_socket (s_context x) (s_prev x) (s_next x) (timeout x) (long_timeout x) v (flags x).
Definition sock_set_flags (g : us_socket_flags -> us_socket_flags) (x : us_socket_t) :=
  mk_socket (s_context x) (s_prev x) (s_next x) (timeout x) (long_timeout x) (connect_state x)
            (g (flags x)).

Definition ctx_set_ticks (tick ts lts : Z) (c : us_socket_context_t) :=
  mk_context (c_next c) (c_prev c) tick ts lts (head_sockets c) (c_iterator c).
Definition ctx_set_iterator (v : ptr) (c : us_socket_context_t) :=
  mk_context (c_next c) (c_prev c) (global_tick c) (timestamp c) (long_timestamp c)
             (head_sockets c) v.

Definition data_set_iterator (v : ptr) (d : us_internal_loop_data_t) :=
  mk_loop_data (sweep_timer_count d) (head d) v (low_prio_budget d) (low_prio_head d)
    (dns_ready_head d) (closed_head d) (closed_udp_head d) (closed_connecting_head d)
    (closed_context_head d) (iteration_nr d) (last_write_failed d).
Definition data_set_low_prio_budget (v : Z) (d : us_internal_loop_data_t) :=
  mk_loop_data (sweep_timer_count d) (head d) (iterator d) v (low_prio_head d)
    (dns_ready_head d) (closed_head d) (closed_udp_head d) (closed_connecting_head d)
    (closed_context_head d) (iteration_nr d) (last_write_failed d).
Definition data_set_low_prio_head (v : ptr) (d : us_internal_loop_data_t) :=
  mk_loop_data (sweep_timer_count d) (head d) (iterator d) (low_prio_budget d) v
    (dns_ready_head d) (closed_head d) (closed_udp_head d) (closed_connecting_head d)
    (closed_context_head d) (iteration_nr d) (last_write_failed d).
Definition data_set_dns_ready_head (v : ptr) (d : us_internal_loop_data_t) :=
  mk_loop_data (sweep_timer_count d) (head d) (iterator d) (low_prio_budget d) (low_prio_head d)
    v (closed_head d) (closed_udp_head d) (closed_connecting_head d)
    (closed_context_head d) (iteration_nr d) (last_write_failed d).
Definition data_set_closed_head (v : ptr) (d : us_internal_loop_data_t) :=
  mk_loop_data (sweep_timer_count d) (head d) (iterator d) (low_prio_budget d) (low_prio_head d)
    (dns_ready_head d) v (closed_udp_head d) (closed_connecting_head d)
    (closed_context_head d) (iteration_nr d) (last_write_failed d).
Definition data_set_closed_udp_head (v : ptr) (d : us_internal_loop_data_t) :=
  mk_loop_data (sweep_timer_count d) (head d) (iterator d) (low_prio_budget d) (low_prio_head d)
    (dns_ready_head d) (closed_head d) v (closed_connecting_head d)
    (closed_context_head d) (iteration_nr d) (last_write_failed d).
Definition data_set_closed_connecting_head (v : ptr) (d : us_internal_loop_data_t) :=
  mk_loop_data (sweep_timer_count d) (head d) (iterator d) (low_prio_budget d) (low_prio_head d)
    (dns_ready_head d) (closed_head d) (closed_udp_head d) v
    (closed_context_head d) (iteration_nr d) (last_write_failed d).
Definition data_set_closed_context_head (v : ptr) (d : us_internal_loop_data_t) :=
  mk_loop_data (sweep_timer_count d) (head d) (iterator d) (low_prio_budget d) (low_prio_head d)
    (dns_ready_head d) (closed_head d) (closed_udp_head d) (closed_connecting_head d)
    v (iteration_nr d) (last_write_failed d).
Definition data_set_iteration_nr (v : Z) (d : us_internal_loop_data_t) :=
  mk_loop_data (sweep_timer_count d) (head d) (iterator d) (low_prio_budget d) (low_prio_head d)
    (dns_ready_head d) (closed_head d) (closed_udp_head d) (closed_connecting_head d)
    (closed_context_head d) v (last_write_failed d).
Definition data_set_last_write_failed (v : Z) (d : us_internal_loop_data_t) :=
  mk_loop_data (sweep_timer_count d) (head d) (iterator d) (low_prio_budget d) (low_prio_head d)
    (dns_ready_head d) (closed_head d) (closed_udp_head d) (closed_connecting_head d)
    (closed_context_head d) (iteration_nr d) v.

Section StateWrites.
Context {W : Type}.

Definition with_data (g : us_internal_loop_data_t -> us_internal_loop_data_t)
           (st : state W) : state W :=
  mk_state (g (data st)) (num_ready_polls st) (sockets st) (listen_socket_ext_size st)
           (contexts st) (connecting st) (udp_sockets st) (callbacks st) (world st).

Definition with_socket (s : nat) (g : us_socket_t -> us_socket_t) (st : state W) : state W :=
  mk_state (data st) (num_ready_polls st) (upd (sockets st) s (g (sockets st s)))
           (listen_socket_ext_size st) (contexts st) (connecting st) (udp_sockets st)
           (callbacks st) (world st).

Definition with_context (c : nat) (g : us_socket_context_t -> us_socket_context_t)
           (st : state W) : state W :=
  mk_state (data st) (num_ready_polls st) (sockets st) (listen_socket_ext_size st)
           (upd (contexts st) c (g (contexts st c))) (connecting st) (udp_sockets st)
           (callbacks st) (world st).

Definition with_connecting (c : nat) (g : us_connecting_socket_t -> us_connecting_socket_t)
           (st : state W) : state W :=
  mk_state (data st) (num_ready_polls st) (sockets st) (listen_socket_ext_size st)
           (contexts st) (upd (connecting st) c (g (connecting st c))) (udp_sockets st)
           (callbacks st) (world st).
End StateWrites.

(** ** Events

    One event per call that leaves loop.c, with the arguments that matter
    and, where the code branches on it, the value returned.  The two
    timeout events also carry the value the socket's own timeout field has
    in the state the handler is entered with.  [EvLowPrioState] and
    [EvLowPrioBudgetTaken] record the writes loop.c itself makes to
    [flags.low_prio_state] and the decrement of the budget on admission. *)
Inductive event :=
| EvLock
| EvUnlock
| EvAsyncWakeup
| EvAfterResolve (c : nat)
| EvLinkSocket (ctx s : nat)
| EvUnlinkSocket (ctx s : nat)
| EvContextRef (ctx : nat)
| EvPollChange (p : nat) (events : Z)
| EvOnSocketTimeout (ctx s : nat) (timeout_on_entry : Z)
| EvOnSocketLongTimeout (ctx s : nat) (long_timeout_on_entry : Z)
| EvPreCb
| EvPostCb
| EvPollFree (p : nat)
| EvFree (o : nat)
| EvAcceptPollEvent (p : nat)
| EvCb (p : nat) (arg_is_loop : bool)
| EvAfterOpen (s : nat) (failed : bool)
| EvAccept (fd client_fd : Z)
| EvCreatePoll (ext_size : Z) (p : nat)
| EvPollInit (p : nat) (fd : Z) (t : poll_type_t)
| EvPollStart (p : nat) (events : Z)
| EvNodelay (fd : Z)
| EvOnOpen (ctx s : nat)
| EvOnWritable (ctx s : nat)
| EvIsLowPrio (ctx s : nat) (r : bool)
| EvRecv (fd length : Z)
| EvRecvmsg (fd length : Z)
| EvOnFd (ctx s : nat) (fd : Z)
| EvOnData (ctx s : nat) (length : Z)
| EvOnEnd (ctx s : nat)
| EvSocketClose (s : ptr) (code : Z)
| EvUdpRecvmmsg (fd npackets : Z)
| EvUdpOnData (u : nat) (npackets : Z)
| EvUdpOnDrain (u : nat)
| EvUdpSocketClose (u : nat)
| EvLowPrioState (s : nat) (v : Z)
| EvLowPrioBudgetTaken (s : nat).

(** ** The environment of loop.c *)
Record env (W : Type) := mk_env {
  (* constants of libusockets.h and internal.h *)
  LIBUS_SOCKET_READABLE : Z;
  LIBUS_SOCKET_WRITABLE : Z;
  LIBUS_RECV_BUFFER_LENGTH : Z;
  LIBUS_SOCKET_ERROR : Z;
  LIBUS_ERR : Z;
  LIBUS_SOCKET_CLOSE_CODE_CLEAN_SHUTDOWN : Z;
  (* sizeof(struct us_socket_t) and sizeof(struct us_poll_t) *)
  sizeof_us_socket_t : Z;
  sizeof_us_poll_t : Z;
  (* the poller adapter *)
  us_internal_poll_type : state W -> nat -> poll_type_t;
  us_poll_events : state W -> nat -> Z;
  us_poll_fd : state W -> nat -> Z;
  us_poll_change : nat -> Z -> state W -> state W;
  us_create_poll : Z -> state W -> nat * state W;
  us_poll_init : nat -> Z -> poll_type_t -> state W -> state W;
  us_poll_start : nat -> Z -> state W -> state W;
  us_poll_free : nat -> state W -> state W;
  us_internal_accept_poll_event : nat -> state W -> state W;
  us_internal_async_wakeup : state W -> state W;
  (* the BSD layer; bsd_recvmsg also yields the descriptor of a leading
     SCM_RIGHTS control message when the message carries one *)
  bsd_accept_socket : Z -> state W -> Z * state W;
  bsd_socket_nodelay : Z -> state W -> state W;
  bsd_recv : Z -> state W -> Z * state W;
  bsd_recvmsg : Z -> state W -> (Z * option Z) * state W;
  bsd_would_block : state W -> bool;
  bsd_recvmmsg : Z -> state W -> Z * state W;
  (* socket.c, context.c, udp.c *)
  us_socket_is_closed : state W -> nat -> bool;
  us_socket_is_shut_down : state W -> nat -> bool;
  us_socket_close : ptr -> Z -> state W -> ptr * state W;
  us_socket_context_ref : nat -> state W -> state W;
  us_internal_socket_context_link_socket : nat -> nat -> state W -> state W;
  us_internal_socket_context_unlink_socket : nat -> nat -> state W -> state W;
  us_internal_socket_after_resolve : nat -> state W -> state W;
  us_internal_socket_after_open : nat -> bool -> state W -> state W;
  us_udp_socket_close : nat -> state W -> state W;
  us_free : nat -> state W -> state W;
  (* callbacks: of the loop, of an internal callback poll, of a context
     (first argument), of a UDP socket *)
  pre_cb : state W -> state W;
  post_cb : state W -> state W;
  cb : nat -> bool -> state W -> state W;
  on_open : nat -> nat -> state W -> state W;
  on_data : nat -> nat -> Z -> state W -> ptr * state W;
  on_fd : nat -> nat -> Z -> state W -> ptr * state W;
  on_writable : nat -> nat -> state W -> ptr * state W;
  on_end : nat -> nat -> state W -> ptr * state W;
  on_socket_timeout : nat -> option (nat -> state W -> state W);
  on_socket_long_timeout : nat -> option (nat -> state W -> state W);
  is_low_prio : nat -> nat -> state W -> bool * state W;
  udp_on_data : nat -> Z -> state W -> state W;
  udp_on_drain : nat -> state W -> state W
}.

Arguments LIBUS_SOCKET_READABLE {W}.
Arguments LIBUS_SOCKET_WRITABLE {W}.
Arguments LIBUS_RECV_BUFFER_LENGTH {W}.
Arguments LIBUS_SOCKET_ERROR {W}.
Arguments LIBUS_ERR {W}.
Arguments LIBUS_SOCKET_CLOSE_CODE_CLEAN_SHUTDOWN {W}.
Arguments sizeof_us_socket_t {W}.
Arguments sizeof_us_poll_t {W}.
Arguments us_internal_poll_type {W}.
Arguments us_poll_events {W}.
Arguments us_poll_fd {W}.
Arguments us_poll_change {W}.
Arguments us_create_poll {W}.
Arguments us_poll_init {W}.
Arguments us_poll_start {W}.
Arguments us_poll_free {W}.
Arguments us_internal_accept_poll_event {W}.
Arguments us_internal_async_wakeup {W}.
Arguments bsd_accept_socket {W}.
Arguments bsd_socket_nodelay {W}.
Arguments bsd_recv {W}.
Arguments bsd_recvmsg {W}.
Arguments bsd_would_block {W}.
Arguments bsd_recvmmsg {W}.
Arguments us_socket_is_closed {W}.
Arguments us_socket_is_shut_down {W}.
Arguments us_socket_close {W}.
Arguments us_socket_context_ref {W}.
Arguments us_internal_socket_context_link_socket {W}.
Arguments us_internal_socket_context_unlink_socket {W}.
Arguments us_internal_socket_after_resolve {W}.
Arguments us_internal_socket_after_open {W}.
Arguments us_udp_socket_close {W}.
Arguments us_free {W}.
Arguments pre_cb {W}.
Arguments post_cb {W}.
Arguments cb {W}.
Arguments on_open {W}.
Arguments on_data {W}.
Arguments on_fd {W}.
Arguments on_writable {W}.
Arguments on_end {W}.
Arguments on_socket_timeout {W}.
Arguments on_socket_long_timeout {W}.
Arguments is_low_prio {W}.
Arguments udp_on_data {W}.
Arguments udp_on_drain {W}.

(** ** A state, trace and fuel monad

    A computation runs from a state to an outcome, the state reached and
    the events emitted on the way.  A loop whose C counterpart has no
    static bound takes fuel and is [Stuck] when it runs out; a null
    pointer handed to a function that dereferences it is [Stuck] too.  The
    trace emitted up to that point is kept. *)
Inductive stuck_reason := OutOfFuel | NullDereference.

Inductive outcome (A : Type) :=
| Done (a : A)
| Stuck (why : stuck_reason).

Arguments Done {A}.
Arguments Stuck {A}.

Definition M (W A : Type) : Type := state W -> outcome A * state W * list event.

Section Monad.
Context {W : Type}.

Definition ret {A} (a : A) : M W A := fun st => (Done a, st, []).

Definition bind {A B} (m : M W A) (k : A -> M W B) : M W B :=
  fun st =>
    match m st with
    | (Done a, st1, t1) =>
        match k a st1 with
        | (r, st2, t2) => (r, st2, t1 ++ t2)
        end
    | (Stuck why, st1, t1) => (Stuck why, st1, t1)
    end.

Definition stuck {A} (why : stuck_reason) : M W A := fun st => (Stuck why, st, []).

Definition gets {A} (f : state W -> A) : M W A := fun st => (Done (f st), st, []).

Definition modify (f : state W -> state W) : M W unit := fun st => (Done tt, f st, []).

Definition emit (e : event) : M W unit := fun st => (Done tt, st, [e]).

(** A call out of loop.c: the event is built from the state the callee
    is entered with and from the value it returns. *)
Definition call {A} (mk : state W -> A -> event) (f : state W -> A * state W) : M W A :=
  fun st => let (a, st1) := f st in (Done a, st1, [mk st a]).

Definition call_ (mk : state W -> event) (f : state W -> state W) : M W unit :=
  fun st => (Done tt, f st, [mk st]).
End Monad.

Declare Scope loop_scope.
Delimit Scope loop_scope with loop.
Notation "x <- m ;; k" := (bind m (fun x => k))
  (at level 61, m at next level, right associativity) : loop_scope.
Notation "m ;; k" := (bind m (fun _ => k))
  (at level 61, right associativity) : loop_scope.
Open Scope loop_scope.

Definition result_of {W A} (r : outcome A * state W * list event) : outcome A := fst (fst r).
Definition state_of {W A} (r : outcome A * state W * list event) : state W := snd (fst r).
Definition trace_of {W A} (r : outcome A * state W * list event) : list event := snd r.

(** ** The DNS hand-off list *)
Section Dns.
Context {W : Type} (E : env W).

(* void us_wakeup_loop(struct us_loop_t *loop) *)
Definition us_wakeup_loop : M W unit :=
  call_ (fun _ => EvAsyncWakeup) (us_internal_async_wakeup E).

(* void us_internal_dns_callback(struct us_connecting_socket_t *c, void* addrinfo_req) *)
Definition us_internal_dns_callback (c : nat) (req : Z) : M W unit :=
  emit EvLock ;;
  modify (with_connecting c (fun x => mk_connecting (cs_context x) req (cs_next x))) ;;
  h <- gets (fun st => dns_ready_head (data st)) ;;
  modify (with_connecting c (fun x => mk_connecting (cs_context x) (addrinfo_req x) h)) ;;
  modify (with_data (data_set_dns_ready_head (Some c))) ;;
  emit EvUnlock.

(* void us_internal_dns_callback_threadsafe(struct us_connecting_socket_t *c, void* addrinfo_req) *)
Definition us_internal_dns_callback_threadsafe (c : nat) (req : Z) : M W unit :=
  us_internal_dns_callback c req ;;
  us_wakeup_loop.

(* void us_internal_drain_pending_dns_resolve(struct us_loop_t *loop,
                                              struct us_connecting_socket_t *s) *)
Fixpoint us_internal_drain_pending_dns_resolve (fuel : nat) (s : ptr) : M W unit :=
  match s with
  | None => ret tt
  | Some c =>
      match fuel with
      | O => stuck OutOfFuel
      | S fuel' =>
          next <- gets (fun st => cs_next (connecting st c)) ;;
          call_ (fun _ => EvAfterResolve c) (us_internal_socket_after_resolve E c) ;;
          us_internal_drain_pending_dns_resolve fuel' next
      end
  end.

(* int us_internal_handle_dns_results(struct us_loop_t *loop) *)
Definition us_internal_handle_dns_results (fuel : nat) : M W bool :=
  emit EvLock ;;
  s <- gets (fun st => dns_ready_head (data st)) ;;
  modify (with_data (data_set_dns_ready_head None)) ;;
  emit EvUnlock ;;
  us_internal_drain_pending_dns_resolve fuel s ;;
  ret (negb (ptr_eqb s None)).
End Dns.

(** ** The timer sweep *)
Section Sweep.
Context {W : Type} (E : env W).

(** [context->global_tick++] on a [uint32_t], then the two derived
    one-byte stamps; the value of the chained assignment is the value
    stored in the [unsigned char] field. *)
Definition sweep_advance_ticks (c : us_socket_context_t) : us_socket_context_t :=
  let tick := (global_tick c + 1) mod 2 ^ 32 in
  ctx_set_ticks tick ((tick mod 240) mod 256) (((tick / 15) mod 240) mod 256) c.

(** The tightest loop: seek until a socket with a matching stamp, or
    the end of the chain ([None], the [goto next_context]). *)
Fixpoint sweep_seek (fuel : nat) (short_ticks long_ticks : Z) (s : nat) : M W ptr :=
  sk <- gets (fun st => sockets st s) ;;
  if (short_ticks =? timeout sk) || (long_ticks =? long_timeout sk) then ret (Some s)
  else
    match s_next sk with
    | None => ret None
    | Some s' =>
        match fuel with
        | O => stuck OutOfFuel
        | S fuel' => sweep_seek fuel' short_ticks long_ticks s'
        end
    end.

(** The slow path for one socket with a timeout to emit; returns the
    socket the walk goes on with. *)
Definition sweep_emit (context : nat) (short_ticks long_ticks : Z) (s : nat) : M W ptr :=
  modify (with_context context (ctx_set_iterator (Some s))) ;;
  t <- gets (fun st => timeout (sockets st s)) ;;
  (if short_ticks =? t then
     modify (with_socket s (sock_set_timeout 255)) ;;
     match on_socket_timeout E context with
     | Some handler =>
         call_ (fun st => EvOnSocketTimeout context s (timeout (sockets st s))) (handler s)
     | None => ret tt
     end
   else ret tt) ;;
  it <- gets (fun st => c_iterator (contexts st context)) ;;
  lt <- gets (fun st => long_timeout (sockets st s)) ;;
  (if ptr_eqb it (Some s) && (long_ticks =? lt) then
     modify (with_socket s (sock_set_long_timeout 255)) ;;
     match on_socket_long_timeout E context with
     | Some handler =>
         call_ (fun st => EvOnSocketLongTimeout context s (long_timeout (sockets st s)))
               (handler s)
     | None => ret tt
     end
   else ret tt) ;;
  it' <- gets (fun st => c_iterator (contexts st context)) ;;
  if ptr_eqb (Some s) it' then gets (fun st => s_next (sockets st s))
  else ret it'.

(** The walk [while (s)] over the sockets of one context. *)
Fixpoint sweep_sockets (fuel : nat) (context : nat) (short_ticks long_ticks : Z) (s : ptr)
  : M W unit :=
  match s with
  | None => ret tt
  | Some s0 =>
      match fuel with
      | O => stuck OutOfFuel
      | S fuel' =>
          found <- sweep_seek fuel' short_ticks long_ticks s0 ;;
          match found with
          | None => ret tt
          | Some s1 =>
              s2 <- sweep_emit context short_ticks long_ticks s1 ;;
              sweep_sockets fuel' context short_ticks long_ticks s2
          end
      end
  end.

(** The body of the loop over the contexts. *)
Definition sweep_context (fuel : nat) (context : nat) : M W unit :=
  modify (with_context context sweep_advance_ticks) ;;
  short_ticks <- gets (fun st => timestamp (contexts st context)) ;;
  long_ticks <- gets (fun st => long_timestamp (contexts st context)) ;;
  s <- gets (fun st => head_sockets (contexts st context)) ;;
  sweep_sockets fuel context short_ticks long_ticks s ;;
  modify (with_context context (ctx_set_iterator None)).

Fixpoint sweep_contexts (fuel : nat) : M W unit :=
  it <- gets (fun st => iterator (data st)) ;;
  match it with
  | None => ret tt
  | Some context =>
      match fuel with
      | O => stuck OutOfFuel
      | S fuel' =>
          sweep_context fuel' context ;;
          it' <- gets (fun st => iterator (data st)) ;;
          match it' with
          | None => stuck NullDereference
          | Some c' =>
              modify (fun st => with_data (data_set_iterator (c_next (contexts st c'))) st) ;;
              sweep_contexts fuel'
          end
      end
  end.

(* void us_internal_timer_sweep(struct us_loop_t *loop) *)
Definition us_internal_timer_sweep (fuel : nat) : M W unit :=
  modify (fun st => with_data (data_set_iterator (head (data st))) st) ;;
  sweep_contexts fuel.
End Sweep.

(** ** The low-priority queue, the pre-hook and the post-hook *)
Definition MAX_LOW_PRIO_SOCKETS_PER_LOOP_ITERATION : Z := 5.

(** A value of type [long long]: [iteration_nr++] at LLONG_MAX wraps to
    LLONG_MIN. *)
Definition long_long_wrap (x : Z) : Z := (x + 2 ^ 63) mod 2 ^ 64 - 2 ^ 63.

Section Hooks.
Context {W : Type} (E : env W).

(** The body of the promotion loop, for the socket [s] at the head. *)
Definition low_prio_promote (s : nat) : M W unit :=
  nx <- gets (fun st => s_next (sockets st s)) ;;
  modify (with_data (data_set_low_prio_head nx)) ;;
  match nx with
  | Some n => modify (with_socket n (sock_set_prev None))
  | None => ret tt
  end ;;
  modify (with_socket s (sock_set_next None)) ;;
  ctx <- gets (fun st => s_context (sockets st s)) ;;
  call_ (fun _ => EvLinkSocket ctx s) (us_internal_socket_context_link_socket E ctx s) ;;
  ev <- gets (fun st => us_poll_events E st s) ;;
  call_ (fun _ => EvPollChange s (Z.lor ev (LIBUS_SOCKET_READABLE E)))
        (us_poll_change E s (Z.lor ev (LIBUS_SOCKET_READABLE E))) ;;
  modify (with_socket s (sock_set_flags (set_flags_low_prio_state 2))) ;;
  emit (EvLowPrioState s 2).

Fixpoint low_prio_loop (fuel : nat) : M W unit :=
  s <- gets (fun st => low_prio_head (data st)) ;;
  budget <- gets (fun st => low_prio_budget (data st)) ;;
  match s with
  | None => ret tt
  | Some s0 =>
      if budget >? 0 then
        match fuel with
        | O => stuck OutOfFuel
        | S fuel' =>
            low_prio_promote s0 ;;
            modify (fun st => with_data (data_set_low_prio_budget
                                           (low_prio_budget (data st) - 1)) st) ;;
            low_prio_loop fuel'
        end
      else ret tt
  end.

(* void us_internal_handle_low_priority_sockets(struct us_loop_t *loop) *)
Definition us_internal_handle_low_priority_sockets (fuel : nat) : M W unit :=
  modify (with_data (data_set_low_prio_budget MAX_LOW_PRIO_SOCKETS_PER_LOOP_ITERATION)) ;;
  low_prio_loop fuel.

(** The three walks of us_internal_free_closed_sockets and the one of
    us_internal_free_closed_contexts: read [next], free, go on. *)
Fixpoint free_chain (fuel : nat) (next : state W -> nat -> ptr)
         (free : nat -> M W unit) (s : ptr) : M W unit :=
  match s with
  | None => ret tt
  | Some x =>
      match fuel with
      | O => stuck OutOfFuel
      | S fuel' =>
          nx <- gets (fun st => next st x) ;;
          free x ;;
          free_chain fuel' next free nx
      end
  end.

(* void us_internal_free_closed_sockets(struct us_loop_t *loop) *)
Definition us_internal_free_closed_sockets (fuel : nat) : M W unit :=
  s <- gets (fun st => closed_head (data st)) ;;
  free_chain fuel (fun st x => s_next (sockets st x))
             (fun x => call_ (fun _ => EvPollFree x) (us_poll_free E x)) s ;;
  modify (with_data (data_set_closed_head None)) ;;
  u <- gets (fun st => closed_udp_head (data st)) ;;
  free_chain fuel (fun st x => u_next (udp_sockets st x))
             (fun x => call_ (fun _ => EvPollFree x) (us_poll_free E x)) u ;;
  modify (with_data (data_set_closed_udp_head None)) ;;
  c <- gets (fun st => closed_connecting_head (data st)) ;;
  free_chain fuel (fun st x => cs_next (connecting st x))
             (fun x => call_ (fun _ => EvFree x) (us_free E x)) c ;;
  modify (with_data (data_set_closed_connecting_head None)).

(* void us_internal_free_closed_contexts(struct us_loop_t *loop) *)
Definition us_internal_free_closed_contexts (fuel : nat) : M W unit :=
  c <- gets (fun st => closed_context_head (data st)) ;;
  free_chain fuel (fun st x => c_next (contexts st x))
             (fun x => call_ (fun _ => EvFree x) (us_free E x)) c ;;
  modify (with_data (data_set_closed_context_head None)).

(* void us_internal_loop_pre(struct us_loop_t *loop) *)
Definition us_internal_loop_pre (fuel : nat) : M W unit :=
  modify (fun st => with_data (data_set_iteration_nr
                                 (long_long_wrap (iteration_nr (data st) + 1))) st) ;;
  us_internal_handle_dns_results E fuel ;;
  us_internal_handle_low_priority_sockets fuel ;;
  call_ (fun _ => EvPreCb) (pre_cb E).

(* void us_internal_loop_post(struct us_loop_t *loop) *)
Definition us_internal_loop_post (fuel : nat) : M W unit :=
  us_internal_handle_dns_results E fuel ;;
  us_internal_free_closed_sockets fuel ;;
  us_internal_free_closed_contexts fuel ;;
  call_ (fun _ => EvPostCb) (post_cb E).
End Hooks.

(** ** Dispatch of one ready poll (the build for a POSIX poller) *)

(** How the readable phase of a socket ends: it falls through to the EOF
    and error phases with the socket and the end-of-file flag it has now,
    it returns from the dispatch, or the socket was deferred to the
    low-priority queue and the [break] left the [switch]. *)
Inductive readable_exit :=
| ReadableDone (s : ptr) (eof : Z)
| ReadableReturn
| ReadableDeferred.

Section Dispatch.
Context {W : Type} (E : env W).

Definition LOOP_ISNT_VERY_BUSY_THRESHOLD : Z := 25.

(* case POLL_TYPE_CALLBACK *)
Definition dispatch_callback (p : nat) : M W unit :=
  c <- gets (fun st => callbacks st p) ;;
  (if negb (leave_poll_ready c)
   then call_ (fun _ => EvAcceptPollEvent p) (us_internal_accept_poll_event E p)
   else ret tt) ;;
  call_ (fun _ => EvCb p (cb_expects_the_loop c)) (cb E p (cb_expects_the_loop c)).

(** The size asked of us_create_poll for an accepted socket, the value
    of the [size_t] expression
    [sizeof(struct us_socket_t) - sizeof(struct us_poll_t) + listen_socket->socket_ext_size]. *)
Definition accepted_ext_size (socket_ext_size : Z) : Z :=
  (sizeof_us_socket_t E - sizeof_us_poll_t E + socket_ext_size) mod 2 ^ 64.

(** The body of the accept loop for one accepted descriptor, up to and
    including the [on_open] call. *)
Definition accept_one (listen_socket : nat) (client_fd : Z) : M W unit :=
  ext <- gets (fun st => accepted_ext_size (listen_socket_ext_size st listen_socket)) ;;
  s <- call (fun _ p => EvCreatePoll ext p) (us_create_poll E ext) ;;
  call_ (fun _ => EvPollInit s client_fd POLL_TYPE_SOCKET)
        (us_poll_init E s client_fd POLL_TYPE_SOCKET) ;;
  call_ (fun _ => EvPollStart s (LIBUS_SOCKET_READABLE E))
        (us_poll_start E s (LIBUS_SOCKET_READABLE E)) ;;
  modify (fun st => with_socket s (sock_set_context (s_context (sockets st listen_socket))) st) ;;
  modify (with_socket s (sock_set_connect_state None)) ;;
  modify (with_socket s (sock_set_timeout 255)) ;;
  modify (with_socket s (sock_set_long_timeout 255)) ;;
  modify (with_socket s (sock_set_flags (set_flags_low_prio_state 0))) ;;
  emit (EvLowPrioState s 0) ;;
  modify (fun st => with_socket s (sock_set_flags (set_flags_allow_half_open
            (allow_half_open (flags (sockets st listen_socket))))) st) ;;
  modify (with_socket s (sock_set_flags (set_flags_is_paused false))) ;;
  modify (with_socket s (sock_set_flags (set_flags_is_ipc false))) ;;
  call_ (fun _ => EvNodelay client_fd) (bsd_socket_nodelay E client_fd) ;;
  c1 <- gets (fun st => s_context (sockets st listen_socket)) ;;
  call_ (fun _ => EvLinkSocket c1 s) (us_internal_socket_context_link_socket E c1 s) ;;
  c2 <- gets (fun st => s_context (sockets st listen_socket)) ;;
  call_ (fun _ => EvOnOpen c2 s) (on_open E c2 s).

(** do { ... } while ((client_fd = bsd_accept_socket(...)) != LIBUS_SOCKET_ERROR) *)
Fixpoint accept_loop (fuel : nat) (listen_socket : nat) (client_fd : Z) : M W unit :=
  match fuel with
  | O => stuck OutOfFuel
  | S fuel' =>
      accept_one listen_socket client_fd ;;
      closed <- gets (fun st => us_socket_is_closed E st listen_socket) ;;
      if closed then ret tt
      else
        fd <- gets (fun st => us_poll_fd E st listen_socket) ;;
        client_fd' <- call (fun _ r => EvAccept fd r) (bsd_accept_socket E fd) ;;
        if client_fd' =? LIBUS_SOCKET_ERROR E then ret tt
        else accept_loop fuel' listen_socket client_fd'
  end.

(* case POLL_TYPE_SEMI_SOCKET *)
Definition dispatch_semi_socket (fuel : nat) (p : nat) (error eof : Z) : M W unit :=
  ev <- gets (fun st => us_poll_events E st p) ;;
  if ev =? LIBUS_SOCKET_WRITABLE E then
    let failed := negb (error =? 0) || negb (eof =? 0) in
    call_ (fun _ => EvAfterOpen p failed) (us_internal_socket_after_open E p failed)
  else
    fd <- gets (fun st => us_poll_fd E st p) ;;
    client_fd <- call (fun _ r => EvAccept fd r) (bsd_accept_socket E fd) ;;
    if client_fd =? LIBUS_SOCKET_ERROR E then ret tt
    else accept_loop fuel p client_fd.

(** The writable phase; [None] is the [return] after the handler gave
    back no socket or a closed one. *)
Definition writable_phase (s : nat) (error events : Z) : M W (option nat) :=
  if negb (Z.land events (LIBUS_SOCKET_WRITABLE E) =? 0) && (error =? 0) then
    modify (with_data (data_set_last_write_failed 0)) ;;
    ctx <- gets (fun st => s_context (sockets st s)) ;;
    r <- call (fun _ _ => EvOnWritable ctx s) (on_writable E ctx s) ;;
    match r with
    | None => ret None
    | Some s1 =>
        closed <- gets (fun st => us_socket_is_closed E st s1) ;;
        if closed then ret None
        else
          lwf <- gets (fun st => last_write_failed (data st)) ;;
          shut <- gets (fun st => us_socket_is_shut_down E st s1) ;;
          (if (lwf =? 0) || shut then
             ev <- gets (fun st => us_poll_events E st s1) ;;
             call_ (fun _ => EvPollChange s1 (Z.land ev (LIBUS_SOCKET_READABLE E)))
                   (us_poll_change E s1 (Z.land ev (LIBUS_SOCKET_READABLE E)))
           else ret tt) ;;
          ret (Some s1)
    end
  else ret (Some s).

(** Moving a readable socket to the head of the low-priority queue. *)
Definition low_prio_defer (context s : nat) : M W unit :=
  ev <- gets (fun st => us_poll_events E st s) ;;
  call_ (fun _ => EvPollChange s (Z.land ev (LIBUS_SOCKET_WRITABLE E)))
        (us_poll_change E s (Z.land ev (LIBUS_SOCKET_WRITABLE E))) ;;
  call_ (fun _ => EvContextRef context) (us_socket_context_ref E context) ;;
  call_ (fun _ => EvUnlinkSocket context s)
        (us_internal_socket_context_unlink_socket E context s) ;;
  modify (with_socket s (sock_set_prev None)) ;;
  modify (fun st => with_socket s (sock_set_next (low_prio_head (data st))) st) ;;
  nx <- gets (fun st => s_next (sockets st s)) ;;
  match nx with
  | Some n => modify (with_socket n (sock_set_prev (Some s)))
  | None => ret tt
  end ;;
  modify (with_data (data_set_low_prio_head (Some s))) ;;
  modify (with_socket s (sock_set_flags (set_flags_low_prio_state 1))) ;;
  emit (EvLowPrioState s 1).

(** Admission control of the readable phase: [true] when the socket is
    read now, [false] when it was deferred. *)
Definition low_prio_admission (s : nat) : M W bool :=
  context <- gets (fun st => s_context (sockets st s)) ;;
  lp <- call (fun _ r => EvIsLowPrio context s r) (is_low_prio E context s) ;;
  if lp then
    lps <- gets (fun st => low_prio_state (flags (sockets st s))) ;;
    if lps =? 2 then
      modify (with_socket s (sock_set_flags (set_flags_low_prio_state 0))) ;;
      emit (EvLowPrioState s 0) ;;
      ret true
    else
      budget <- gets (fun st => low_prio_budget (data st)) ;;
      if budget >? 0 then
        modify (fun st => with_data (data_set_low_prio_budget
                                       (low_prio_budget (data st) - 1)) st) ;;
        emit (EvLowPrioBudgetTaken s) ;;
        ret true
      else
        low_prio_defer context s ;;
        ret false
  else ret true.

(** The condition under which the receive loop considers reading again,
    evaluated after [on_data] returned [s] for a read of [length] bytes. *)
Definition recv_again_candidate (st : state W) (s : ptr) (length error : Z) : bool :=
  match s with
  | None => false
  | Some s1 =>
      (length >=? LIBUS_RECV_BUFFER_LENGTH E - 24 * 1024)
      && (length <=? LIBUS_RECV_BUFFER_LENGTH E)
      && (negb (error =? 0) || (num_ready_polls st <? LOOP_ISNT_VERY_BUSY_THRESHOLD))
      && negb (us_socket_is_closed E st s1)
  end.

(** [repeat_recv_count += error == 0] on a [size_t]. *)
Definition bump_repeat_recv_count (repeat_recv_count error : Z) : Z :=
  (repeat_recv_count + (if error =? 0 then 1 else 0)) mod 2 ^ 64.

(** Whether the [continue] is taken, with the counter already bumped. *)
Definition recv_continue (st : state W) (repeat_recv_count : Z) : bool :=
  negb ((repeat_recv_count >? 10) && (num_ready_polls st >? 2)).

(** One receive: plain, or for an IPC socket a message receive that
    hands a passed descriptor to [on_fd] first.  [inl s] is the [break]
    after [on_fd] closed the socket; [inr (s, length)] goes on. *)
Definition recv_once (s : nat) : M W (nat + nat * Z) :=
  ipc <- gets (fun st => is_ipc (flags (sockets st s))) ;;
  fd <- gets (fun st => us_poll_fd E st s) ;;
  if ipc then
    r <- call (fun _ r => EvRecvmsg fd (fst r)) (bsd_recvmsg E fd) ;;
    match snd r with
    | Some passed_fd =>
        if fst r >? 0 then
          ctx <- gets (fun st => s_context (sockets st s)) ;;
          s' <- call (fun _ _ => EvOnFd ctx s passed_fd) (on_fd E ctx s passed_fd) ;;
          match s' with
          | None => stuck NullDereference
          | Some s1 =>
              closed <- gets (fun st => us_socket_is_closed E st s1) ;;
              if closed then ret (inl s1) else ret (inr (s1, fst r))
          end
        else ret (inr (s, fst r))
    | None => ret (inr (s, fst r))
    end
  else
    length <- call (fun _ r => EvRecv fd r) (bsd_recv E fd) ;;
    ret (inr (s, length)).

(** do { ... } while (s) *)
Fixpoint recv_loop (fuel : nat) (s : nat) (error eof : Z) (repeat_recv_count : Z)
  : M W readable_exit :=
  match fuel with
  | O => stuck OutOfFuel
  | S fuel' =>
      r <- recv_once s ;;
      match r with
      | inl s1 => ret (ReadableDone (Some s1) eof)
      | inr (s1, length) =>
          if length >? 0 then
            ctx <- gets (fun st => s_context (sockets st s1)) ;;
            s2 <- call (fun _ _ => EvOnData ctx s1 length) (on_data E ctx s1 length) ;;
            again <- gets (fun st => recv_again_candidate st s2 length error) ;;
            match s2 with
            | Some s3 =>
                if again then
                  let count := bump_repeat_recv_count repeat_recv_count error in
                  go <- gets (fun st => recv_continue st count) ;;
                  if go then recv_loop fuel' s3 error eof count
                  else ret (ReadableDone s2 eof)
                else ret (ReadableDone s2 eof)
            | None => ret (ReadableDone s2 eof)
            end
          else if length =? 0 then ret (ReadableDone (Some s1) 1)
          else
            wb <- gets (fun st => bsd_would_block E st) ;;
            if (length =? LIBUS_SOCKET_ERROR E) && negb wb then
              call (fun _ _ => EvSocketClose (Some s1) (LIBUS_ERR E))
                   (us_socket_close E (Some s1) (LIBUS_ERR E)) ;;
              ret ReadableReturn
            else ret (ReadableDone (Some s1) eof)
      end
  end.

(** The readable phase: admission control, then the receive loop. *)
Definition readable_phase (fuel : nat) (s : nat) (error eof events : Z) : M W readable_exit :=
  if negb (Z.land events (LIBUS_SOCKET_READABLE E) =? 0) then
    admitted <- low_prio_admission s ;;
    if admitted then recv_loop fuel s error eof 0
    else ret ReadableDeferred
  else ret (ReadableDone (Some s) eof).

(** The EOF phase, entered with [eof] set and [s] not null; [None] is a
    [return], [Some s'] falls through to the error phase with [s']. *)
Definition eof_phase (s : nat) : M W (option ptr) :=
  closed <- gets (fun st => us_socket_is_closed E st s) ;;
  if closed then ret None
  else
    shut <- gets (fun st => us_socket_is_shut_down E st s) ;;
    if shut then
      call (fun _ _ => EvSocketClose (Some s) (LIBUS_SOCKET_CLOSE_CODE_CLEAN_SHUTDOWN E))
           (us_socket_close E (Some s) (LIBUS_SOCKET_CLOSE_CODE_CLEAN_SHUTDOWN E)) ;;
      ret None
    else
      half_open <- gets (fun st => allow_half_open (flags (sockets st s))) ;;
      if half_open then
        ev <- gets (fun st => us_poll_events E st s) ;;
        call_ (fun _ => EvPollChange s (Z.land ev (LIBUS_SOCKET_WRITABLE E)))
              (us_poll_change E s (Z.land ev (LIBUS_SOCKET_WRITABLE E))) ;;
        ctx <- gets (fun st => s_context (sockets st s)) ;;
        s' <- call (fun _ _ => EvOnEnd ctx s) (on_end E ctx s) ;;
        ret (Some s')
      else
        ctx <- gets (fun st => s_context (sockets st s)) ;;
        s' <- call (fun _ _ => EvOnEnd ctx s) (on_end E ctx s) ;;
        call (fun _ _ => EvSocketClose s' (LIBUS_SOCKET_CLOSE_CODE_CLEAN_SHUTDOWN E))
             (us_socket_close E s' (LIBUS_SOCKET_CLOSE_CODE_CLEAN_SHUTDOWN E)) ;;
        ret None.

(** The error phase. *)
Definition error_phase (s : ptr) (error : Z) : M W unit :=
  match s with
  | Some s1 =>
      if negb (error =? 0) then
        call (fun _ _ => EvSocketClose (Some s1) error) (us_socket_close E (Some s1) error) ;;
        ret tt
      else ret tt
  | None => ret tt
  end.

(** What follows the readable phase when it falls through. *)
Definition eof_and_error_phases (s : ptr) (error eof : Z) : M W unit :=
  match s with
  | Some s1 =>
      if negb (eof =? 0) then
        r <- eof_phase s1 ;;
        match r with
        | None => ret tt
        | Some s2 => error_phase s2 error
        end
      else error_phase s error
  | None => error_phase s error
  end.

(* case POLL_TYPE_SOCKET_SHUT_DOWN: case POLL_TYPE_SOCKET *)
Definition dispatch_socket (fuel : nat) (p : nat) (error eof events : Z) : M W unit :=
  w <- writable_phase p error events ;;
  match w with
  | None => ret tt
  | Some s =>
      r <- readable_phase fuel s error eof events ;;
      match r with
      | ReadableDone s1 eof1 => eof_and_error_phases s1 error eof1
      | ReadableReturn => ret tt
      | ReadableDeferred => ret tt
      end
  end.

(** do { ... } while (!u->closed); the result is the [error] flag. *)
Fixpoint udp_recv_loop (fuel : nat) (u : nat) (error : Z) : M W Z :=
  match fuel with
  | O => stuck OutOfFuel
  | S fuel' =>
      fd <- gets (fun st => us_poll_fd E st u) ;;
      npackets <- call (fun _ r => EvUdpRecvmmsg fd r) (bsd_recvmmsg E fd) ;;
      if npackets >? 0 then
        call_ (fun _ => EvUdpOnData u npackets) (udp_on_data E u npackets) ;;
        closed <- gets (fun st => u_closed (udp_sockets st u)) ;;
        if closed then ret error else udp_recv_loop fuel' u error
      else if npackets =? LIBUS_SOCKET_ERROR E then
        wb <- gets (fun st => bsd_would_block E st) ;;
        if negb wb then ret 1 else ret error
      else ret error
  end.

(* case POLL_TYPE_UDP *)
Definition dispatch_udp (fuel : nat) (u : nat) (error events : Z) : M W unit :=
  closed <- gets (fun st => u_closed (udp_sockets st u)) ;;
  if closed then ret tt
  else
    error1 <- (if negb (Z.land events (LIBUS_SOCKET_READABLE E) =? 0)
               then udp_recv_loop fuel u error else ret error) ;;
    closed1 <- gets (fun st => u_closed (udp_sockets st u)) ;;
    drained <- (if negb (Z.land events (LIBUS_SOCKET_WRITABLE E) =? 0)
                   && (error1 =? 0) && negb closed1 then
                  call_ (fun _ => EvUdpOnDrain u) (udp_on_drain E u) ;;
                  closed2 <- gets (fun st => u_closed (udp_sockets st u)) ;;
                  if closed2 then ret false
                  else
                    ev <- gets (fun st => us_poll_events E st u) ;;
                    call_ (fun _ => EvPollChange u (Z.land ev (LIBUS_SOCKET_READABLE E)))
                          (us_poll_change E u (Z.land ev (LIBUS_SOCKET_READABLE E))) ;;
                    ret true
                else ret true) ;;
    if drained then
      closed3 <- gets (fun st => u_closed (udp_sockets st u)) ;;
      if negb (error1 =? 0) && negb closed3
      then call_ (fun _ => EvUdpSocketClose u) (us_udp_socket_close E u)
      else ret tt
    else ret tt.

(* void us_internal_dispatch_ready_poll(struct us_poll_t *p, int error, int eof, int events) *)
Definition us_internal_dispatch_ready_poll (fuel : nat) (p : nat) (error eof events : Z)
  : M W unit :=
  t <- gets (fun st => us_internal_poll_type E st p) ;;
  match t with
  | POLL_TYPE_CALLBACK => dispatch_callback p
  | POLL_TYPE_SEMI_SOCKET => dispatch_semi_socket fuel p error eof
  | POLL_TYPE_SOCKET_SHUT_DOWN | POLL_TYPE_SOCKET => dispatch_socket fuel p error eof events
  | POLL_TYPE_UDP => dispatch_udp fuel p error events
  end.

(** Modelled from the spec: the driver of one loop iteration, which
    lives in the poller adapter (section 2 and section 6: pre-hook, then
    poll-wait, then dispatch of the batch, then post-hook).  The batch
    the poll-wait reports is given as a list of ready polls with their
    error, eof and events arguments. *)
Fixpoint dispatch_batch (fuel : nat) (ready : list (nat * Z * Z * Z)) : M W unit :=
  match ready with
  | [] => ret tt
  | (p, error, eof, events) :: rest =>
      us_internal_dispatch_ready_poll fuel p error eof events ;;
      dispatch_batch fuel rest
  end.

Definition loop_iteration (fuel : nat) (ready : list (nat * Z * Z * Z)) : M W unit :=
  us_internal_loop_pre E fuel ;;
  dispatch_batch fuel ready ;;
  us_internal_loop_post E fuel.
End Dispatch.

(** ** The list of contexts of the loop and the sweep timer's count *)

Definition ctx_set_next (v : ptr) (c : us_socket_context_t) :=
  mk_context v (c_prev c) (global_tick c) (timestamp c) (long_timestamp c)
             (head_sockets c) (c_iterator c).
Definition ctx_set_prev (v : ptr) (c : us_socket_context_t) :=
  mk_context (c_next c) v (global_tick c) (timestamp c) (long_timestamp c)
             (head_sockets c) (c_iterator c).
Definition data_set_head (v : ptr) (d : us_internal_loop_data_t) :=
  mk_loop_data (sweep_timer_count d) v (iterator d) (low_prio_budget d) (low_prio_head d)
    (dns_ready_head d) (closed_head d) (closed_udp_head d) (closed_connecting_head d)
    (closed_context_head d) (iteration_nr d) (last_write_failed d).
Definition data_set_sweep_timer_count (v : Z) (d : us_internal_loop_data_t) :=
  mk_loop_data v (head d) (iterator d) (low_prio_budget d) (low_prio_head d)
    (dns_ready_head d) (closed_head d) (closed_udp_head d) (closed_connecting_head d)
    (closed_context_head d) (iteration_nr d) (last_write_failed d).

Section Registry.
Context {W : Type}.

(* void us_internal_loop_link(struct us_loop_t *loop, struct us_socket_context_t *context) *)
Definition us_internal_loop_link (context : nat) : M W unit :=
  modify (fun st => with_context context (ctx_set_next (head (data st))) st) ;;
  modify (with_context context (ctx_set_prev None)) ;;
  h <- gets (fun st => head (data st)) ;;
  match h with
  | Some h0 => modify (with_context h0 (ctx_set_prev (Some context)))
  | None => ret tt
  end ;;
  modify (with_data (data_set_head (Some context))).

(* void us_internal_loop_unlink(struct us_loop_t *loop, struct us_socket_context_t *context) *)
Definition us_internal_loop_unlink (context : nat) : M W unit :=
  h <- gets (fun st => head (data st)) ;;
  if ptr_eqb h (Some context) then
    modify (fun st => with_data (data_set_head (c_next (contexts st context))) st) ;;
    h' <- gets (fun st => head (data st)) ;;
    match h' with
    | Some h0 => modify (with_context h0 (ctx_set_prev None))
    | None => ret tt
    end
  else
    pv <- gets (fun st => c_prev (contexts st context)) ;;
    match pv with
    | None => stuck NullDereference
    | Some p0 =>
        modify (fun st => with_context p0 (ctx_set_next (c_next (contexts st context))) st) ;;
        nx <- gets (fun st => c_next (contexts st context)) ;;
        match nx with
        | Some n0 =>
            modify (fun st => with_context n0 (ctx_set_prev (c_prev (contexts st context))) st)
        | None => ret tt
        end
    end.

(* long long us_loop_iteration_number(struct us_loop_t *loop); the field
   holds a [long long], see [long_long_wrap] in us_internal_loop_pre *)
Definition us_loop_iteration_number (st : state W) : Z := iteration_nr (data st).

(** The sweep timer is armed by the first user and disarmed by the last.
    [us_timer_set], of the poller adapter, is given the timeout and the
    repeat interval in milliseconds; [granularity] is
    LIBUS_TIMEOUT_GRANULARITY, in seconds. *)
Variable us_timer_set : Z -> Z -> state W -> state W.
Variable granularity : Z.

(* void us_internal_enable_sweep_timer(struct us_loop_t *loop) *)
Definition us_internal_enable_sweep_timer : M W unit :=
  n <- gets (fun st => sweep_timer_count (data st)) ;;
  (if n =? 0 then modify (us_timer_set (granularity * 1000) (granularity * 1000))
   else ret tt) ;;
  modify (fun st => with_data (data_set_sweep_timer_count (sweep_timer_count (data st) + 1)) st).

(* void us_internal_disable_sweep_timer(struct us_loop_t *loop) *)
Definition us_internal_disable_sweep_timer : M W unit :=
  modify (fun st => with_data (data_set_sweep_timer_count (sweep_timer_count (data st) - 1)) st) ;;
  n <- gets (fun st => sweep_timer_count (data st)) ;;
  if n =? 0 then modify (us_timer_set 0 0) else ret tt.
End Registry.

(* void sweep_timer_cb(struct us_internal_callback_t *cb) *)
Definition sweep_timer_cb {W} (E : env W) (fuel : nat) : M W unit :=
  us_internal_timer_sweep E fuel.

(** ** Vocabulary of the statements *)

(** A null-terminated chain through a [next] field. *)
Fixpoint chain (next : nat -> ptr) (h : ptr) (l : list nat) : Prop :=
  match l with
  | [] => h = None
  | x :: l' => h = Some x /\ chain next (next x) l'
  end.

(** The connecting sockets handed to us_internal_socket_after_resolve, in
    call order. *)
Definition resolved (t : list event) : list nat :=
  flat_map (fun e => match e with EvAfterResolve c => [c] | _ => [] end) t.

(** A producer's push onto the DNS-ready list: the connecting socket, the
    request, and whether the thread-safe entry point is used. *)
Definition dns_push {W} (E : env W) (p : nat * Z * bool) : M W unit :=
  match p with
  | (c, req, true) => us_internal_dns_callback_threadsafe E c req
  | (c, req, false) => us_internal_dns_callback c req
  end.

Fixpoint dns_push_all {W} (E : env W) (ps : list (nat * Z * bool)) : M W unit :=
  match ps with
  | [] => ret tt
  | p :: rest => dns_push E p ;; dns_push_all E rest
  end.

Definition pushed_socket (p : nat * Z * bool) : nat := fst (fst p).

(** Weights of events, and the weight of a trace. *)
Definition is_promotion (e : event) : Z :=
  match e with
  | EvLowPrioState _ 2 => 1
  | _ => 0
  end.

Definition is_budget_admission (e : event) : Z :=
  match e with
  | EvLowPrioBudgetTaken _ => 1
  | _ => 0
  end.

Definition is_receive (e : event) : Z :=
  match e with
  | EvRecv _ _ | EvRecvmsg _ _ => 1
  | _ => 0
  end.

Definition is_accept_or_open (e : event) : Z :=
  match e with
  | EvAccept _ _ | EvOnOpen _ _ => 1
  | _ => 0
  end.

Fixpoint weight (w : event -> Z) (t : list event) : Z :=
  match t with
  | [] => 0
  | e :: t' => w e + weight w t'
  end.

Definition promotions (t : list event) : Z := weight is_promotion t.
Definition budget_admissions (t : list event) : Z := weight is_budget_admission t.
Definition receives (t : list event) : Z := weight is_receive t.

(** The timeout handlers are entered with the sentinel in place. *)
Definition entered_disarmed (e : event) : Prop :=
  match e with
  | EvOnSocketTimeout _ _ v => v = 255
  | EvOnSocketLongTimeout _ _ v => v = 255
  | _ => True
  end.

(** Every function of the environment that loop.c calls on the way from
    the pre-hook to the end of the dispatch leaves the loop's low-priority
    budget alone. *)
Record keeps_budget {W} (E : env W) : Prop := mk_keeps_budget {
  kb_poll_change : forall p ev st,
    low_prio_budget (data (us_poll_change E p ev st)) = low_prio_budget (data st);
  kb_create_poll : forall ext st,
    low_prio_budget (data (snd (us_create_poll E ext st))) = low_prio_budget (data st);
  kb_poll_init : forall p fd t st,
    low_prio_budget (data (us_poll_init E p fd t st)) = low_prio_budget (data st);
  kb_poll_start : forall p ev st,
    low_prio_budget (data (us_poll_start E p ev st)) = low_prio_budget (data st);
  kb_accept_poll_event : forall p st,
    low_prio_budget (data (us_internal_accept_poll_event E p st)) = low_prio_budget (data st);
  kb_accept_socket : forall fd st,
    low_prio_budget (data (snd (bsd_accept_socket E fd st))) = low_prio_budget (data st);
  kb_socket_nodelay : forall fd st,
    low_prio_budget (data (bsd_socket_nodelay E fd st)) = low_prio_budget (data st);
  kb_recv : forall fd st,
    low_prio_budget (data (snd (bsd_recv E fd st))) = low_prio_budget (data st);
  kb_recvmsg : forall fd st,
    low_prio_budget (data (snd (bsd_recvmsg E fd st))) = low_prio_budget (data st);
  kb_recvmmsg : forall fd st,
    low_prio_budget (data (snd (bsd_recvmmsg E fd st))) = low_prio_budget (data st);
  kb_socket_close : forall s code st,
    low_prio_budget (data (snd (us_socket_close E s code st))) = low_prio_budget (data st);
  kb_context_ref : forall c st,
    low_prio_budget (data (us_socket_context_ref E c st)) = low_prio_budget (data st);
  kb_link_socket : forall c s st,
    low_prio_budget (data (us_internal_socket_context_link_socket E c s st))
    = low_prio_budget (data st);
  kb_unlink_socket : forall c s st,
    low_prio_budget (data (us_internal_socket_context_unlink_socket E c s st))
    = low_prio_budget (data st);
  kb_after_open : forall s f st,
    low_prio_budget (data (us_internal_socket_after_open E s f st)) = low_prio_budget (data st);
  kb_udp_socket_close : forall u st,
    low_prio_budget (data (us_udp_socket_close E u st)) = low_prio_budget (data st);
  kb_pre_cb : forall st,
    low_prio_budget (data (pre_cb E st)) = low_prio_budget (data st);
  kb_cb : forall p b st,
    low_prio_budget (data (cb E p b st)) = low_prio_budget (data st);
  kb_on_open : forall c s st,
    low_prio_budget (data (on_open E c s st)) = low_prio_budget (data st);
  kb_on_data : forall c s n st,
    low_prio_budget (data (snd (on_data E c s n st))) = low_prio_budget (data st);
  kb_on_fd : forall c s fd st,
    low_prio_budget (data (snd (on_fd E c s fd st))) = low_prio_budget (data st);
  kb_on_writable : forall c s st,
    low_prio_budget (data (snd (on_writable E c s st))) = low_prio_budget (data st);
  kb_on_end : forall c s st,
    low_prio_budget (data (snd (on_end E c s st))) = low_prio_budget (data st);
  kb_is_low_prio : forall c s st,
    low_prio_budget (data (snd (is_low_prio E c s st))) = low_prio_budget (data st);
  kb_udp_on_data : forall u n st,
    low_prio_budget (data (udp_on_data E u n st)) = low_prio_budget (data st);
  kb_udp_on_drain : forall u st,
    low_prio_budget (data (udp_on_drain E u st)) = low_prio_budget (data st)
}.

(** ** A small concrete environment

    A scripted kernel and inert user callbacks, used to run the model on
    concrete inputs: receives and accepts are served from scripts, a close
    marks the socket, [on_open] closes the socket named by
    [w_open_closes]. *)
Record sim_world := mk_sim_world {
  w_recv : list Z;
  w_accept : list Z;
  w_closed : list nat;
  w_shut_down : list nat;
  w_events : nat -> Z;
  w_type : nat -> poll_type_t;
  w_fresh : nat;
  w_low_prio : nat -> bool;
  w_open_closes : option nat
}.

Definition with_world {W} (g : W -> W) (st : state W) : state W :=
  mk_state (data st) (num_ready_polls st) (sockets st) (listen_socket_ext_size st)
           (contexts st) (connecting st) (udp_sockets st) (callbacks st) (g (world st)).

Definition w_set_recv (v : list Z) (w : sim_world) :=
  mk_sim_world v (w_accept w) (w_closed w) (w_shut_down w) (w_events w) (w_type w)
               (w_fresh w) (w_low_prio w) (w_open_closes w).
Definition w_set_accept (v : list Z) (w : sim_world) :=
  mk_sim_world (w_recv w) v (w_closed w) (w_shut_down w) (w_events w) (w_type w)
               (w_fresh w) (w_low_prio w) (w_open_closes w).
Definition w_set_closed (v : list nat) (w : sim_world) :=
  mk_sim_world (w_recv w) (w_accept w) v (w_shut_down w) (w_events w) (w_type w)
               (w_fresh w) (w_low_prio w) (w_open_closes w).
Definition w_set_events (v : nat -> Z) (w : sim_world) :=
  mk_sim_world (w_recv w) (w_accept w) (w_closed w) (w_shut_down w) v (w_type w)
               (w_fresh w) (w_low_prio w) (w_open_closes w).
Definition w_set_fresh (v : nat) (w : sim_world) :=
  mk_sim_world (w_recv w) (w_accept w) (w_closed w) (w_shut_down w) (w_events w) (w_type w)
               v (w_low_prio w) (w_open_closes w).

Definition sim_pop (get : sim_world -> list Z) (set : list Z -> sim_world -> sim_world)
           (st : state sim_world) : Z * state sim_world :=
  match get (world st) with
  | [] => (-1, st)
  | x :: rest => (x, with_world (set rest) st)
  end.

Definition sim_close (s : ptr) (st : state sim_world) : ptr * state sim_world :=
  match s with
  | Some x => (s, with_world (fun w => w_set_closed (x :: w_closed w) w) st)
  | None => (None, st)
  end.

Definition sim : env sim_world :=
  {| LIBUS_SOCKET_READABLE := 1;
     LIBUS_SOCKET_WRITABLE := 4;
     LIBUS_RECV_BUFFER_LENGTH := 524288;
     LIBUS_SOCKET_ERROR := -1;
     LIBUS_ERR := 0;
     LIBUS_SOCKET_CLOSE_CODE_CLEAN_SHUTDOWN := 0;
     sizeof_us_socket_t := 64;
     sizeof_us_poll_t := 16;
     us_internal_poll_type := fun st p => w_type (world st) p;
     us_poll_events := fun st p => w_events (world st) p;
     us_poll_fd := fun _ p => Z.of_nat p;
     us_poll_change := fun p ev => with_world (fun w => w_set_events (upd (w_events w) p ev) w);
     us_create_poll := fun _ st =>
       (w_fresh (world st), with_world (fun w => w_set_fresh (S (w_fresh w)) w) st);
     us_poll_init := fun _ _ _ st => st;
     us_poll_start := fun p ev => with_world (fun w => w_set_events (upd (w_events w) p ev) w);
     us_poll_free := fun _ st => st;
     us_internal_accept_poll_event := fun _ st => st;
     us_internal_async_wakeup := fun st => st;
     bsd_accept_socket := fun _ => sim_pop w_accept w_set_accept;
     bsd_socket_nodelay := fun _ st => st;
     bsd_recv := fun _ => sim_pop w_recv w_set_recv;
     bsd_recvmsg := fun _ st =>
       let (n, st1) := sim_pop w_recv w_set_recv st in ((n, None), st1);
     bsd_would_block := fun _ => true;
     bsd_recvmmsg := fun _ => sim_pop w_recv w_set_recv;
     us_socket_is_closed := fun st s => existsb (Nat.eqb s) (w_closed (world st));
     us_socket_is_shut_down := fun st s => existsb (Nat.eqb s) (w_shut_down (world st));
     us_socket_close := fun s _ => sim_close s;
     us_socket_context_ref := fun _ st => st;
     us_internal_socket_context_link_socket := fun _ _ st => st;
     us_internal_socket_context_unlink_socket := fun _ _ st => st;
     us_internal_socket_after_resolve := fun _ st => st;
     us_internal_socket_after_open := fun _ _ st => st;
     us_udp_socket_close := fun _ st => st;
     us_free := fun _ st => st;
     pre_cb := fun st => st;
     post_cb := fun st => st;
     cb := fun _ _ st => st;
     on_open := fun _ _ st => snd (sim_close (w_open_closes (world st)) st);
     on_data := fun _ s _ st => (Some s, st);
     on_fd := fun _ s _ st => (Some s, st);
     on_writable := fun _ s st => (Some s, st);
     on_end := fun _ s st => (Some s, st);
     on_socket_timeout := fun _ => Some (fun _ st => st);
     on_socket_long_timeout := fun _ => Some (fun _ st => st);
     is_low_prio := fun _ s st => (w_low_prio (world st) s, st);
     udp_on_data := fun _ _ st => st;
     udp_on_drain := fun _ st => st |}.

Definition sim_world0 : sim_world :=
  mk_sim_world [] [] [] [] (fun _ => 1) (fun _ => POLL_TYPE_SOCKET) 100%nat
               (fun _ => false) None.

Definition socket0 : us_socket_t :=
  mk_socket 0%nat None None 255 255 None (mk_flags 0 false false false).

Definition loop_data0 : us_internal_loop_data_t :=
  mk_loop_data 0 None None 0 None None None None None None 0 0.

(** An idle loop: nothing queued, every timeout disarmed. *)
Definition sim_state0 (w : sim_world) : state sim_world :=
  mk_state loop_data0 1 (fun _ => socket0) (fun _ => 0)
           (fun _ => mk_context None None 0 0 0 None None)
           (fun _ => mk_connecting 0%nat 0 None)
           (fun _ => mk_udp false None)
           (fun _ => mk_callback false false)
           w.

(** A relation between the state a computation starts from, the state
    it reaches and the trace it emits; [respects R m] when every run of
    [m], complete or stuck, is in the relation. *)
Definition respects {W A} (R : state W -> state W -> list event -> Prop) (m : M W A) : Prop :=
  forall st, R st (state_of (m st)) (trace_of (m st)).

Definition budget_of {W} (st : state W) : Z := low_prio_budget (data st).

(** The budget is only ever spent on events that [w] counts, one unit per
    event, and is never overdrawn. *)
Definition budget_rel {W} (w : event -> Z) (st st' : state W) (t : list event) : Prop :=
  budget_of st' + weight w t = budget_of st /\ (0 <= budget_of st -> 0 <= budget_of st').

Definition is_admission (e : event) : Z := is_promotion e + is_budget_admission e.

Definition conn_next {W} (st : state W) (c : nat) : ptr := cs_next (connecting st c).

(** Runs that emit nothing [w] counts. *)
Definition silent {W} (w : event -> Z) (st st' : state W) (t : list event) : Prop :=
  weight w t = 0.

(** The concrete environment with the sockets [1 .. n] parked in the
    low-priority queue, head first, every socket classified low-priority. *)
Definition parked_socket (n i : nat) : us_socket_t :=
  if Nat.leb 1 i && Nat.leb i n then
    mk_socket 0%nat (if Nat.eqb i 1 then None else Some (Nat.pred i))
              (if Nat.ltb i n then Some (S i) else None) 255 255 None
              (mk_flags 1 false false false)
  else socket0.

Definition sim_parked (n : nat) : state sim_world :=
  mk_state
    (data_set_low_prio_head (match n with O => None | _ => Some 1%nat end) loop_data0)
    1 (parked_socket n) (fun _ => 0)
    (fun _ => mk_context None None 0 0 0 None None)
    (fun _ => mk_connecting 0%nat 0 None)
    (fun _ => mk_udp false None)
    (fun _ => mk_callback false false)
    (mk_sim_world [] [] [] [] (fun _ => 4) (fun _ => POLL_TYPE_SOCKET) 100%nat
                  (fun _ => true) None).

(** The concrete environment with two contexts in the loop.  Context 0
    is at tick 0 and holds socket 1 (short timeout due at stamp 1) and
    socket 2 (long timeout due at long stamp 0); context 1 is at the last
    tick before the 32-bit counter wraps and holds socket 3 (short timeout
    due at stamp 0). *)
Definition sim_armed : state sim_world :=
  mk_state
    (mk_loop_data 1 (Some 0%nat) None 0 None None None None None None 0 0)
    1
    (fun s => match s with
              | 1%nat => mk_socket 0%nat None (Some 2%nat) 1 255 None (mk_flags 0 false false false)
              | 2%nat => mk_socket 0%nat (Some 1%nat) None 255 0 None (mk_flags 0 false false false)
              | 3%nat => mk_socket 1%nat None None 0 255 None (mk_flags 0 false false false)
              | _ => socket0
              end)
    (fun _ => 0)
    (fun c => match c with
              | 0%nat => mk_context (Some 1%nat) None 0 0 0 (Some 1%nat) None
              | 1%nat => mk_context None (Some 0%nat) (2 ^ 32 - 1) 15 175 (Some 3%nat) None
              | _ => mk_context None None 0 0 0 None None
              end)
    (fun _ => mk_connecting 0%nat 0 None)
    (fun _ => mk_udp false None)
    (fun _ => mk_callback false false)
    sim_world0.

(** Every event of the run satisfies [P]. *)
Definition all_events {W} (P : event -> Prop) (st st' : state W) (t : list event) : Prop :=
  Forall P t.

(** The tick and the two stamps of a context, its link to the next
    context, and the runs that leave the chain of contexts, the loop's
    iterator over it and every context's tick and stamps as they were. *)
Definition ctx_ticks {W} (st : state W) (c : nat) : Z * Z * Z :=
  (global_tick (contexts st c), timestamp (contexts st c), long_timestamp (contexts st c)).

Definition ctx_next {W} (st : state W) (c : nat) : ptr := c_next (contexts st c).

Definition ctx_frame {W} (st st' : state W) (t : list event) : Prop :=
  iterator (data st') = iterator (data st)
  /\ forall c, ctx_next st' c = ctx_next st c /\ ctx_ticks st' c = ctx_ticks st c.

(** The tick and stamps a context has after the sweep visited it once. *)
Definition advanced_ticks (tick : Z) : Z * Z * Z :=
  let t := (tick + 1) mod 2 ^ 32 in (t, t mod 240, (t / 15) mod 240).

(** The concrete environment with socket 0 listening, the kernel holding
    two more pending connections (descriptors 7 and 8), and an [on_open]
    handler that closes the socket [closes], if any. *)
Definition sim_listening (closes : option nat) : state sim_world :=
  sim_state0 (mk_sim_world [] [7; 8] [] [] (fun _ => 1) (fun _ => POLL_TYPE_SEMI_SOCKET)
                           100%nat (fun _ => false) closes).

(** The concrete environment with socket 1 open in context 0, polling for
    readable and writable, shut down or not, allowing half-open or not. *)
Definition sim_at_eof (shut_down half_open : bool) : state sim_world :=
  mk_state loop_data0 1
    (fun _ => mk_socket 0%nat None None 255 255 None (mk_flags 0 half_open false false))
    (fun _ => 0)
    (fun _ => mk_context None None 0 0 0 None None)
    (fun _ => mk_connecting 0%nat 0 None)
    (fun _ => mk_udp false None)
    (fun _ => mk_callback false false)
    (mk_sim_world [] [] [] (if shut_down then [1%nat] else []) (fun _ => 5)
                  (fun _ => POLL_TYPE_SOCKET) 100%nat (fun _ => false) None).

(** The concrete environment with socket 1 open in context 0 and polling
    for readable, every socket classified low-priority, the budget of the
    iteration spent, and nothing parked yet. *)
Definition sim_budget_spent : state sim_world :=
  sim_state0 (mk_sim_world [] [] [] [] (fun _ => 1) (fun _ => POLL_TYPE_SOCKET) 100%nat
                           (fun _ => true) None).

(** The concrete environment with socket 1 open, [full_reads] reads of a
    full receive buffer pending in the kernel, and [polls] ready polls
    reported for the iteration. *)
Definition sim_reading (full_reads : nat) (polls : Z) : state sim_world :=
  mk_state loop_data0 polls (fun _ => socket0) (fun _ => 0)
    (fun _ => mk_context None None 0 0 0 None None)
    (fun _ => mk_connecting 0%nat 0 None)
    (fun _ => mk_udp false None)
    (fun _ => mk_callback false false)
    (mk_sim_world (repeat 524288 full_reads) [] [] [] (fun _ => 1)
                  (fun _ => POLL_TYPE_SOCKET) 100%nat (fun _ => false) None).

(** A run with a trace emitted before it. *)
Definition prefixed {W A} (t : list event) (r : outcome A * state W * list event)
  : outcome A * state W * list event :=
  (result_of r, state_of r, t ++ trace_of r).

(** A segment of a doubly-linked list: [l] is reached from [h] through
    [next] up to [stop], and every element points back to its predecessor
    through [prev], the first one to [before]. *)
Fixpoint dlseg (next prev : nat -> ptr) (before h : ptr) (l : list nat) (stop : ptr) : Prop :=
  match l with
  | [] => h = stop
  | x :: l' => h = Some x /\ prev x = before /\ dlseg next prev (Some x) (next x) l' stop
  end.

Definition ctx_prev {W} (st : state W) (c : nat) : ptr := c_prev (contexts st c).

(** The contexts of the loop are exactly [l], head first, properly linked
    both ways. *)
Definition contexts_linked {W} (st : state W) (l : list nat) : Prop :=
  dlseg (ctx_next st) (ctx_prev st) None (head (data st)) l None.

(** A sequence of requests on the sweep timer, [true] for
    us_internal_enable_sweep_timer and [false] for
    us_internal_disable_sweep_timer. *)
Fixpoint sweep_timer_requests {W} (us_timer_set : Z -> Z -> state W -> state W)
         (granularity : Z) (ops : list bool) : M W unit :=
  match ops with
  | [] => ret tt
  | true :: rest =>
      us_internal_enable_sweep_timer us_timer_set granularity ;;
      sweep_timer_requests us_timer_set granularity rest
  | false :: rest =>
      us_internal_disable_sweep_timer us_timer_set ;;
      sweep_timer_requests us_timer_set granularity rest
  end.

(** No request disables more often than was enabled before it, starting
    with [n] users. *)
Fixpoint never_overdrawn (n : Z) (ops : list bool) : Prop :=
  match ops with
  | [] => True
  | true :: rest => never_overdrawn (n + 1) rest
  | false :: rest => 0 < n /\ never_overdrawn (n - 1) rest
  end.

Fixpoint net_users (ops : list bool) : Z :=
  match ops with
  | [] => 0
  | true :: rest => 1 + net_users rest
  | false :: rest => net_users rest - 1
  end.

(** The sweep timer is set to fire every [granularity] seconds exactly
    when someone uses it. *)
Definition sweep_timer_in_step {W} (timer_of : W -> Z * Z) (granularity : Z) (st : state W)
  : Prop :=
  0 <= sweep_timer_count (data st)
  /\ timer_of (world st)
     = if sweep_timer_count (data st) =? 0 then (0, 0)
       else (granularity * 1000, granularity * 1000).

(** A loop whose world is just the setting of the sweep timer. *)
Definition timer_state0 : state (Z * Z) :=
  mk_state loop_data0 0 (fun _ => socket0) (fun _ => 0)
           (fun _ => mk_context None None 0 0 0 None None)
           (fun _ => mk_connecting 0%nat 0 None)
           (fun _ => mk_udp false None)
           (fun _ => mk_callback false false)
           (0, 0).

Definition timer_set_world (ms repeat_ms : Z) (st : state (Z * Z)) : state (Z * Z) :=
  with_world (fun _ => (ms, repeat_ms)) st.

(** The state after the objects of [l] were freed one after the other. *)
Definition free_all {W} (f : nat -> state W -> state W) (l : list nat) (st : state W)
  : state W :=
  fold_left (fun st x => f x st) l st.

(** The concrete environment with the closed sockets 1 and 2, the closed
    UDP socket 3 and the closed connecting sockets 4 and 5 waiting to be
    freed. *)
Definition sim_closed : state sim_world :=
  mk_state
    (mk_loop_data 0 None None 0 None None (Some 1%nat) (Some 3%nat) (Some 4%nat) None 0 0)
    1
    (fun s => match s with
              | 1%nat => mk_socket 0%nat None (Some 2%nat) 255 255 None
                                   (mk_flags 0 false false false)
              | _ => socket0
              end)
    (fun _ => 0)
    (fun _ => mk_context None None 0 0 0 None None)
    (fun c => match c with
              | 4%nat => mk_connecting 0%nat 0 (Some 5%nat)
              | _ => mk_connecting 0%nat 0 None
              end)
    (fun _ => mk_udp true None)
    (fun _ => mk_callback false false)
    sim_world0.

(** The sockets promoted out of the low-priority queue, in the order of
    their promotion. *)
Definition promoted (t : list event) : list nat :=
  flat_map (fun e => match e with EvLowPrioState s 2 => [s] | _ => [] end) t.

(** The low-priority queue holds exactly the sockets [l], head first, each
    in low-priority state 1. *)
Definition parked {W} (st : state W) (l : list nat) : Prop :=
  chain (fun s => s_next (sockets st s)) (low_prio_head (data st)) l
  /\ forall y, In y l -> low_prio_state (flags (sockets st y)) = 1.

(** A collaborator called for the socket [s] keeps out of the
    low-priority queue: it leaves the head of the queue and the budget
    alone, and of every other socket in state 1 the link and the state. *)
Definition keeps_queue {W} (f : state W -> state W) (s : nat) : Prop :=
  forall st,
    low_prio_head (data (f st)) = low_prio_head (data st)
    /\ low_prio_budget (data (f st)) = low_prio_budget (data st)
    /\ forall y, y <> s -> low_prio_state (flags (sockets st y)) = 1 ->
                 s_next (sockets (f st) y) = s_next (sockets st y)
                 /\ low_prio_state (flags (sockets (f st) y)) = 1.

(** What the sweep of a context with the stamps [short_ticks] and
    [long_ticks] emits for the socket [s], read off the state the sweep
    starts from: the short timeout when its field matches the first stamp
    and a handler is installed, then the long timeout likewise. *)
Definition sweep_fires {W} (E : env W) (context : nat) (short_ticks long_ticks : Z)
           (st : state W) (s : nat) : list event :=
  (if short_ticks =? timeout (sockets st s) then
     match on_socket_timeout E context with
     | Some _ => [EvOnSocketTimeout context s 255]
     | None => []
     end
   else [])
  ++ (if long_ticks =? long_timeout (sockets st s) then
        match on_socket_long_timeout E context with
        | Some _ => [EvOnSocketLongTimeout context s 255]
        | None => []
        end
      else []).

(** A timeout handler that leaves the walk alone: it changes no socket's
    link or timeout fields and no context's iterator or list of sockets. *)
Definition inert_handler {W} (handler : nat -> state W -> state W) : Prop :=
  forall s st,
    (forall y, s_next (sockets (handler s st) y) = s_next (sockets st y)
               /\ timeout (sockets (handler s st) y) = timeout (sockets st y)
               /\ long_timeout (sockets (handler s st) y) = long_timeout (sockets st y))
    /\ (forall c, c_iterator (contexts (handler s st) c) = c_iterator (contexts st c)).

(** The timeout fields a socket is left with by a sweep with the given
    stamps that reached it. *)
Definition swept_timeout (short_ticks : Z) (t : Z) : Z :=
  if short_ticks =? t then 255 else t.

(** The environment [E] with another answer of bsd_would_block, other
    short-timeout handlers and another data handler of the UDP sockets. *)
Definition env_with {W} (E : env W) (would_block : state W -> bool)
           (socket_timeout : nat -> option (nat -> state W -> state W))
           (udp_data : nat -> Z -> state W -> state W) : env W :=
  {| LIBUS_SOCKET_READABLE := LIBUS_SOCKET_READABLE E;
     LIBUS_SOCKET_WRITABLE := LIBUS_SOCKET_WRITABLE E;
     LIBUS_RECV_BUFFER_LENGTH := LIBUS_RECV_BUFFER_LENGTH E;
     LIBUS_SOCKET_ERROR := LIBUS_SOCKET_ERROR E;
     LIBUS_ERR := LIBUS_ERR E;
     LIBUS_SOCKET_CLOSE_CODE_CLEAN_SHUTDOWN := LIBUS_SOCKET_CLOSE_CODE_CLEAN_SHUTDOWN E;
     sizeof_us_socket_t := sizeof_us_socket_t E;
     sizeof_us_poll_t := sizeof_us_poll_t E;
     us_internal_poll_type := us_internal_poll_type E;
     us_poll_events := us_poll_events E;
     us_poll_fd := us_poll_fd E;
     us_poll_change := us_poll_change E;
     us_create_poll := us_create_poll E;
     us_poll_init := us_poll_init E;
     us_poll_start := us_poll_start E;
     us_poll_free := us_poll_free E;
     us_internal_accept_poll_event := us_internal_accept_poll_event E;
     us_internal_async_wakeup := us_internal_async_wakeup E;
     bsd_accept_socket := bsd_accept_socket E;
     bsd_socket_nodelay := bsd_socket_nodelay E;
     bsd_recv := bsd_recv E;
     bsd_recvmsg := bsd_recvmsg E;
     bsd_would_block := would_block;
     bsd_recvmmsg := bsd_recvmmsg E;
     us_socket_is_closed := us_socket_is_closed E;
     us_socket_is_shut_down := us_socket_is_shut_down E;
     us_socket_close := us_socket_close E;
     us_socket_context_ref := us_socket_context_ref E;
     us_internal_socket_context_link_socket := us_internal_socket_context_link_socket E;
     us_internal_socket_context_unlink_socket := us_internal_socket_context_unlink_socket E;
     us_internal_socket_after_resolve := us_internal_socket_after_resolve E;
     us_internal_socket_after_open := us_internal_socket_after_open E;
     us_udp_socket_close := us_udp_socket_close E;
     us_free := us_free E;
     pre_cb := pre_cb E;
     post_cb := post_cb E;
     cb := cb E;
     on_open := on_open E;
     on_data := on_data E;
     on_fd := on_fd E;
     on_writable := on_writable E;
     on_end := on_end E;
     on_socket_timeout := socket_timeout;
     on_socket_long_timeout := on_socket_long_timeout E;
     is_low_prio := is_low_prio E;
     udp_on_data := udp_data;
     udp_on_drain := udp_on_drain E |}.

(** An environment in which the last receive is reported as having, or
    not having, failed only because it would block. *)
Definition with_would_block {W} (would_block : state W -> bool) (E : env W) : env W :=
  env_with E would_block (on_socket_timeout E) (udp_on_data E).

(** An environment with other short-timeout handlers. *)
Definition with_socket_timeout {W} (handlers : nat -> option (nat -> state W -> state W))
           (E : env W) : env W :=
  env_with E (bsd_would_block E) handlers (udp_on_data E).

(** An environment with another data handler of the UDP sockets. *)
Definition with_udp_on_data {W} (handler : nat -> Z -> state W -> state W) (E : env W)
  : env W :=
  env_with E (bsd_would_block E) (on_socket_timeout E) handler.

(** A timeout handler that closes its socket, as far as the sweep sees
    it: the socket is unlinked from its context, which moves the
    context's iterator on to the next socket. *)
Definition closing_handler {W} (s : nat) (st : state W) : state W :=
  with_context (s_context (sockets st s)) (ctx_set_iterator (s_next (sockets st s))) st.

(** A data handler of a UDP socket that closes the socket. *)
Definition closing_udp_handler {W} (u : nat) (npackets : Z) (st : state W) : state W :=
  mk_state (data st) (num_ready_polls st) (sockets st) (listen_socket_ext_size st)
           (contexts st) (connecting st)
           (upd (udp_sockets st) u (mk_udp true (u_next (udp_sockets st u))))
           (callbacks st) (world st).

(** The events other than the calls of the writable handlers, on_writable
    of a socket context and on_drain of a UDP socket. *)
Definition not_writable_callback (e : event) : Prop :=
  match e with
  | EvOnWritable _ _ | EvUdpOnDrain _ => False
  | _ => True
  end.

(** A collaborator that leaves the fields loop.c initialises in an
    accepted socket alone, in every socket. *)
Definition keeps_socket_fields {W} (f : state W -> state W) : Prop :=
  forall st y,
    s_context (sockets (f st) y) = s_context (sockets st y)
    /\ connect_state (sockets (f st) y) = connect_state (sockets st y)
    /\ timeout (sockets (f st) y) = timeout (sockets st y)
    /\ long_timeout (sockets (f st) y) = long_timeout (sockets st y)
    /\ flags (sockets (f st) y) = flags (sockets st y).

(** A socket as the accept loop sets it up: in the context [c], not
    connecting, no timeout armed, not deferred, not paused, not an IPC
    socket, with the half-open policy [half_open]. *)
Definition fresh_socket (c : nat) (half_open : bool) (x : us_socket_t) : Prop :=
  s_context x = c
  /\ connect_state x = None
  /\ timeout x = 255
  /\ long_timeout x = 255
  /\ flags x = mk_flags 0 half_open false false.

(** A collaborator called for the socket [s] leaves the low-priority
    state of every other socket alone. *)
Definition keeps_other_states {W} (f : state W -> state W) (s : nat) : Prop :=
  forall st y, y <> s ->
    low_prio_state (flags (sockets (f st) y)) = low_prio_state (flags (sockets st y)).

(** Every socket other than [s0] has the low-priority state it had. *)
Definition others_state {W} (s0 : nat) (st st' : state W) (t : list event) : Prop :=
  forall y, y <> s0 ->
    low_prio_state (flags (sockets st' y)) = low_prio_state (flags (sockets st y)).

(** A timeout handler that touches none of the loop's structures: it
    leaves the sockets, the contexts and the loop's data as they are. *)
Definition quiet_handler {W} (handler : nat -> state W -> state W) : Prop :=
  forall s st,
    sockets (handler s st) = sockets st
    /\ contexts (handler s st) = contexts st
    /\ data (handler s st) = data st.

(** Everything of a context but its iterator. *)
Definition ctx_shape (c : us_socket_context_t) : ptr * ptr * ptr * Z * Z * Z :=
  (c_next c, c_prev c, head_sockets c, global_tick c, timestamp c, long_timestamp c).

(** The loop's data and every context, its iterator apart, are as they
    were. *)
Definition keeps_shape {W} (st st' : state W) (t : list event) : Prop :=
  data st' = data st /\ forall c, ctx_shape (contexts st' c) = ctx_shape (contexts st c).

(** What the sweep emits for the context [c] whose sockets are [socks c],
    read off the state [st]: the tick of the context advances and gives
    the two stamps its sockets are compared with. *)
Definition context_fires {W} (E : env W) (st : state W) (socks : nat -> list nat) (c : nat)
  : list event :=
  let tick := (global_tick (contexts st c) + 1) mod 2 ^ 32 in
  flat_map (sweep_fires E c (tick mod 240) ((tick / 15) mod 240) st) (socks c).

(** * Properties *)

(** ** Running the monad *)

Arguments bind : simpl never.
Arguments ret : simpl never.
Arguments gets : simpl never.
Arguments modify : simpl never.
Arguments emit : simpl never.
Arguments call : simpl never.
Arguments call_ : simpl never.
Arguments stuck : simpl never.

Ltac unfold_monad :=
  unfold bind, ret, gets, modify, emit, call, call_, stuck,
         result_of, state_of, trace_of in *.

Lemma run_bind {W A B} (m : M W A) (k : A -> M W B) (st : state W) :
  bind m k st =
  match m st with
  | (Done a, st1, t1) => (result_of (k a st1), state_of (k a st1), t1 ++ trace_of (k a st1))
  | (Stuck why, st1, t1) => (Stuck why, st1, t1)
  end.
Proof.
  unfold bind, result_of, state_of, trace_of.
  destruct (m st) as [[[a | why] st1] t1]; [ | reflexivity ].
  destruct (k a st1) as [[r st2] t2]; reflexivity.
Qed.

Lemma run_ret_bind {W A B} (a : A) (k : A -> M W B) st : bind (ret a) k st = k a st.
Proof. unfold bind, ret. destruct (k a st) as [[r st2] t2]; reflexivity. Qed.

Lemma run_gets_bind {W A B} (f : state W -> A) (k : A -> M W B) st :
  bind (gets f) k st = k (f st) st.
Proof. unfold bind, gets. destruct (k (f st) st) as [[r st2] t2]; reflexivity. Qed.

Lemma run_modify_bind {W B} (f : state W -> state W) (k : unit -> M W B) st :
  bind (modify f) k st = k tt (f st).
Proof. unfold bind, modify. destruct (k tt (f st)) as [[r st2] t2]; reflexivity. Qed.

Lemma run_emit_bind {W B} (e : event) (k : unit -> M W B) (st : state W) :
  bind (emit e) k st = (result_of (k tt st), state_of (k tt st), e :: trace_of (k tt st)).
Proof. unfold bind, emit. destruct (k tt st) as [[r st2] t2]; reflexivity. Qed.

Lemma run_call_bind {W A B} (mk : state W -> A -> event) (f : state W -> A * state W)
      (k : A -> M W B) st :
  bind (call mk f) k st =
  (result_of (k (fst (f st)) (snd (f st))), state_of (k (fst (f st)) (snd (f st))),
   mk st (fst (f st)) :: trace_of (k (fst (f st)) (snd (f st)))).
Proof.
  unfold bind, call. destruct (f st) as [a st1]. simpl.
  destruct (k a st1) as [[r st2] t2]; reflexivity.
Qed.

Lemma run_call__bind {W B} (mk : state W -> event) (f : state W -> state W)
      (k : unit -> M W B) st :
  bind (call_ mk f) k st =
  (result_of (k tt (f st)), state_of (k tt (f st)), mk st :: trace_of (k tt (f st))).
Proof. unfold bind, call_. destruct (k tt (f st)) as [[r st2] t2]; reflexivity. Qed.

Lemma run_stuck_bind {W A B} why (k : A -> M W B) (st : state W) :
  bind (stuck why) k st = (Stuck why, st, []).
Proof. reflexivity. Qed.

Lemma triple_eta {W A} (r : outcome A * state W * list event) :
  r = (result_of r, state_of r, trace_of r).
Proof. destruct r as [[a b] c]; reflexivity. Qed.

Arguments prefixed : simpl never.

Lemma result_of_prefixed {W A} t (r : outcome A * state W * list event) :
  result_of (prefixed t r) = result_of r.
Proof. reflexivity. Qed.

Lemma state_of_prefixed {W A} t (r : outcome A * state W * list event) :
  state_of (prefixed t r) = state_of r.
Proof. reflexivity. Qed.

Lemma trace_of_prefixed {W A} t (r : outcome A * state W * list event) :
  trace_of (prefixed t r) = t ++ trace_of r.
Proof. reflexivity. Qed.

Lemma lin_emit_bind {W B} (e : event) (k : unit -> M W B) (st : state W) :
  bind (emit e) k st = prefixed [e] (k tt st).
Proof. apply run_emit_bind. Qed.

Lemma lin_call_bind {W A B} (mk : state W -> A -> event) (f : state W -> A * state W)
      (k : A -> M W B) st :
  bind (call mk f) k st = prefixed [mk st (fst (f st))] (k (fst (f st)) (snd (f st))).
Proof. apply run_call_bind. Qed.

Lemma lin_call__bind {W B} (mk : state W -> event) (f : state W -> state W)
      (k : unit -> M W B) st :
  bind (call_ mk f) k st = prefixed [mk st] (k tt (f st)).
Proof. apply run_call__bind. Qed.

Lemma lin_bind {W A B} (m : M W A) (k : A -> M W B) (st : state W) :
  bind m k st =
  match result_of (m st) with
  | Done a => prefixed (trace_of (m st)) (k a (state_of (m st)))
  | Stuck why => (Stuck why, state_of (m st), trace_of (m st))
  end.
Proof.
  rewrite run_bind. destruct (m st) as [[[a | why] st1] t1]; reflexivity.
Qed.

(** Stepping through straight-line code without copying the rest of the
    program at every step. *)
Ltac step_lin :=
  repeat first
    [ rewrite run_ret_bind
    | rewrite run_gets_bind
    | rewrite run_modify_bind
    | rewrite lin_emit_bind
    | rewrite lin_call_bind
    | rewrite lin_call__bind
    | rewrite run_stuck_bind ].

Ltac open_prefixed :=
  rewrite ?result_of_prefixed, ?state_of_prefixed, ?trace_of_prefixed.

Ltac step_run :=
  repeat first
    [ rewrite run_ret_bind
    | rewrite run_gets_bind
    | rewrite run_modify_bind
    | rewrite run_emit_bind
    | rewrite run_call_bind
    | rewrite run_call__bind
    | rewrite run_stuck_bind ].

Lemma upd_same {A} (f : nat -> A) k v : upd f k v k = v.
Proof. unfold upd. now rewrite Nat.eqb_refl. Qed.

Lemma upd_other {A} (f : nat -> A) k v k' : k' <> k -> upd f k v k' = f k'.
Proof. unfold upd. intros H. apply Nat.eqb_neq in H. now rewrite H. Qed.

Lemma weight_app w t1 t2 : weight w (t1 ++ t2) = weight w t1 + weight w t2.
Proof. induction t1 as [ | e t1 IH]; simpl; [ reflexivity | rewrite IH; lia ]. Qed.

Lemma resolved_app t1 t2 : resolved (t1 ++ t2) = resolved t1 ++ resolved t2.
Proof. unfold resolved. apply flat_map_app. Qed.

(** ** Chains *)

Lemma chain_agree next next' l :
  forall h, (forall x, In x l -> next' x = next x) -> chain next h l -> chain next' h l.
Proof.
  induction l as [ | x l IH]; simpl; intros h Hag Hc; [ exact Hc | ].
  destruct Hc as [Hh Hc]. split; [ exact Hh | ].
  rewrite (Hag x (or_introl eq_refl)). apply IH; [ | exact Hc ].
  intros y Hy. apply Hag. now right.
Qed.

(** ** The DNS hand-off list *)
Section DnsFacts.
Context {W : Type} (E : env W).

Hypothesis resolve_frame : forall c c' st,
    c' <> c -> conn_next (us_internal_socket_after_resolve E c st) c' = conn_next st c'.

Lemma drain_follows_chain l :
  forall fuel h st,
    chain (conn_next st) h l -> NoDup l -> (length l <= fuel)%nat ->
    result_of (us_internal_drain_pending_dns_resolve E fuel h st) = Done tt
    /\ trace_of (us_internal_drain_pending_dns_resolve E fuel h st) = map EvAfterResolve l.
Proof.
  induction l as [ | x l IH]; simpl; intros fuel h st Hc Hnd Hfuel.
  - subst h. destruct fuel; split; reflexivity.
  - destruct Hc as [-> Hc]. destruct fuel as [ | fuel]; [ simpl in Hfuel; lia | ].
    inversion Hnd as [ | ? ? Hnotin Hnd']; subst.
    specialize (IH fuel (conn_next st x) (us_internal_socket_after_resolve E x st)).
    destruct IH as [IHr IHt].
    + apply chain_agree with (next := conn_next st); [ | exact Hc ].
      intros y Hy. apply resolve_frame. intros ->. contradiction.
    + exact Hnd'.
    + simpl in Hfuel. lia.
    + simpl. unfold_monad. fold (conn_next st x).
      destruct (us_internal_drain_pending_dns_resolve E fuel (conn_next st x)
                  (us_internal_socket_after_resolve E x st)) as [[r st2] t2].
      simpl in *. subst. split; reflexivity.
Qed.

Hypothesis wakeup_next : forall c st,
    conn_next (us_internal_async_wakeup E st) c = conn_next st c.
Hypothesis wakeup_head : forall st,
    dns_ready_head (data (us_internal_async_wakeup E st)) = dns_ready_head (data st).

Lemma dns_push_links p st :
  result_of (dns_push E p st) = Done tt
  /\ resolved (trace_of (dns_push E p st)) = []
  /\ dns_ready_head (data (state_of (dns_push E p st))) = Some (pushed_socket p)
  /\ conn_next (state_of (dns_push E p st)) (pushed_socket p) = dns_ready_head (data st)
  /\ forall c, c <> pushed_socket p ->
               conn_next (state_of (dns_push E p st)) c = conn_next st c.
Proof.
  destruct p as [[c req] [ | ]]; unfold pushed_socket; simpl.
  - unfold us_internal_dns_callback_threadsafe, us_internal_dns_callback, us_wakeup_loop.
    unfold_monad. simpl. repeat split.
    + rewrite wakeup_head. reflexivity.
    + rewrite wakeup_next. unfold conn_next. simpl. now rewrite !upd_same.
    + intros c' Hc'. rewrite wakeup_next. unfold conn_next. simpl.
      now rewrite !upd_other by exact Hc'.
  - unfold us_internal_dns_callback. unfold_monad. simpl. repeat split.
    + unfold conn_next. simpl. now rewrite !upd_same.
    + intros c' Hc'. unfold conn_next. simpl. now rewrite !upd_other by exact Hc'.
Qed.

Lemma dns_push_all_chain ps :
  forall st l0,
    chain (conn_next st) (dns_ready_head (data st)) l0 ->
    NoDup (map pushed_socket ps ++ l0) ->
    result_of (dns_push_all E ps st) = Done tt
    /\ resolved (trace_of (dns_push_all E ps st)) = []
    /\ chain (conn_next (state_of (dns_push_all E ps st)))
             (dns_ready_head (data (state_of (dns_push_all E ps st))))
             (rev (map pushed_socket ps) ++ l0).
Proof.
  induction ps as [ | p ps IH]; simpl; intros st l0 Hc Hnd.
  - repeat split. exact Hc.
  - inversion Hnd as [ | ? ? Hnotin Hnd']; subst.
    destruct (dns_push_links p st) as (Hr & Ht & Hh & Hn & Hother).
    rewrite run_bind.
    destruct (dns_push E p st) as [[r st1] t1] eqn:Hrun.
    unfold result_of, state_of, trace_of in Hr, Ht, Hh, Hn, Hother. simpl in *. subst r.
    specialize (IH st1 (pushed_socket p :: l0)).
    destruct IH as (IHr & IHt & IHc).
    + simpl. split; [ exact Hh | ]. rewrite Hn.
      apply chain_agree with (next := conn_next st); [ | exact Hc ].
      intros y Hy. apply Hother. intros ->. apply Hnotin. apply in_or_app. now right.
    + apply NoDup_cons_iff in Hnd. destruct Hnd as [Hni Hnd].
      clear - Hni Hnd.
      assert (Hperm : forall a (l1 l2 : list nat),
                 ~ In a (l1 ++ l2) -> NoDup (l1 ++ l2) -> NoDup (l1 ++ a :: l2)).
      { intros a l1. induction l1 as [ | b l1 IHl]; simpl; intros l2 Ha Hn.
        - constructor; assumption.
        - inversion Hn; subst. constructor.
          + rewrite in_app_iff in *. simpl. intros [H | [H | H]]; subst; tauto.
          + apply IHl; [ tauto | assumption ]. }
      apply Hperm; assumption.
    + unfold result_of, state_of, trace_of in *. simpl.
      repeat split; [ exact IHr | | ].
      * rewrite resolved_app, Ht, IHt. reflexivity.
      * rewrite <- app_assoc. simpl. exact IHc.
Qed.
End DnsFacts.

Lemma resolved_after_resolve l : resolved (map EvAfterResolve l) = l.
Proof. induction l as [ | y l IH]; simpl; [ reflexivity | now rewrite IH ]. Qed.

(** C1 (as the code has it).  Connecting sockets pushed onto an empty
    DNS-ready list through us_internal_dns_callback or
    us_internal_dns_callback_threadsafe, each socket once, are handed to
    us_internal_socket_after_resolve by us_internal_handle_dns_results in
    LIFO order: the reverse of the order in which they were pushed.  The
    resolve step may rewrite the [next] field of the socket it is given
    (it is read before the call), not those of the others; the wake-up
    leaves the list alone. *)
Theorem dns_results_delivered_lifo {W} (E : env W)
        (ps : list (nat * Z * bool)) (fuel : nat) (st : state W) :
  (forall c c' st, c' <> c ->
     conn_next (us_internal_socket_after_resolve E c st) c' = conn_next st c') ->
  (forall c st, conn_next (us_internal_async_wakeup E st) c = conn_next st c) ->
  (forall st, dns_ready_head (data (us_internal_async_wakeup E st)) = dns_ready_head (data st)) ->
  dns_ready_head (data st) = None ->
  NoDup (map pushed_socket ps) ->
  (length ps <= fuel)%nat ->
  result_of (dns_push_all E ps st) = Done tt
  /\ resolved (trace_of (dns_push_all E ps st)) = []
  /\ result_of (us_internal_handle_dns_results E fuel (state_of (dns_push_all E ps st)))
     = Done (match ps with [] => false | _ => true end)
  /\ resolved (trace_of (us_internal_handle_dns_results E fuel
                           (state_of (dns_push_all E ps st))))
     = rev (map pushed_socket ps).
Proof.
  intros Hres Hwn Hwh Hempty Hnd Hfuel.
  destruct (dns_push_all_chain E Hwn Hwh ps st []) as (Hr & Ht & Hc).
  - simpl. exact Hempty.
  - rewrite app_nil_r. exact Hnd.
  - rewrite app_nil_r in Hc.
    split; [ exact Hr | split; [ exact Ht | ] ].
    set (st1 := state_of (dns_push_all E ps st)) in *.
    destruct (drain_follows_chain E Hres (rev (map pushed_socket ps)) fuel
                (dns_ready_head (data st1))
                (with_data (data_set_dns_ready_head None) st1)) as [Hdr Hdt].
    + exact Hc.
    + apply NoDup_rev. exact Hnd.
    + rewrite length_rev, length_map. exact Hfuel.
    + unfold us_internal_handle_dns_results. unfold_monad.
      destruct (us_internal_drain_pending_dns_resolve E fuel (dns_ready_head (data st1))
                  (with_data (data_set_dns_ready_head None) st1)) as [[r st2] t2].
      simpl in *. subst r t2. split.
      * f_equal. destruct ps as [ | p ps']; simpl in Hc.
        -- rewrite Hc. reflexivity.
        -- destruct (rev (map pushed_socket ps') ++ [pushed_socket p]) as [ | y l] eqn:Hl.
           ++ destruct (rev (map pushed_socket ps')); discriminate.
           ++ destruct Hc as [-> _]. reflexivity.
      * rewrite app_nil_r. simpl. apply resolved_after_resolve.
Qed.

Lemma dns_results_delivered_lifo_witness :
  resolved (trace_of (us_internal_handle_dns_results sim 2
     (state_of (dns_push_all sim [(1%nat, 10, false); (2%nat, 20, true)]
                             (sim_state0 sim_world0)))))
  = [2%nat; 1%nat].
Proof.
  refine (proj2 (proj2 (proj2
    (dns_results_delivered_lifo sim [(1%nat, 10, false); (2%nat, 20, true)] 2
       (sim_state0 sim_world0) _ _ _ _ _ _)))).
  - intros; reflexivity.
  - intros; reflexivity.
  - intros; reflexivity.
  - reflexivity.
  - simpl. repeat constructor; simpl; intuition discriminate.
  - simpl. lia.
Defined.

(** C1 as stated fails: two sockets pushed in the order 1, 2 are resolved
    in the order 2, 1, not in the order of their arrival. *)
Lemma dns_results_fifo_counterexample :
  resolved (trace_of (us_internal_handle_dns_results sim 2
     (state_of (dns_push_all sim [(1%nat, 10, false); (2%nat, 20, true)]
                             (sim_state0 sim_world0)))))
  <> map pushed_socket [(1%nat, 10, false); (2%nat, 20, true)].
Proof. vm_compute. discriminate. Qed.

(** ** Relations kept along a run *)
Section Respects.
Context {W : Type}.
Variable R : state W -> state W -> list event -> Prop.
Hypothesis R_refl : forall st, R st st [].
Hypothesis R_trans : forall a b c t1 t2, R a b t1 -> R b c t2 -> R a c (t1 ++ t2).

Lemma respects_ret {A} (a : A) : respects R (ret a).
Proof. intros st. apply R_refl. Qed.

Lemma respects_stuck {A} why : respects R (@stuck W A why).
Proof. intros st. apply R_refl. Qed.

Lemma respects_gets {A} (f : state W -> A) : respects R (gets f).
Proof. intros st. apply R_refl. Qed.

Lemma respects_modify (f : state W -> state W) :
  (forall st, R st (f st) []) -> respects R (modify f).
Proof. intros H st. apply H. Qed.

Lemma respects_emit e : (forall st, R st st [e]) -> respects R (emit e).
Proof. intros H st. apply H. Qed.

Lemma respects_call {A} (mk : state W -> A -> event) (f : state W -> A * state W) :
  (forall st, R st (snd (f st)) [mk st (fst (f st))]) -> respects R (call mk f).
Proof.
  intros H st. specialize (H st). unfold call, state_of, trace_of.
  destruct (f st) as [a st1]. exact H.
Qed.

Lemma respects_call_ (mk : state W -> event) (f : state W -> state W) :
  (forall st, R st (f st) [mk st]) -> respects R (call_ mk f).
Proof. intros H st. apply H. Qed.

Lemma respects_bind {A B} (m : M W A) (k : A -> M W B) :
  respects R m -> (forall a, respects R (k a)) -> respects R (bind m k).
Proof.
  intros Hm Hk st. specialize (Hm st). rewrite run_bind.
  destruct (m st) as [[[a | why] st1] t1]; unfold state_of, trace_of in *; simpl in *.
  - eapply R_trans; [ exact Hm | apply Hk ].
  - exact Hm.
Qed.

(** A continuation that depends on a value read from the state. *)
Lemma respects_gets_bind {A B} (f : state W -> A) (k : A -> M W B) :
  (forall st, R st (state_of (k (f st) st)) (trace_of (k (f st) st))) ->
  respects R (bind (gets f) k).
Proof.
  intros H st. specialize (H st). rewrite run_bind. unfold gets. simpl. exact H.
Qed.
End Respects.

Lemma budget_rel_refl {W} w (st : state W) : budget_rel w st st [].
Proof. unfold budget_rel. simpl. split; lia. Qed.

Lemma budget_rel_trans {W} w (a b c : state W) t1 t2 :
  budget_rel w a b t1 -> budget_rel w b c t2 -> budget_rel w a c (t1 ++ t2).
Proof. unfold budget_rel. rewrite weight_app. intros [H1 H2] [H3 H4]. split; lia. Qed.

Lemma budget_rel_frame {W} w (st st' : state W) t :
  budget_of st' = budget_of st -> weight w t = 0 -> budget_rel w st st' t.
Proof. unfold budget_rel. intros -> ->. split; lia. Qed.


(** ** The promotion loop and the budget *)
Section PromotionFacts.
Context {W : Type} (E : env W) (w : event -> Z).
Hypothesis w_promotion : forall s, w (EvLowPrioState s 2) = 1.
Hypothesis w_other : forall e, is_admission e = 0 -> w e = 0.

Hypothesis link_keeps : forall c s st,
    budget_of (us_internal_socket_context_link_socket E c s st) = budget_of st.
Hypothesis change_keeps : forall p ev st,
    budget_of (us_poll_change E p ev st) = budget_of st.

Lemma low_prio_promote_run s st :
  result_of (low_prio_promote E s st) = Done tt
  /\ budget_of (state_of (low_prio_promote E s st)) = budget_of st
  /\ weight w (trace_of (low_prio_promote E s st)) = 1.
Proof.
  unfold low_prio_promote. step_run.
  destruct (s_next (sockets st s)) as [n | ]; step_run;
    unfold emit, result_of, state_of, trace_of; simpl;
    (split; [ reflexivity | split ]);
    try (unfold budget_of in *; simpl; rewrite change_keeps, link_keeps; reflexivity);
    rewrite w_promotion, !w_other by reflexivity; reflexivity.
Qed.

Lemma low_prio_loop_step fuel st :
  low_prio_loop E (S fuel) st =
  match low_prio_head (data st) with
  | None => (Done tt, st, [])
  | Some s0 =>
      if low_prio_budget (data st) >? 0 then
        bind (low_prio_promote E s0)
             (fun _ => bind (modify (fun st => with_data (data_set_low_prio_budget
                                                  (low_prio_budget (data st) - 1)) st))
                            (fun _ => low_prio_loop E fuel)) st
      else (Done tt, st, [])
  end.
Proof.
  cbn [low_prio_loop]. step_run.
  destruct (low_prio_head (data st)); [ | reflexivity ].
  destruct (low_prio_budget (data st) >? 0); reflexivity.
Qed.

Lemma low_prio_loop_zero st :
  low_prio_loop E 0 st =
  match low_prio_head (data st) with
  | None => (Done tt, st, [])
  | Some s0 =>
      if low_prio_budget (data st) >? 0 then (Stuck OutOfFuel, st, [])
      else (Done tt, st, [])
  end.
Proof.
  cbn [low_prio_loop]. step_run.
  destruct (low_prio_head (data st)); [ | reflexivity ].
  destruct (low_prio_budget (data st) >? 0); reflexivity.
Qed.

(** One turn of the loop: a promotion followed by the decrement. *)
Lemma low_prio_turn_run {A} s0 (k : M W A) st :
  exists st1 t1,
    bind (low_prio_promote E s0)
         (fun _ => bind (modify (fun st => with_data (data_set_low_prio_budget
                                              (low_prio_budget (data st) - 1)) st))
                        (fun _ => k)) st
    = (result_of (k st1), state_of (k st1), t1 ++ trace_of (k st1))
    /\ budget_of st1 = budget_of st - 1 /\ weight w t1 = 1.
Proof.
  destruct (low_prio_promote_run s0 st) as (Hr & Hbud & Hw).
  rewrite run_bind.
  destruct (low_prio_promote E s0 st) as [[r st1] t1].
  unfold result_of, state_of, trace_of in Hr, Hbud, Hw. simpl in Hr, Hbud, Hw. subst r.
  rewrite run_modify_bind.
  eexists. exists t1. split; [ reflexivity | ].
  split; [ | exact Hw ]. unfold budget_of in *. simpl. lia.
Qed.

Lemma low_prio_loop_budget fuel : respects (budget_rel w) (low_prio_loop E fuel).
Proof.
  induction fuel as [ | fuel IH]; intros st.
  - rewrite low_prio_loop_zero.
    destruct (low_prio_head (data st)); [ | apply budget_rel_refl ].
    destruct (low_prio_budget (data st) >? 0); apply budget_rel_refl.
  - rewrite low_prio_loop_step.
    destruct (low_prio_head (data st)) as [s0 | ]; [ | apply budget_rel_refl ].
    destruct (low_prio_budget (data st) >? 0) eqn:Hb; [ | apply budget_rel_refl ].
    apply Z.gtb_lt in Hb.
    destruct (low_prio_turn_run s0 (low_prio_loop E fuel) st) as (st1 & t1 & -> & Hbud & Hw).
    specialize (IH st1). unfold state_of, trace_of in *. simpl.
    unfold budget_rel in *. rewrite weight_app.
    unfold budget_of in *. lia.
Qed.

Lemma low_prio_loop_terminates fuel :
  forall st, budget_of st <= Z.of_nat fuel ->
             result_of (low_prio_loop E fuel st) = Done tt.
Proof.
  induction fuel as [ | fuel IH]; intros st Hle.
  - rewrite low_prio_loop_zero. unfold budget_of in Hle.
    destruct (low_prio_head (data st)); [ | reflexivity ].
    destruct (low_prio_budget (data st) >? 0) eqn:Hb; [ | reflexivity ].
    apply Z.gtb_lt in Hb. simpl in Hle. lia.
  - rewrite low_prio_loop_step.
    destruct (low_prio_head (data st)) as [s0 | ]; [ | reflexivity ].
    destruct (low_prio_budget (data st) >? 0) eqn:Hb; [ | reflexivity ].
    destruct (low_prio_turn_run s0 (low_prio_loop E fuel) st) as (st1 & t1 & -> & Hbud & Hw).
    unfold result_of at 1. simpl. apply IH. lia.
Qed.

(** After the reset the budget and the promotions add up to the cap. *)
Lemma handle_low_priority_budget fuel st :
  budget_of (state_of (us_internal_handle_low_priority_sockets E fuel st))
  + weight w (trace_of (us_internal_handle_low_priority_sockets E fuel st))
  = MAX_LOW_PRIO_SOCKETS_PER_LOOP_ITERATION
  /\ 0 <= budget_of (state_of (us_internal_handle_low_priority_sockets E fuel st)).
Proof.
  unfold us_internal_handle_low_priority_sockets. rewrite run_modify_bind.
  set (st1 := with_data _ st).
  pose proof (low_prio_loop_budget fuel st1) as [H1 H2].
  assert (Hst1 : budget_of st1 = MAX_LOW_PRIO_SOCKETS_PER_LOOP_ITERATION) by reflexivity.
  rewrite Hst1 in *. unfold MAX_LOW_PRIO_SOCKETS_PER_LOOP_ITERATION in *. split; lia.
Qed.

Lemma handle_low_priority_terminates fuel st :
  (5 <= fuel)%nat ->
  result_of (us_internal_handle_low_priority_sockets E fuel st) = Done tt.
Proof.
  intros Hfuel.
  unfold us_internal_handle_low_priority_sockets. rewrite run_modify_bind.
  set (st1 := with_data _ st).
  apply low_prio_loop_terminates. change (budget_of st1) with 5. lia.
Qed.
End PromotionFacts.

Lemma weight_nonneg w (Hw : forall e, 0 <= w e) t : 0 <= weight w t.
Proof. induction t as [ | e t IH]; simpl; [ lia | specialize (Hw e); lia ]. Qed.

Lemma is_promotion_nonneg e : 0 <= is_promotion e.
Proof.
  destruct e; simpl; try lia.
  destruct v as [ | [ [ | | ] | [ | | ] | ] | ]; lia.
Qed.

Lemma is_budget_admission_nonneg e : 0 <= is_budget_admission e.
Proof. destruct e; simpl; lia. Qed.

Lemma is_promotion_other e : is_admission e = 0 -> is_promotion e = 0.
Proof.
  unfold is_admission. pose proof (is_promotion_nonneg e).
  pose proof (is_budget_admission_nonneg e). lia.
Qed.

Lemma weight_is_admission t : weight is_admission t = promotions t + budget_admissions t.
Proof.
  unfold promotions, budget_admissions.
  induction t as [ | e t IH]; simpl; [ reflexivity | unfold is_admission at 1; lia ].
Qed.

Lemma silent_refl {W} w (st : state W) : silent w st st [].
Proof. reflexivity. Qed.

Lemma silent_trans {W} w (a b c : state W) t1 t2 :
  silent w a b t1 -> silent w b c t2 -> silent w a c (t1 ++ t2).
Proof. unfold silent. rewrite weight_app. lia. Qed.

(** A driver for [respects] goals: [refl] and [trans] close the side
    conditions of the relation, [leaf] the goals left by single steps. *)
Ltac respects_auto refl trans leaf :=
  repeat first
    [ assumption
    | match goal with H : _ |- respects _ _ => simple apply H end
    | apply respects_ret; refl
    | apply respects_stuck; refl
    | apply respects_gets; refl
    | apply respects_modify; leaf
    | apply respects_emit; leaf
    | apply respects_call; leaf
    | apply respects_call_; leaf
    | apply respects_bind; [ trans | | intros ? ]
    | match goal with
      | |- respects _ (if ?b then _ else _) => destruct b
      | |- respects _ (match ?x with _ => _ end) => destruct x eqn:?
      end ].

Ltac silent_auto w_other :=
  respects_auto ltac:(apply silent_refl) ltac:(apply silent_trans)
                ltac:(intros; unfold silent; simpl; rewrite ?w_other by reflexivity; reflexivity).

Section SilentHooks.
Context {W : Type} (E : env W) (w : event -> Z).
Hypothesis w_other : forall e, is_admission e = 0 -> w e = 0.

Lemma dns_drain_silent fuel :
  forall s, respects (silent w) (us_internal_drain_pending_dns_resolve E fuel s).
Proof.
  induction fuel as [ | fuel IH]; intros [c | ]; cbn [us_internal_drain_pending_dns_resolve];
    silent_auto w_other.
Qed.

Lemma dns_results_silent fuel : respects (silent w) (us_internal_handle_dns_results E fuel).
Proof.
  unfold us_internal_handle_dns_results. pose proof (dns_drain_silent fuel).
  silent_auto w_other.
Qed.
End SilentHooks.

(** C4.  us_internal_handle_low_priority_sockets moves at most 5 sockets
    from low-priority state 1 to state 2, whatever the length of the queue;
    it is the only place of the pre-hook that promotes, so the pre-hook of
    an iteration promotes at most 5.  The loop ends within 5 turns.  The
    two functions it calls leave the budget alone. *)
Theorem low_prio_promotions_at_most_five {W} (E : env W) (fuel : nat) (st : state W) :
  (forall c s st,
      budget_of (us_internal_socket_context_link_socket E c s st) = budget_of st) ->
  (forall p ev st, budget_of (us_poll_change E p ev st) = budget_of st) ->
  0 <= promotions (trace_of (us_internal_handle_low_priority_sockets E fuel st)) <= 5
  /\ 0 <= promotions (trace_of (us_internal_loop_pre E fuel st)) <= 5
  /\ ((5 <= fuel)%nat ->
      result_of (us_internal_handle_low_priority_sockets E fuel st) = Done tt).
Proof.
  intros Hlink Hchange.
  assert (Hhandle : forall st',
             0 <= promotions (trace_of (us_internal_handle_low_priority_sockets E fuel st'))
             <= 5).
  { intros st'.
    destruct (handle_low_priority_budget E is_promotion (fun _ => eq_refl)
                is_promotion_other Hlink Hchange fuel st') as [H1 H2].
    pose proof (weight_nonneg is_promotion is_promotion_nonneg
                  (trace_of (us_internal_handle_low_priority_sockets E fuel st'))).
    unfold promotions, MAX_LOW_PRIO_SOCKETS_PER_LOOP_ITERATION in *. lia. }
  split; [ apply Hhandle | split ].
  - unfold us_internal_loop_pre. rewrite run_modify_bind.
    set (st1 := with_data _ st).
    pose proof (dns_results_silent E is_promotion is_promotion_other fuel st1) as Hdns.
    rewrite run_bind.
    destruct (us_internal_handle_dns_results E fuel st1) as [[[b | why] st2] t2];
      unfold silent, trace_of in Hdns; simpl in Hdns.
    + rewrite run_bind. specialize (Hhandle st2).
      destruct (us_internal_handle_low_priority_sockets E fuel st2) as [[[u | why] st3] t3];
        unfold trace_of in *; simpl in *; unfold promotions in *;
        rewrite !weight_app; simpl; lia.
    + unfold trace_of, promotions. simpl. lia.
  - intros Hfuel.
    now apply (handle_low_priority_terminates E is_promotion (fun _ => eq_refl)
                 is_promotion_other Hlink Hchange).
Qed.

Lemma low_prio_promotions_at_most_five_witness :
  promotions (trace_of (us_internal_handle_low_priority_sockets sim 5 (sim_parked 7))) = 5
  /\ 0 <= promotions (trace_of (us_internal_handle_low_priority_sockets sim 5 (sim_parked 7)))
     <= 5
  /\ result_of (us_internal_handle_low_priority_sockets sim 5 (sim_parked 7)) = Done tt.
Proof.
  pose proof (low_prio_promotions_at_most_five sim 5 (sim_parked 7)
                (fun _ _ _ => eq_refl) (fun _ _ _ => eq_refl)) as (H1 & _ & H3).
  split; [ reflexivity | split; [ exact H1 | apply H3; lia ] ].
Defined.

(** C3 (as the code has it).  When us_internal_loop_pre has returned, the
    low-priority budget is MAX (5) less the number of sockets the pre-hook
    promoted from the low-priority queue, of which there are at most 5: the
    promotion loop pays for each promotion out of the budget it has just
    reset.  The budget is 5 at that moment only if nothing was promoted. *)
Theorem low_prio_budget_after_pre {W} (E : env W) (fuel : nat) (st : state W) :
  (forall c s st,
      budget_of (us_internal_socket_context_link_socket E c s st) = budget_of st) ->
  (forall p ev st, budget_of (us_poll_change E p ev st) = budget_of st) ->
  (forall st, budget_of (pre_cb E st) = budget_of st) ->
  result_of (us_internal_loop_pre E fuel st) = Done tt ->
  budget_of (state_of (us_internal_loop_pre E fuel st))
  = MAX_LOW_PRIO_SOCKETS_PER_LOOP_ITERATION - promotions (trace_of (us_internal_loop_pre E fuel st))
  /\ 0 <= promotions (trace_of (us_internal_loop_pre E fuel st)) <= 5.
Proof.
  intros Hlink Hchange Hpre.
  unfold us_internal_loop_pre. rewrite run_modify_bind.
  set (st1 := with_data _ st).
  pose proof (dns_results_silent E is_promotion is_promotion_other fuel st1) as Hdns.
  rewrite run_bind.
  destruct (us_internal_handle_dns_results E fuel st1) as [[[b | why] st2] t2];
    unfold silent, trace_of in Hdns; simpl in Hdns; [ | discriminate ].
  destruct (handle_low_priority_budget E is_promotion (fun _ => eq_refl)
              is_promotion_other Hlink Hchange fuel st2) as [H1 H2].
  pose proof (weight_nonneg is_promotion is_promotion_nonneg
                (trace_of (us_internal_handle_low_priority_sockets E fuel st2))) as H3.
  rewrite run_bind.
  destruct (us_internal_handle_low_priority_sockets E fuel st2) as [[[u | why] st3] t3];
    unfold result_of, state_of, trace_of in *; cbn [fst snd] in *; [ | discriminate ].
  intros _. unfold promotions, call_. cbn [fst snd]. rewrite !weight_app. cbn [weight].
  rewrite Hpre. change (is_promotion EvPreCb) with 0.
  unfold MAX_LOW_PRIO_SOCKETS_PER_LOOP_ITERATION in *. lia.
Qed.

Lemma low_prio_budget_after_pre_witness :
  budget_of (state_of (us_internal_loop_pre sim 5 (sim_parked 7)))
  = MAX_LOW_PRIO_SOCKETS_PER_LOOP_ITERATION
    - promotions (trace_of (us_internal_loop_pre sim 5 (sim_parked 7)))
  /\ 0 <= promotions (trace_of (us_internal_loop_pre sim 5 (sim_parked 7))) <= 5.
Proof.
  apply (low_prio_budget_after_pre sim 5 (sim_parked 7)).
  - intros; reflexivity.
  - intros; reflexivity.
  - intros; reflexivity.
  - reflexivity.
Defined.

(** C3 as stated fails: with one socket parked in the low-priority queue
    the pre-hook returns with a budget of 4. *)
Lemma low_prio_budget_after_pre_counterexample :
  result_of (us_internal_loop_pre sim 5 (sim_parked 1)) = Done tt
  /\ budget_of (state_of (us_internal_loop_pre sim 5 (sim_parked 1))) = 4
  /\ budget_of (state_of (us_internal_loop_pre sim 5 (sim_parked 1)))
     <> MAX_LOW_PRIO_SOCKETS_PER_LOOP_ITERATION.
Proof. split; [ reflexivity | split; [ reflexivity | vm_compute; discriminate ] ]. Qed.

(** ** The budget along the dispatch *)
Section DispatchBudget.
Context {W : Type} (E : env W).
Hypothesis KB : keeps_budget E.

Let R := @budget_rel W is_admission.

Ltac budget_leaf :=
  intros; apply budget_rel_frame;
  [ unfold budget_of;
    first [ reflexivity
          | apply (kb_poll_change E KB) | apply (kb_create_poll E KB)
          | apply (kb_poll_init E KB) | apply (kb_poll_start E KB)
          | apply (kb_accept_poll_event E KB) | apply (kb_accept_socket E KB)
          | apply (kb_socket_nodelay E KB) | apply (kb_recv E KB)
          | apply (kb_recvmsg E KB) | apply (kb_recvmmsg E KB)
          | apply (kb_socket_close E KB) | apply (kb_context_ref E KB)
          | apply (kb_link_socket E KB) | apply (kb_unlink_socket E KB)
          | apply (kb_after_open E KB) | apply (kb_udp_socket_close E KB)
          | apply (kb_pre_cb E KB) | apply (kb_cb E KB) | apply (kb_on_open E KB)
          | apply (kb_on_data E KB) | apply (kb_on_fd E KB)
          | apply (kb_on_writable E KB) | apply (kb_on_end E KB)
          | apply (kb_is_low_prio E KB) | apply (kb_udp_on_data E KB)
          | apply (kb_udp_on_drain E KB) ]
  | reflexivity ].

Ltac budget_auto :=
  respects_auto ltac:(apply budget_rel_refl) ltac:(apply budget_rel_trans)
                ltac:(budget_leaf).

Lemma dispatch_callback_budget p : respects R (dispatch_callback E p).
Proof. unfold dispatch_callback, R. budget_auto. Qed.

Lemma accept_one_budget l fd : respects R (accept_one E l fd).
Proof. unfold accept_one, R. budget_auto. Qed.

Lemma accept_loop_budget fuel : forall l fd, respects R (accept_loop E fuel l fd).
Proof.
  induction fuel as [ | fuel IH]; intros l fd; cbn [accept_loop]; unfold R in *.
  - budget_auto.
  - pose proof (accept_one_budget l fd). unfold R in *. budget_auto.
Qed.

Lemma dispatch_semi_socket_budget fuel p error eof :
  respects R (dispatch_semi_socket E fuel p error eof).
Proof.
  unfold dispatch_semi_socket. pose proof (accept_loop_budget fuel). unfold R in *.
  budget_auto.
Qed.

Lemma writable_phase_budget s error events : respects R (writable_phase E s error events).
Proof. unfold writable_phase, R. budget_auto. Qed.

Lemma low_prio_defer_budget c s : respects R (low_prio_defer E c s).
Proof. unfold low_prio_defer, R. budget_auto. Qed.

Lemma low_prio_admission_budget s : respects R (low_prio_admission E s).
Proof.
  unfold low_prio_admission, R.
  apply respects_bind; [ apply budget_rel_trans | budget_auto | intros context ].
  apply respects_bind; [ apply budget_rel_trans | budget_auto | intros [ | ] ];
    [ | budget_auto ].
  apply respects_bind; [ apply budget_rel_trans | budget_auto | intros lps ].
  destruct (lps =? 2); [ budget_auto | ].
  apply respects_gets_bind. intros st.
  destruct (low_prio_budget (data st) >? 0) eqn:Hb.
  - apply Z.gtb_lt in Hb. step_run. unfold ret, state_of, trace_of, budget_rel, budget_of.
    simpl. change (is_admission (EvLowPrioBudgetTaken s)) with 1. lia.
  - pose proof (low_prio_defer_budget context s). unfold R in *.
    assert (Hd : respects (budget_rel is_admission)
                          (low_prio_defer E context s ;; ret false)) by budget_auto.
    apply Hd.
Qed.

Lemma recv_once_budget s : respects R (recv_once E s).
Proof. unfold recv_once, R. budget_auto. Qed.

Lemma recv_loop_budget fuel :
  forall s error eof count, respects R (recv_loop E fuel s error eof count).
Proof.
  induction fuel as [ | fuel IH]; intros s error eof count; cbn [recv_loop]; unfold R in *.
  - budget_auto.
  - pose proof (recv_once_budget s). unfold R in *. budget_auto.
Qed.

Lemma readable_phase_budget fuel s error eof events :
  respects R (readable_phase E fuel s error eof events).
Proof.
  unfold readable_phase. pose proof (low_prio_admission_budget s).
  pose proof (recv_loop_budget fuel s error eof 0). unfold R in *. budget_auto.
Qed.

Lemma eof_phase_budget s : respects R (eof_phase E s).
Proof. unfold eof_phase, R. budget_auto. Qed.

Lemma error_phase_budget s error : respects R (error_phase E s error).
Proof. unfold error_phase, R. budget_auto. Qed.

Lemma eof_and_error_phases_budget s error eof :
  respects R (eof_and_error_phases E s error eof).
Proof.
  unfold eof_and_error_phases.
  pose proof eof_phase_budget. pose proof error_phase_budget.
  unfold R in *. budget_auto.
Qed.

Lemma dispatch_socket_budget fuel p error eof events :
  respects R (dispatch_socket E fuel p error eof events).
Proof.
  unfold dispatch_socket.
  pose proof (writable_phase_budget p error events).
  pose proof readable_phase_budget. pose proof eof_and_error_phases_budget.
  unfold R in *. budget_auto.
Qed.

Lemma udp_recv_loop_budget fuel : forall u error, respects R (udp_recv_loop E fuel u error).
Proof.
  induction fuel as [ | fuel IH]; intros u error; cbn [udp_recv_loop]; unfold R in *.
  - budget_auto.
  - budget_auto.
Qed.

Lemma dispatch_udp_budget fuel u error events : respects R (dispatch_udp E fuel u error events).
Proof.
  unfold dispatch_udp. pose proof (udp_recv_loop_budget fuel u error).
  unfold R in *. budget_auto.
Qed.

Lemma dispatch_ready_poll_budget fuel p error eof events :
  respects R (us_internal_dispatch_ready_poll E fuel p error eof events).
Proof.
  unfold us_internal_dispatch_ready_poll.
  pose proof (dispatch_callback_budget p).
  pose proof (dispatch_semi_socket_budget fuel p error eof).
  pose proof (dispatch_socket_budget fuel p error eof events).
  pose proof (dispatch_udp_budget fuel p error events).
  unfold R in *. budget_auto.
Qed.

Lemma dispatch_batch_budget fuel ready : respects R (dispatch_batch E fuel ready).
Proof.
  induction ready as [ | [[[p error] eof] events] rest IH]; cbn [dispatch_batch];
    unfold R in *.
  - budget_auto.
  - pose proof (dispatch_ready_poll_budget fuel p error eof events). unfold R in *.
    budget_auto.
Qed.
End DispatchBudget.

Section SilentPost.
Context {W : Type} (E : env W) (w : event -> Z).
Hypothesis w_other : forall e, is_admission e = 0 -> w e = 0.

Lemma free_chain_silent fuel next free :
  (forall x, respects (silent w) (free x)) ->
  forall s, respects (silent w) (free_chain (W := W) fuel next free s).
Proof.
  intros Hfree.
  induction fuel as [ | fuel IH]; intros [x | ]; cbn [free_chain];
    silent_auto w_other.
Qed.

Lemma loop_post_silent fuel : respects (silent w) (us_internal_loop_post E fuel).
Proof.
  unfold us_internal_loop_post, us_internal_free_closed_sockets,
    us_internal_free_closed_contexts.
  pose proof (dns_results_silent E w w_other fuel).
  silent_auto w_other; apply free_chain_silent; intros; silent_auto w_other.
Qed.
End SilentPost.

Lemma is_admission_nonneg e : 0 <= is_admission e.
Proof.
  unfold is_admission. pose proof (is_promotion_nonneg e).
  pose proof (is_budget_admission_nonneg e). lia.
Qed.

(** The pre-hook: what it admits by promotion is paid out of the budget
    it leaves behind. *)
Lemma loop_pre_budget {W} (E : env W) (KB : keeps_budget E) fuel st :
  0 <= weight is_admission (trace_of (us_internal_loop_pre E fuel st)) <= 5
  /\ (result_of (us_internal_loop_pre E fuel st) = Done tt ->
      budget_of (state_of (us_internal_loop_pre E fuel st))
      + weight is_admission (trace_of (us_internal_loop_pre E fuel st)) = 5
      /\ 0 <= budget_of (state_of (us_internal_loop_pre E fuel st))).
Proof.
  unfold us_internal_loop_pre. rewrite run_modify_bind.
  set (st1 := with_data _ st).
  pose proof (dns_results_silent E is_admission (fun e H => H) fuel st1) as Hdns.
  rewrite run_bind.
  destruct (us_internal_handle_dns_results E fuel st1) as [[[b | why] st2] t2];
    unfold silent, trace_of in Hdns; cbn [fst snd] in Hdns.
  - destruct (handle_low_priority_budget E is_admission (fun _ => eq_refl) (fun e H => H)
                (kb_link_socket E KB) (kb_poll_change E KB) fuel st2) as [H1 H2].
    pose proof (weight_nonneg is_admission is_admission_nonneg
                  (trace_of (us_internal_handle_low_priority_sockets E fuel st2))) as H3.
    rewrite run_bind.
    destruct (us_internal_handle_low_priority_sockets E fuel st2) as [[[u | why] st3] t3];
      unfold result_of, state_of, trace_of, call_ in *; cbn [fst snd] in *;
      rewrite !weight_app; cbn [weight];
      unfold MAX_LOW_PRIO_SOCKETS_PER_LOOP_ITERATION in *.
    + change (is_admission EvPreCb) with 0.
      pose proof (kb_pre_cb E KB st3) as Hpre. unfold budget_of in *. split; [ lia | ].
      intros _. rewrite Hpre. lia.
    + split; [ lia | discriminate ].
  - unfold result_of, trace_of. cbn [fst snd]. split; [ lia | discriminate ].
Qed.

(** C10 (as the code has it).  In one loop iteration the number of
    sockets promoted by the pre-hook of that iteration plus the number of
    sockets admitted during the dispatch by taking a unit of the budget is
    at most 5, because each promotion is paid out of the budget the
    dispatch later draws on.  This holds of every run of the iteration,
    complete or not, for every batch of ready polls.  It is not a bound on
    the low-priority sockets admitted to the receive path: a socket in
    low_prio_state 2 is admitted without paying, also when it was promoted
    in an earlier iteration.  The collaborators and callbacks leave the
    budget alone. *)
Theorem low_prio_admissions_per_iteration {W} (E : env W) (fuel : nat)
        (ready : list (nat * Z * Z * Z)) (st : state W) :
  keeps_budget E ->
  0 <= promotions (trace_of (loop_iteration E fuel ready st))
  /\ 0 <= budget_admissions (trace_of (loop_iteration E fuel ready st))
  /\ promotions (trace_of (loop_iteration E fuel ready st))
     + budget_admissions (trace_of (loop_iteration E fuel ready st)) <= 5.
Proof.
  intros KB.
  split; [ apply (weight_nonneg is_promotion is_promotion_nonneg) | ].
  split; [ apply (weight_nonneg is_budget_admission is_budget_admission_nonneg) | ].
  rewrite <- weight_is_admission.
  unfold loop_iteration. rewrite run_bind.
  destruct (loop_pre_budget E KB fuel st) as [Hpre Hdone].
  destruct (us_internal_loop_pre E fuel st) as [[[u | why] st1] t1];
    unfold result_of, state_of, trace_of in Hpre, Hdone; cbn [fst snd] in Hpre, Hdone.
  - destruct u. destruct (Hdone eq_refl) as [Hsum Hnonneg].
    pose proof (dispatch_batch_budget E KB fuel ready st1) as [Hb1 Hb2].
    pose proof (weight_nonneg is_admission is_admission_nonneg
                  (trace_of (dispatch_batch E fuel ready st1))) as Hb3.
    rewrite run_bind.
    destruct (dispatch_batch E fuel ready st1) as [[[u2 | why] st2] t2];
      unfold state_of, trace_of in Hb1, Hb2, Hb3; cbn [fst snd] in Hb1, Hb2, Hb3.
    + pose proof (loop_post_silent E is_admission (fun e H => H) fuel st2) as Hpost.
      unfold silent in Hpost. unfold trace_of in *. cbn [fst snd].
      rewrite !weight_app. lia.
    + unfold trace_of. cbn [fst snd]. rewrite !weight_app. lia.
  - unfold trace_of. cbn [fst snd]. lia.
Qed.

Lemma sim_keeps_budget : keeps_budget sim.
Proof.
  constructor; intros; try reflexivity; simpl; unfold sim_pop, sim_close.
  - destruct (w_accept (world st)); reflexivity.
  - destruct (w_recv (world st)); reflexivity.
  - destruct (w_recv (world st)); reflexivity.
  - destruct (w_recv (world st)); reflexivity.
  - destruct s; reflexivity.
  - destruct (w_open_closes (world st)); reflexivity.
Qed.

Lemma low_prio_admissions_per_iteration_witness :
  let t := trace_of (loop_iteration sim 5
                       [(8%nat, 0, 0, 1); (9%nat, 0, 0, 1); (10%nat, 0, 0, 1);
                        (11%nat, 0, 0, 1); (1%nat, 0, 0, 1)]
                       (sim_parked 2)) in
  (promotions t = 2 /\ budget_admissions t = 3)
  /\ 0 <= promotions t /\ 0 <= budget_admissions t
  /\ promotions t + budget_admissions t <= 5.
Proof.
  split; [ split; reflexivity | ].
  apply (low_prio_admissions_per_iteration sim 5 _ (sim_parked 2) sim_keeps_budget).
Defined.

(** C10 as stated fails.  With ten sockets parked in the low-priority
    queue, an iteration in which none of them is reported ready promotes
    five of them, which stay in low_prio_state 2; the next iteration
    promotes the other five, and when all ten are readable in it, it takes
    no unit of the budget, defers none and admits all ten, each classified
    low-priority, to the receive path: ten receives are made in one
    iteration. *)
Lemma low_prio_admissions_counterexample :
  let ready := map (fun p : nat => (p, 0, 0, 1))
                   [1; 2; 3; 4; 5; 6; 7; 8; 9; 10]%nat in
  let earlier := loop_iteration sim 10 [] (sim_parked 10) in
  let r := loop_iteration sim 10 ready (state_of earlier) in
  result_of earlier = Done tt
  /\ promotions (trace_of earlier) = 5
  /\ receives (trace_of earlier) = 0
  /\ result_of r = Done tt
  /\ promotions (trace_of r) = 5
  /\ budget_admissions (trace_of r) = 0
  /\ weight (fun e => match e with EvIsLowPrio _ _ true => 1 | _ => 0 end) (trace_of r) = 10
  /\ weight (fun e => match e with EvIsLowPrio _ _ false => 1 | _ => 0 end) (trace_of r) = 0
  /\ weight (fun e => match e with EvLowPrioState _ 1 => 1 | _ => 0 end) (trace_of r) = 0
  /\ flat_map (fun e => match e with EvRecv fd _ => [fd] | _ => [] end) (trace_of r)
     = [1; 2; 3; 4; 5; 6; 7; 8; 9; 10]
  /\ receives (trace_of r) = 10
  /\ ~ receives (trace_of r) <= 5.
Proof.
  cbv zeta.
  assert (H : receives (trace_of (loop_iteration sim 10
                (map (fun p : nat => (p, 0, 0, 1)) [1; 2; 3; 4; 5; 6; 7; 8; 9; 10]%nat)
                (state_of (loop_iteration sim 10 [] (sim_parked 10))))) = 10)
    by (vm_compute; reflexivity).
  repeat split; try (vm_compute; reflexivity).
  rewrite H. lia.
Qed.

(** ** The timer sweep *)

Lemma all_events_refl {W} P (st : state W) : all_events P st st [].
Proof. constructor. Qed.

Lemma all_events_trans {W} P (a b c : state W) t1 t2 :
  all_events P a b t1 -> all_events P b c t2 -> all_events P a c (t1 ++ t2).
Proof. unfold all_events. intros H1 H2. apply Forall_app. now split. Qed.

Section SweepSentinel.
Context {W : Type} (E : env W).

Ltac disarmed_auto :=
  respects_auto ltac:(apply all_events_refl) ltac:(apply all_events_trans)
                ltac:(intros; unfold all_events; repeat constructor).

(** The write of the sentinel and the call of the handler, together. *)
Lemma disarm_short_then_call context s :
  respects (all_events entered_disarmed)
    (modify (with_socket s (sock_set_timeout 255)) ;;
     match on_socket_timeout E context with
     | Some handler =>
         call_ (fun st => EvOnSocketTimeout context s (timeout (sockets st s))) (handler s)
     | None => ret tt
     end).
Proof.
  intros st. rewrite run_modify_bind.
  destruct (on_socket_timeout E context) as [handler | ]; unfold call_, ret, all_events;
    simpl; repeat constructor.
  simpl. rewrite upd_same. reflexivity.
Qed.

Lemma disarm_long_then_call context s :
  respects (all_events entered_disarmed)
    (modify (with_socket s (sock_set_long_timeout 255)) ;;
     match on_socket_long_timeout E context with
     | Some handler =>
         call_ (fun st => EvOnSocketLongTimeout context s (long_timeout (sockets st s)))
               (handler s)
     | None => ret tt
     end).
Proof.
  intros st. rewrite run_modify_bind.
  destruct (on_socket_long_timeout E context) as [handler | ]; unfold call_, ret, all_events;
    simpl; repeat constructor.
  simpl. rewrite upd_same. reflexivity.
Qed.

Lemma sweep_seek_disarmed fuel :
  forall short long s, respects (all_events entered_disarmed) (sweep_seek (W := W) fuel short long s).
Proof.
  induction fuel as [ | fuel IH]; intros short long s; cbn [sweep_seek]; disarmed_auto.
Qed.

Lemma sweep_emit_disarmed context short long s :
  respects (all_events entered_disarmed) (sweep_emit E context short long s).
Proof.
  unfold sweep_emit.
  pose proof (disarm_short_then_call context s).
  pose proof (disarm_long_then_call context s).
  disarmed_auto.
Qed.

Lemma sweep_sockets_disarmed fuel :
  forall context short long s,
    respects (all_events entered_disarmed) (sweep_sockets E fuel context short long s).
Proof.
  pose proof sweep_emit_disarmed as Hemit.
  induction fuel as [ | fuel IH]; intros context short long [s | ]; cbn [sweep_sockets];
    try pose proof (sweep_seek_disarmed fuel short long s);
    disarmed_auto.
Qed.

Lemma sweep_context_disarmed fuel context :
  respects (all_events entered_disarmed) (sweep_context E fuel context).
Proof.
  unfold sweep_context. pose proof (sweep_sockets_disarmed fuel context). disarmed_auto.
Qed.

Lemma sweep_contexts_disarmed fuel :
  respects (all_events entered_disarmed) (sweep_contexts E fuel).
Proof.
  pose proof sweep_context_disarmed as Hctx.
  induction fuel as [ | fuel IH]; cbn [sweep_contexts]; disarmed_auto.
Qed.
End SweepSentinel.

(** C5.  Whenever the timer sweep calls on_socket_timeout for a socket,
    the socket's timeout field holds 255 in the state the handler is
    entered with, and whenever it calls on_socket_long_timeout the
    long_timeout field holds 255: the sweep stores the sentinel before the
    call.  This is so for every call of every run of the sweep, whatever
    the handlers do and whether or not the sweep comes to an end. *)
Theorem timer_sweep_disarms_before_callback {W} (E : env W) (fuel : nat) (st : state W) :
  Forall entered_disarmed (trace_of (us_internal_timer_sweep E fuel st)).
Proof.
  unfold us_internal_timer_sweep. rewrite run_modify_bind.
  apply (sweep_contexts_disarmed E fuel).
Qed.

(** A run of the sweep in which the handlers are called: both contexts
    advance, the short timeout of socket 1 and the long timeout of socket 2
    fire in context 0, the short timeout of socket 3 in context 1. *)
Example timer_sweep_run :
  result_of (us_internal_timer_sweep sim 5 sim_armed) = Done tt
  /\ trace_of (us_internal_timer_sweep sim 5 sim_armed)
     = [EvOnSocketTimeout 0 1 255; EvOnSocketLongTimeout 0 2 255; EvOnSocketTimeout 1 3 255].
Proof. split; vm_compute; reflexivity. Qed.

Lemma ctx_frame_refl {W} (st : state W) : ctx_frame st st [].
Proof. split; [ reflexivity | intros c; split; reflexivity ]. Qed.

Lemma ctx_frame_trans {W} (a b c : state W) t1 t2 :
  ctx_frame a b t1 -> ctx_frame b c t2 -> ctx_frame a c (t1 ++ t2).
Proof.
  intros [H1 H2] [H3 H4]. split; [ congruence | ].
  intros x. destruct (H2 x), (H4 x). split; congruence.
Qed.

Lemma sweep_advance_ticks_spec c :
  global_tick (sweep_advance_ticks c) = (global_tick c + 1) mod 2 ^ 32
  /\ timestamp (sweep_advance_ticks c) = global_tick (sweep_advance_ticks c) mod 240
  /\ long_timestamp (sweep_advance_ticks c) = (global_tick (sweep_advance_ticks c) / 15) mod 240
  /\ c_next (sweep_advance_ticks c) = c_next c
  /\ head_sockets (sweep_advance_ticks c) = head_sockets c.
Proof.
  unfold sweep_advance_ticks, ctx_set_ticks. cbn [global_tick timestamp long_timestamp c_next
                                                   head_sockets].
  set (tick := (global_tick c + 1) mod 2 ^ 32).
  repeat split.
  - apply Z.mod_small. pose proof (Z.mod_pos_bound tick 240). lia.
  - apply Z.mod_small. pose proof (Z.mod_pos_bound (tick / 15) 240). lia.
Qed.

Section SweepTicks.
Context {W : Type} (E : env W).

Hypothesis short_handler_frame : forall context handler,
    on_socket_timeout E context = Some handler ->
    forall s st, ctx_frame st (handler s st) [].
Hypothesis long_handler_frame : forall context handler,
    on_socket_long_timeout E context = Some handler ->
    forall s st, ctx_frame st (handler s st) [].

Lemma ctx_frame_iterator (st : state W) context v t :
  ctx_frame st (with_context context (ctx_set_iterator v) st) t.
Proof.
  split; [ reflexivity | ]. intros c. unfold ctx_next, ctx_ticks. simpl. unfold upd.
  destruct (Nat.eqb c context) eqn:Hc; [ | split; reflexivity ].
  apply Nat.eqb_eq in Hc. subst c. split; reflexivity.
Qed.

Ltac frame_leaf :=
  intros;
  first [ apply ctx_frame_iterator
        | match goal with
          | H : on_socket_timeout E _ = Some _ |- _ =>
              exact (short_handler_frame _ _ H _ _)
          | H : on_socket_long_timeout E _ = Some _ |- _ =>
              exact (long_handler_frame _ _ H _ _)
          end
        | (split; [ reflexivity | intros; split; reflexivity ]) ].

Ltac frame_auto :=
  respects_auto ltac:(apply ctx_frame_refl) ltac:(apply ctx_frame_trans) ltac:(frame_leaf).

Lemma sweep_seek_frame fuel :
  forall short long s, respects ctx_frame (sweep_seek (W := W) fuel short long s).
Proof.
  induction fuel as [ | fuel IH]; intros short long s; cbn [sweep_seek]; frame_auto.
Qed.

Lemma sweep_emit_frame context short long s :
  respects ctx_frame (sweep_emit E context short long s).
Proof. unfold sweep_emit. frame_auto. Qed.

Lemma sweep_sockets_frame fuel :
  forall context short long s,
    respects ctx_frame (sweep_sockets E fuel context short long s).
Proof.
  pose proof sweep_emit_frame as Hemit.
  induction fuel as [ | fuel IH]; intros context short long [s | ]; cbn [sweep_sockets];
    try pose proof (sweep_seek_frame fuel short long s);
    frame_auto.
Qed.

Lemma sweep_context_effect fuel context st :
  iterator (data (state_of (sweep_context E fuel context st))) = iterator (data st)
  /\ (forall c, ctx_next (state_of (sweep_context E fuel context st)) c = ctx_next st c)
  /\ ctx_ticks (state_of (sweep_context E fuel context st)) context
     = advanced_ticks (global_tick (contexts st context))
  /\ (forall c, c <> context ->
                ctx_ticks (state_of (sweep_context E fuel context st)) c = ctx_ticks st c).
Proof.
  unfold sweep_context. rewrite run_modify_bind. step_run.
  set (st1 := with_context context sweep_advance_ticks st).
  assert (H1 : iterator (data st1) = iterator (data st)) by reflexivity.
  assert (H2 : forall c, ctx_next st1 c = ctx_next st c).
  { intros c. unfold ctx_next, st1. simpl. unfold upd.
    destruct (Nat.eqb c context) eqn:Hc; [ | reflexivity ].
    apply Nat.eqb_eq in Hc. subst c. reflexivity. }
  assert (H3 : ctx_ticks st1 context = advanced_ticks (global_tick (contexts st context))).
  { unfold ctx_ticks, st1, advanced_ticks. simpl. rewrite upd_same.
    destruct (sweep_advance_ticks_spec (contexts st context)) as (Ha & Hb & Hc & _).
    rewrite Hb, Hc, Ha. reflexivity. }
  assert (H4 : forall c, c <> context -> ctx_ticks st1 c = ctx_ticks st c).
  { intros c Hc. unfold ctx_ticks, st1. simpl. now rewrite upd_other by exact Hc. }
  pose proof (sweep_sockets_frame fuel context (timestamp (contexts st1 context))
                (long_timestamp (contexts st1 context)) (head_sockets (contexts st1 context))
                st1) as [F1 F2].
  rewrite run_bind.
  destruct (sweep_sockets E fuel context (timestamp (contexts st1 context))
              (long_timestamp (contexts st1 context)) (head_sockets (contexts st1 context))
              st1) as [[[u | why] st2] t2];
    unfold state_of in *; cbn [fst snd] in *.
  - destruct (ctx_frame_iterator st2 context None []) as [G1 G2].
    unfold modify. cbn [fst snd].
    repeat split.
    + congruence.
    + intros c. destruct (G2 c), (F2 c). congruence.
    + destruct (G2 context), (F2 context). congruence.
    + intros c Hc. destruct (G2 c), (F2 c). rewrite <- (H4 c Hc). congruence.
  - repeat split.
    + congruence.
    + intros c. destruct (F2 c). congruence.
    + destruct (F2 context). congruence.
    + intros c Hc. destruct (F2 c). rewrite <- (H4 c Hc). congruence.
Qed.

Lemma sweep_contexts_ticks cl :
  forall fuel st,
    chain (ctx_next st) (iterator (data st)) cl -> NoDup cl ->
    result_of (sweep_contexts E fuel st) = Done tt ->
    (forall c, In c cl ->
               ctx_ticks (state_of (sweep_contexts E fuel st)) c
               = advanced_ticks (global_tick (contexts st c)))
    /\ (forall c, ~ In c cl ->
                  ctx_ticks (state_of (sweep_contexts E fuel st)) c = ctx_ticks st c).
Proof.
  induction cl as [ | x cl IH]; intros fuel st Hchain Hnd Hdone.
  - simpl in Hchain.
    destruct fuel; cbn [sweep_contexts]; rewrite run_gets_bind, Hchain;
      (split; [ intros c [] | intros c _; reflexivity ]).
  - destruct Hchain as [Hit Hchain]. inversion Hnd as [ | ? ? Hnotin Hnd']; subst.
    destruct fuel as [ | fuel]; cbn [sweep_contexts] in *; rewrite run_gets_bind, Hit in *;
      [ discriminate | ].
    destruct (sweep_context_effect fuel x st) as (E1 & E2 & E3 & E4).
    rewrite run_bind in *.
    destruct (sweep_context E fuel x st) as [[[u | why] st2] t2];
      unfold result_of, state_of in *; cbn [fst snd] in *; [ | discriminate ].
    rewrite run_gets_bind in *. rewrite E1, Hit in *. rewrite run_modify_bind in *.
    set (st3 := with_data (data_set_iterator (c_next (contexts st2 x))) st2) in *.
    specialize (IH fuel st3).
    destruct IH as [IHin IHout].
    + change (iterator (data st3)) with (ctx_next st2 x). rewrite E2.
      apply chain_agree with (next := ctx_next st); [ | exact Hchain ].
      intros y _. apply (E2 y).
    + exact Hnd'.
    + unfold result_of. exact Hdone.
    + unfold state_of in *. split.
      * intros c [-> | Hc].
        -- rewrite (IHout c Hnotin). exact E3.
        -- rewrite (IHin c Hc). f_equal.
           assert (Hcx : c <> x) by (intros ->; contradiction).
           pose proof (E4 c Hcx) as Ht. unfold ctx_ticks in Ht.
           change (contexts st3 c) with (contexts st2 c). congruence.
      * intros c Hc. simpl in Hc.
        rewrite (IHout c (fun H => Hc (or_intror H))).
        apply E4. intros ->. apply Hc. now left.
Qed.
End SweepTicks.

(** ** The accept loop *)

Lemma accept_one_run {W} (E : env W) l fd st :
  result_of (accept_one E l fd st) = Done tt
  /\ exists s c1 c2 ext,
      trace_of (accept_one E l fd st)
      = [EvCreatePoll ext s; EvPollInit s fd POLL_TYPE_SOCKET;
         EvPollStart s (LIBUS_SOCKET_READABLE E); EvLowPrioState s 0; EvNodelay fd;
         EvLinkSocket c1 s; EvOnOpen c2 s].
Proof.
  unfold accept_one, result_of, trace_of.
  cbv [bind gets modify emit call call_ ret].
  destruct (us_create_poll E (accepted_ext_size E (listen_socket_ext_size st l)) st)
    as [s st1].
  cbv beta iota. cbn [fst snd app].
  split; [ reflexivity | ]. do 4 eexists. reflexivity.
Qed.

(** C9.  In the accept loop of a readable listening socket, when the
    listening socket is closed once on_open has returned, the loop is left
    at once: the turn ends with the on_open call, no further accept is
    made and no further on_open fires, however many connections are still
    pending. *)
Theorem accept_loop_leaves_on_listen_close {W} (E : env W) (fuel : nat)
        (listen_socket : nat) (client_fd : Z) (st : state W) :
  us_socket_is_closed E (state_of (accept_one E listen_socket client_fd st)) listen_socket
  = true ->
  accept_loop E (S fuel) listen_socket client_fd st = accept_one E listen_socket client_fd st
  /\ result_of (accept_loop E (S fuel) listen_socket client_fd st) = Done tt
  /\ weight is_accept_or_open (trace_of (accept_loop E (S fuel) listen_socket client_fd st)) = 1
  /\ exists c s t, trace_of (accept_loop E (S fuel) listen_socket client_fd st)
                   = t ++ [EvOnOpen c s].
Proof.
  intros Hclosed.
  destruct (accept_one_run E listen_socket client_fd st) as (Hres & s & c1 & c2 & ext & Htr).
  assert (Hloop : accept_loop E (S fuel) listen_socket client_fd st
                  = accept_one E listen_socket client_fd st).
  { cbn [accept_loop]. rewrite run_bind.
    destruct (accept_one E listen_socket client_fd st) as [[r st1] t1].
    unfold result_of, state_of in Hres, Hclosed. cbn [fst snd] in Hres, Hclosed. subst r.
    rewrite run_gets_bind, Hclosed.
    unfold ret, result_of, state_of, trace_of. cbn [fst snd]. now rewrite app_nil_r. }
  rewrite Hloop. split; [ reflexivity | ]. split; [ exact Hres | ].
  rewrite Htr. split; [ reflexivity | ].
  exists c2, s,
    [EvCreatePoll ext s; EvPollInit s client_fd POLL_TYPE_SOCKET;
     EvPollStart s (LIBUS_SOCKET_READABLE E); EvLowPrioState s 0;
     EvNodelay client_fd; EvLinkSocket c1 s].
  reflexivity.
Qed.

Lemma accept_loop_leaves_on_listen_close_witness :
  accept_loop sim 3 0 5 (sim_listening (Some 0%nat))
  = accept_one sim 0 5 (sim_listening (Some 0%nat))
  /\ trace_of (us_internal_dispatch_ready_poll sim 3 0 0 0 1
                 (sim_state0 (mk_sim_world [] [5; 7; 8] [] [] (fun _ => 1)
                                (fun _ => POLL_TYPE_SEMI_SOCKET) 100%nat (fun _ => false)
                                (Some 0%nat))))
     = [EvAccept 0 5; EvCreatePoll 48 100; EvPollInit 100 5 POLL_TYPE_SOCKET;
        EvPollStart 100 1; EvLowPrioState 100 0; EvNodelay 5; EvLinkSocket 0 100;
        EvOnOpen 0 100].
Proof.
  split; [ | reflexivity ].
  apply (accept_loop_leaves_on_listen_close sim 2 0%nat 5 (sim_listening (Some 0%nat))).
  reflexivity.
Defined.

(** The same readiness event when on_open leaves the listening socket
    open: the loop accepts until the kernel reports no more connections. *)
Example accept_loop_drains_when_open :
  weight is_accept_or_open
         (trace_of (accept_loop sim 3 0 5 (sim_listening None))) = 6
  /\ result_of (accept_loop sim 3 0 5 (sim_listening None)) = Done tt.
Proof. split; reflexivity. Qed.

(** ** The EOF phase *)

(** C7.  The EOF phase for a socket that is still open.  If the socket is
    already shut down it is closed with code CLEAN_SHUTDOWN and on_end is
    not called; the dispatch returns.  Otherwise, if allow_half_open is
    set, the poll mask is narrowed to its WRITABLE part (so READABLE is
    removed from it) and on_end is called, without any close; the phase
    falls through to the error phase with the socket on_end returned.
    Otherwise on_end is called and then the socket it returned is closed
    with code CLEAN_SHUTDOWN; the dispatch returns.  The phase is what the
    dispatch runs after the readable phase when the eof flag is set. *)
Theorem eof_phase_cases {W} (E : env W) (s : nat) (st : state W) :
  us_socket_is_closed E st s = false ->
  let clean := LIBUS_SOCKET_CLOSE_CODE_CLEAN_SHUTDOWN E in
  (us_socket_is_shut_down E st s = true ->
   eof_phase E s st
   = (Done None, snd (us_socket_close E (Some s) clean st), [EvSocketClose (Some s) clean]))
  /\ (us_socket_is_shut_down E st s = false ->
      allow_half_open (flags (sockets st s)) = true ->
      let mask := Z.land (us_poll_events E st s) (LIBUS_SOCKET_WRITABLE E) in
      let st1 := us_poll_change E s mask st in
      let c := s_context (sockets st1 s) in
      eof_phase E s st
      = (Done (Some (fst (on_end E c s st1))), snd (on_end E c s st1),
         [EvPollChange s mask; EvOnEnd c s])
      /\ (Z.land (LIBUS_SOCKET_WRITABLE E) (LIBUS_SOCKET_READABLE E) = 0 ->
          Z.land mask (LIBUS_SOCKET_READABLE E) = 0))
  /\ (us_socket_is_shut_down E st s = false ->
      allow_half_open (flags (sockets st s)) = false ->
      let c := s_context (sockets st s) in
      let s' := fst (on_end E c s st) in
      let st1 := snd (on_end E c s st) in
      eof_phase E s st
      = (Done None, snd (us_socket_close E s' clean st1),
         [EvOnEnd c s; EvSocketClose s' clean]))
  /\ (forall error eof, eof <> 0 ->
        eof_and_error_phases E (Some s) error eof
        = bind (eof_phase E s)
               (fun r => match r with
                         | None => ret tt
                         | Some s2 => error_phase E s2 error
                         end)).
Proof.
  intros Hopen clean.
  split; [ | split; [ | split ] ].
  - intros Hshut. unfold eof_phase. step_run. rewrite Hopen. step_run. rewrite Hshut.
    step_run. reflexivity.
  - intros Hshut Hhalf mask st1 c. split.
    + unfold eof_phase. step_run. rewrite Hopen. step_run. rewrite Hshut. step_run.
      rewrite Hhalf. step_run. reflexivity.
    + intros Hdisjoint. unfold mask. rewrite <- Z.land_assoc, Hdisjoint.
      apply Z.land_0_r.
  - intros Hshut Hhalf c s' st1. unfold eof_phase. step_run. rewrite Hopen. step_run.
    rewrite Hshut. step_run. rewrite Hhalf. step_run. reflexivity.
  - intros error eof Heof. unfold eof_and_error_phases.
    apply Z.eqb_neq in Heof. rewrite Heof. reflexivity.
Qed.

Lemma eof_phase_cases_witness :
  eof_phase sim 1 (sim_at_eof true false)
  = (Done None, snd (us_socket_close sim (Some 1%nat) 0 (sim_at_eof true false)),
     [EvSocketClose (Some 1%nat) 0])
  /\ eof_phase sim 1 (sim_at_eof false true)
     = (Done (Some (Some 1%nat)), us_poll_change sim 1 4 (sim_at_eof false true),
        [EvPollChange 1 4; EvOnEnd 0 1])
  /\ eof_phase sim 1 (sim_at_eof false false)
     = (Done None, snd (us_socket_close sim (Some 1%nat) 0 (sim_at_eof false false)),
        [EvOnEnd 0 1; EvSocketClose (Some 1%nat) 0]).
Proof.
  split; [ | split ].
  - apply (eof_phase_cases sim 1 (sim_at_eof true false) eq_refl). reflexivity.
  - apply (eof_phase_cases sim 1 (sim_at_eof false true) eq_refl); reflexivity.
  - apply (eof_phase_cases sim 1 (sim_at_eof false false) eq_refl); reflexivity.
Defined.

(** ** Deferral to the low-priority queue *)

Lemma low_prio_defer_run {W} (E : env W) c s st :
  let mask := Z.land (us_poll_events E st s) (LIBUS_SOCKET_WRITABLE E) in
  result_of (low_prio_defer E c s st) = Done tt
  /\ trace_of (low_prio_defer E c s st)
     = [EvPollChange s mask; EvContextRef c; EvUnlinkSocket c s; EvLowPrioState s 1]
  /\ low_prio_state (flags (sockets (state_of (low_prio_defer E c s st)) s)) = 1
  /\ low_prio_head (data (state_of (low_prio_defer E c s st))) = Some s.
Proof.
  intros mask. unfold low_prio_defer. step_lin.
  match goal with
  | |- context [match ?x with Some _ => _ | None => _ end] => destruct x
  end; step_lin; open_prefixed; unfold emit, result_of, state_of, trace_of; cbn [fst snd app];
    (split; [ reflexivity | split; [ reflexivity | ] ]);
    cbn [sockets data with_socket with_data low_prio_head data_set_low_prio_head];
    rewrite upd_same; split; reflexivity.
Qed.

(** C2 (as the code has it).  When a readable socket classified
    low-priority is deferred because the budget of the iteration is spent
    (it was not promoted in this iteration), the poll mask is narrowed to
    its WRITABLE part, the context is referenced, the socket is unlinked
    from its context and pushed onto the head of the low-priority list with
    low_prio_state 1, and the dispatch of that poll event ends there: the
    break leaves the switch, so nothing follows the deferral, whatever the
    eof and error flags are. *)
Theorem deferred_socket_ends_dispatch {W} (E : env W) (fuel : nat) (p : nat)
        (error eof events : Z) (st : state W) (s : nat) (st1 : state W) (t1 : list event) :
  writable_phase E p error events st = (Done (Some s), st1, t1) ->
  Z.land events (LIBUS_SOCKET_READABLE E) <> 0 ->
  let c := s_context (sockets st1 s) in
  let st2 := snd (is_low_prio E c s st1) in
  fst (is_low_prio E c s st1) = true ->
  low_prio_state (flags (sockets st2 s)) <> 2 ->
  low_prio_budget (data st2) <= 0 ->
  let mask := Z.land (us_poll_events E st2 s) (LIBUS_SOCKET_WRITABLE E) in
  let deferral := [EvIsLowPrio c s true; EvPollChange s mask; EvContextRef c;
                   EvUnlinkSocket c s; EvLowPrioState s 1] in
  result_of (readable_phase E fuel s error eof events st1) = Done ReadableDeferred
  /\ trace_of (readable_phase E fuel s error eof events st1) = deferral
  /\ result_of (dispatch_socket E fuel p error eof events st) = Done tt
  /\ trace_of (dispatch_socket E fuel p error eof events st) = t1 ++ deferral
  /\ low_prio_state (flags (sockets (state_of (dispatch_socket E fuel p error eof events st))
                                    s)) = 1
  /\ low_prio_head (data (state_of (dispatch_socket E fuel p error eof events st))) = Some s.
Proof.
  intros Hw Hreadable c st2 Hlp Hstate Hbudget mask deferral.
  apply Z.eqb_neq in Hreadable. apply Z.eqb_neq in Hstate.
  assert (Hb : (low_prio_budget (data st2) >? 0) = false).
  { destruct (low_prio_budget (data st2) >? 0) eqn:Hb; [ | reflexivity ].
    apply Z.gtb_lt in Hb. lia. }
  destruct (low_prio_defer_run E c s st2) as (Dr & Dt & Ds & Dh).
  assert (Hread : readable_phase E fuel s error eof events st1
                  = (Done ReadableDeferred, state_of (low_prio_defer E c s st2), deferral)).
  { unfold readable_phase, low_prio_admission. rewrite Hreadable. cbn [negb].
    rewrite lin_bind. rewrite run_gets_bind, lin_call_bind. fold c. fold st2. rewrite Hlp.
    rewrite run_gets_bind, Hstate, run_gets_bind, Hb.
    rewrite lin_bind, Dr. open_prefixed. rewrite Dt.
    unfold ret, prefixed, result_of, state_of, trace_of. cbn [fst snd app]. reflexivity. }
  rewrite Hread. unfold result_of at 1, trace_of at 1. cbn [fst snd].
  split; [ reflexivity | split; [ reflexivity | ] ].
  assert (Hd : dispatch_socket E fuel p error eof events st
               = (Done tt, state_of (low_prio_defer E c s st2), t1 ++ deferral)).
  { unfold dispatch_socket. rewrite lin_bind, Hw.
    unfold result_of, state_of, trace_of. cbn [fst snd].
    rewrite lin_bind, Hread.
    unfold ret, prefixed, result_of, state_of, trace_of. cbn [fst snd].
    now rewrite app_nil_r. }
  rewrite Hd. unfold result_of, state_of, trace_of in *. cbn [fst snd] in *.
  repeat split; assumption.
Qed.

Lemma deferred_socket_ends_dispatch_witness :
  trace_of (dispatch_socket sim 5 1 5 1 1 sim_budget_spent)
  = [] ++ [EvIsLowPrio 0 1 true; EvPollChange 1 0; EvContextRef 0; EvUnlinkSocket 0 1;
           EvLowPrioState 1 1].
Proof.
  refine (proj1 (proj2 (proj2 (proj2
    (deferred_socket_ends_dispatch sim 5 1 5 1 1 sim_budget_spent 1 sim_budget_spent []
       _ _ _ _ _))))).
  - reflexivity.
  - simpl. discriminate.
  - reflexivity.
  - simpl. discriminate.
  - simpl. lia.
Defined.

(** C2 as stated fails: a deferred socket whose poll event carries both
    the eof flag and the error flag (5) is neither sent on_end nor closed,
    although it is open, not shut down and does not allow half-open, so
    that the EOF phase run from the state the deferral leaves would call
    on_end and close it. *)
Lemma deferred_socket_eof_counterexample :
  let r := us_internal_dispatch_ready_poll sim 5 1 5 1 1 sim_budget_spent in
  result_of r = Done tt
  /\ trace_of r = [EvIsLowPrio 0 1 true; EvPollChange 1 0; EvContextRef 0;
                   EvUnlinkSocket 0 1; EvLowPrioState 1 1]
  /\ us_socket_is_closed sim (state_of r) 1 = false
  /\ trace_of (eof_and_error_phases sim (Some 1%nat) 5 1 (state_of r))
     = [EvOnEnd 0 1; EvSocketClose (Some 1%nat) 0]
  /\ (forall c s, ~ In (EvOnEnd c s) (trace_of r))
  /\ (forall s code, ~ In (EvSocketClose s code) (trace_of r)).
Proof.
  cbv zeta. repeat split; try reflexivity.
  - intros c s H. vm_compute in H. intuition discriminate.
  - intros s code H. vm_compute in H. intuition discriminate.
Qed.

(** ** The receive loop *)

Section ReceiveLoop.
Context {W : Type} (E : env W).

Lemma recv_once_receives s st : receives (trace_of (recv_once E s st)) = 1.
Proof.
  unfold recv_once. step_run.
  destruct (is_ipc (flags (sockets st s))); step_run.
  - destruct (snd (fst (bsd_recvmsg E (us_poll_fd E st s) st))) as [passed | ];
      [ destruct (fst (fst (bsd_recvmsg E (us_poll_fd E st s) st)) >? 0) | ];
      step_run; try reflexivity.
    destruct (fst (on_fd E _ s passed _)) as [s1 | ]; step_run; [ | reflexivity ].
    destruct (us_socket_is_closed E _ s1); reflexivity.
  - reflexivity.
Qed.

Hypothesis recv_keeps : forall fd st,
    num_ready_polls (snd (bsd_recv E fd st)) = num_ready_polls st.
Hypothesis recvmsg_keeps : forall fd st,
    num_ready_polls (snd (bsd_recvmsg E fd st)) = num_ready_polls st.
Hypothesis on_fd_keeps : forall c s fd st,
    num_ready_polls (snd (on_fd E c s fd st)) = num_ready_polls st.
Hypothesis on_data_keeps : forall c s n st,
    num_ready_polls (snd (on_data E c s n st)) = num_ready_polls st.

Lemma recv_once_polls s st :
  num_ready_polls (state_of (recv_once E s st)) = num_ready_polls st.
Proof.
  unfold recv_once. step_run.
  destruct (is_ipc (flags (sockets st s))); step_run.
  - destruct (snd (fst (bsd_recvmsg E (us_poll_fd E st s) st))) as [passed | ];
      [ destruct (fst (fst (bsd_recvmsg E (us_poll_fd E st s) st)) >? 0) | ];
      step_run; unfold ret, stuck, state_of; cbn [fst snd]; try apply recvmsg_keeps.
    destruct (fst (on_fd E _ s passed _)) as [s1 | ]; step_run;
      [ destruct (us_socket_is_closed E _ s1) | ];
      unfold ret, stuck, state_of; cbn [fst snd]; rewrite on_fd_keeps; apply recvmsg_keeps.
  - unfold ret, state_of. cbn [fst snd]. apply recv_keeps.
Qed.
End ReceiveLoop.

Lemma recv_again_candidate_iff {W} (E : env W) st s n error :
  recv_again_candidate E st s n error = true
  <-> (exists s3, s = Some s3 /\ us_socket_is_closed E st s3 = false)
      /\ LIBUS_RECV_BUFFER_LENGTH E - 24 * 1024 <= n <= LIBUS_RECV_BUFFER_LENGTH E
      /\ (error <> 0 \/ num_ready_polls st < 25).
Proof.
  unfold recv_again_candidate, LOOP_ISNT_VERY_BUSY_THRESHOLD.
  destruct s as [s3 | ].
  - rewrite !andb_true_iff, orb_true_iff, !negb_true_iff, Z.geb_le, Z.leb_le, Z.ltb_lt,
      Z.eqb_neq.
    split.
    + intros [[[H1 H2] H3] H4]. split; [ exists s3; split; [ reflexivity | exact H4 ] | ].
      split; [ lia | exact H3 ].
    + intros [(s' & [= <-] & H4) [H12 H3]]. repeat split; try lia; assumption.
  - split; [ discriminate | ]. intros [(s' & H & _) _]. discriminate.
Qed.

Lemma recv_continue_iff {W} (st : state W) count :
  recv_continue st count = true <-> ~ (count > 10 /\ num_ready_polls st > 2).
Proof.
  unfold recv_continue. rewrite negb_true_iff, andb_false_iff, !Z.gtb_ltb, !Z.ltb_ge. lia.
Qed.

Lemma is_receive_nonneg e : 0 <= is_receive e.
Proof. destruct e; simpl; lia. Qed.

Section ReceiveRule.
Context {W : Type} (E : env W).

(** One turn of the loop in which the receive delivered data. *)
Lemma recv_loop_after_data fuel s error eof count st s1 n st1 t1 :
  recv_once E s st = (Done (inr (s1, n)), st1, t1) ->
  0 < n ->
  let c := s_context (sockets st1 s1) in
  let s2 := fst (on_data E c s1 n st1) in
  let st2 := snd (on_data E c s1 n st1) in
  let count' := bump_repeat_recv_count count error in
  recv_loop E (S fuel) s error eof count st
  = match s2 with
    | Some s3 =>
        if recv_again_candidate E st2 s2 n error && recv_continue st2 count' then
          (result_of (recv_loop E fuel s3 error eof count' st2),
           state_of (recv_loop E fuel s3 error eof count' st2),
           t1 ++ EvOnData c s1 n :: trace_of (recv_loop E fuel s3 error eof count' st2))
        else (Done (ReadableDone s2 eof), st2, t1 ++ [EvOnData c s1 n])
    | None => (Done (ReadableDone None eof), st2, t1 ++ [EvOnData c s1 n])
    end.
Proof.
  intros Hrecv Hn c s2 st2 count'.
  cbn [recv_loop]. rewrite run_bind, Hrecv.
  assert (Hpos : (n >? 0) = true) by (apply Z.gtb_lt; lia).
  rewrite Hpos. rewrite run_gets_bind, run_call_bind, run_gets_bind.
  fold c. fold s2. fold st2.
  destruct s2 as [s3 | ] eqn:Hs2.
  - destruct (recv_again_candidate E st2 (Some s3) n error); cbn [andb].
    + rewrite run_gets_bind. fold count'.
      destruct (recv_continue st2 count');
        unfold ret, result_of, state_of, trace_of; cbn [fst snd]; reflexivity.
    + unfold ret, result_of, state_of, trace_of; cbn [fst snd]; reflexivity.
  - unfold ret, result_of, state_of, trace_of; cbn [fst snd]; reflexivity.
Qed.

Lemma recv_loop_receives_pos fuel s error eof count st :
  1 <= receives (trace_of (recv_loop E (S fuel) s error eof count st)).
Proof.
  cbn [recv_loop]. rewrite run_bind.
  pose proof (recv_once_receives E s st) as H1.
  destruct (recv_once E s st) as [[[r | why] st1] t1];
    unfold trace_of in *; cbn [fst snd] in *; unfold receives in *.
  - rewrite weight_app.
    match goal with
    | |- 1 <= _ + weight is_receive ?t =>
        pose proof (weight_nonneg is_receive is_receive_nonneg t)
    end. lia.
  - lia.
Qed.

Lemma recv_repeat_step fuel s error eof count st s1 n st1 t1 :
  recv_once E s st = (Done (inr (s1, n)), st1, t1) ->
  0 < n ->
  let c := s_context (sockets st1 s1) in
  let s2 := fst (on_data E c s1 n st1) in
  let st2 := snd (on_data E c s1 n st1) in
  2 <= receives (trace_of (recv_loop E (S (S fuel)) s error eof count st))
  <-> (exists s3, s2 = Some s3 /\ us_socket_is_closed E st2 s3 = false)
      /\ LIBUS_RECV_BUFFER_LENGTH E - 24 * 1024 <= n <= LIBUS_RECV_BUFFER_LENGTH E
      /\ (error <> 0 \/ num_ready_polls st2 < 25)
      /\ ~ (bump_repeat_recv_count count error > 10 /\ num_ready_polls st2 > 2).
Proof.
  intros Hrecv Hn c s2 st2.
  rewrite (recv_loop_after_data (S fuel) s error eof count st s1 n st1 t1 Hrecv Hn).
  fold c. fold s2. fold st2.
  pose proof (recv_once_receives E s st) as Ht1. rewrite Hrecv in Ht1.
  unfold trace_of in Ht1. cbn [fst snd] in Ht1.
  pose proof (recv_again_candidate_iff E st2 s2 n error) as Hcand.
  pose proof (recv_continue_iff st2 (bump_repeat_recv_count count error)) as Hcont.
  destruct s2 as [s3 | ] eqn:Hs2.
  - destruct (recv_again_candidate E st2 (Some s3) n error) eqn:Hc;
      [ destruct (recv_continue st2 (bump_repeat_recv_count count error)) eqn:Hk | ];
      cbn [andb]; unfold trace_of; cbn [fst snd]; unfold receives in *;
      rewrite weight_app, Ht1; cbn [weight is_receive].
    + pose proof (recv_loop_receives_pos fuel s3 error eof
                    (bump_repeat_recv_count count error) st2) as Hpos.
      unfold receives, trace_of in Hpos.
      split; [ intros _ | intros _; lia ].
      destruct Hcand as [Hcand _]. destruct (Hcand eq_refl) as (H1 & H2 & H3).
      destruct Hcont as [Hcont _]. specialize (Hcont eq_refl). tauto.
    + split; [ lia | ]. intros (_ & _ & _ & H4).
      destruct Hcont as [_ Hcont]. specialize (Hcont H4). discriminate.
    + split; [ lia | ]. intros (H1 & H2 & H3 & _).
      destruct Hcand as [_ Hcand]. discriminate Hcand. tauto.
  - unfold trace_of; cbn [fst snd]; unfold receives in *.
    rewrite weight_app, Ht1; cbn [weight is_receive].
    split; [ lia | ]. intros ((s3 & H & _) & _). discriminate.
Qed.

Hypothesis recv_keeps : forall fd st,
    num_ready_polls (snd (bsd_recv E fd st)) = num_ready_polls st.
Hypothesis recvmsg_keeps : forall fd st,
    num_ready_polls (snd (bsd_recvmsg E fd st)) = num_ready_polls st.
Hypothesis on_fd_keeps : forall c s fd st,
    num_ready_polls (snd (on_fd E c s fd st)) = num_ready_polls st.
Hypothesis on_data_keeps : forall c s n st,
    num_ready_polls (snd (on_data E c s n st)) = num_ready_polls st.

(** With the error flag clear the counter counts the repeats, and the
    loop gives up once it passes 10 on a loop with more than 2 ready
    polls. *)
Lemma recv_loop_cap fuel :
  forall s eof count st,
    0 <= count <= 10 -> 2 < num_ready_polls st ->
    receives (trace_of (recv_loop E fuel s 0 eof count st)) <= 11 - count.
Proof.
  induction fuel as [ | fuel IH]; intros s eof count st Hcount Hpolls.
  - cbn [recv_loop]. unfold stuck, trace_of, receives. cbn [snd weight]. lia.
  - pose proof (recv_once_receives E s st) as Ht1.
    pose proof (recv_once_polls E recv_keeps recvmsg_keeps on_fd_keeps s st) as Hp1.
    destruct (recv_once E s st) as [[[[s1 | [s1 n]] | why] st1] t1] eqn:Hrecv;
      unfold trace_of, state_of in Ht1, Hp1; cbn [fst snd] in Ht1, Hp1.
    + cbn [recv_loop]. rewrite run_bind, Hrecv. unfold ret, trace_of, receives in *.
      cbn [fst snd]. rewrite weight_app, Ht1. cbn [weight]. lia.
    + destruct (Z.ltb_spec 0 n) as [Hn | Hn].
      * rewrite (recv_loop_after_data fuel s 0 eof count st s1 n st1 t1 Hrecv Hn).
        set (c := s_context (sockets st1 s1)).
        pose proof (on_data_keeps c s1 n st1) as Hp2.
        set (st2 := snd (on_data E c s1 n st1)) in *.
        destruct (fst (on_data E c s1 n st1)) as [s3 | ].
        -- destruct (recv_again_candidate E st2 (Some s3) n 0); cbn [andb];
             [ destruct (recv_continue st2 (bump_repeat_recv_count count 0)) eqn:Hk | ];
             unfold trace_of; cbn [fst snd]; unfold receives in *;
             rewrite weight_app, Ht1; cbn [weight is_receive]; try lia.
           apply recv_continue_iff in Hk.
           assert (Hbump : bump_repeat_recv_count count 0 = count + 1).
           { unfold bump_repeat_recv_count. cbn [Z.eqb]. apply Z.mod_small. lia. }
           rewrite Hbump in *.
           specialize (IH s3 eof (count + 1) st2).
           unfold trace_of, receives in IH.
           assert (Hle : count + 1 <= 10) by lia.
           specialize (IH ltac:(lia) ltac:(lia)). lia.
        -- unfold trace_of; cbn [fst snd]; unfold receives in *.
           rewrite weight_app, Ht1; cbn [weight is_receive]. lia.
      * cbn [recv_loop]. rewrite run_bind, Hrecv.
        assert (Hneg : (n >? 0) = false).
        { destruct (n >? 0) eqn:Hg; [ apply Z.gtb_lt in Hg; lia | reflexivity ]. }
        rewrite Hneg.
        destruct (n =? 0); [ | rewrite run_gets_bind;
          destruct ((n =? LIBUS_SOCKET_ERROR E) && negb (bsd_would_block E st1));
          [ rewrite run_call_bind | ] ];
          unfold ret, result_of, state_of, trace_of, receives in *; cbn [fst snd];
          rewrite weight_app, Ht1; cbn [weight is_receive]; lia.
    + cbn [recv_loop]. rewrite run_bind, Hrecv. unfold trace_of, receives in *.
      cbn [fst snd]. lia.
Qed.
End ReceiveRule.

(** C6 (as the code has it).  In the receive loop, after on_data returned
    the socket s for a read of n > 0 bytes, another receive is issued
    exactly when s is not null and not closed, R - 24 KiB <= n <= R (R =
    LIBUS_RECV_BUFFER_LENGTH), the poll's error flag is set or
    loop.num_ready_polls < 25, and it is not the case that the repeat
    counter, bumped for this turn, exceeds 10 while loop.num_ready_polls >
    2.  The counter is bumped only while the error flag is clear.  So with
    the error flag clear and more than 2 ready polls the loop stops after
    10 repeats (at most 11 receives); with the error flag set the counter
    stays where it is and the repeats are not capped.  A read of exactly R
    bytes can trigger a repeat, a read of R - 24 KiB - 1 bytes never does.
    The receive functions and the data handlers leave num_ready_polls
    alone. *)
Theorem recv_repeat_rule {W} (E : env W) :
  (forall fuel s error eof count st s1 n st1 t1,
      recv_once E s st = (Done (inr (s1, n)), st1, t1) ->
      0 < n ->
      let c := s_context (sockets st1 s1) in
      let s2 := fst (on_data E c s1 n st1) in
      let st2 := snd (on_data E c s1 n st1) in
      2 <= receives (trace_of (recv_loop E (S (S fuel)) s error eof count st))
      <-> (exists s3, s2 = Some s3 /\ us_socket_is_closed E st2 s3 = false)
          /\ LIBUS_RECV_BUFFER_LENGTH E - 24 * 1024 <= n <= LIBUS_RECV_BUFFER_LENGTH E
          /\ (error <> 0 \/ num_ready_polls st2 < 25)
          /\ ~ (bump_repeat_recv_count count error > 10 /\ num_ready_polls st2 > 2))
  /\ (forall count error,
        0 <= count < 2 ^ 64 - 1 ->
        bump_repeat_recv_count count error = if error =? 0 then count + 1 else count)
  /\ ((forall fd st, num_ready_polls (snd (bsd_recv E fd st)) = num_ready_polls st) ->
      (forall fd st, num_ready_polls (snd (bsd_recvmsg E fd st)) = num_ready_polls st) ->
      (forall c s fd st, num_ready_polls (snd (on_fd E c s fd st)) = num_ready_polls st) ->
      (forall c s n st, num_ready_polls (snd (on_data E c s n st)) = num_ready_polls st) ->
      forall fuel s eof st,
        2 < num_ready_polls st ->
        receives (trace_of (recv_loop E fuel s 0 eof 0 st)) <= 11)
  /\ (forall st s error,
        recv_again_candidate E st s (LIBUS_RECV_BUFFER_LENGTH E - 24 * 1024 - 1) error = false)
  /\ (forall st s error,
        us_socket_is_closed E st s = false ->
        error <> 0 \/ num_ready_polls st < 25 ->
        recv_again_candidate E st (Some s) (LIBUS_RECV_BUFFER_LENGTH E) error = true
        /\ recv_continue st (bump_repeat_recv_count 0 error) = true).
Proof.
  split; [ | split; [ | split; [ | split ] ] ].
  - intros fuel s error eof count st s1 n st1 t1 Hrecv Hn.
    exact (recv_repeat_step E fuel s error eof count st s1 n st1 t1 Hrecv Hn).
  - intros count error Hc. unfold bump_repeat_recv_count.
    destruct (error =? 0); [ | rewrite Z.add_0_r ]; apply Z.mod_small; lia.
  - intros H1 H2 H3 H4 fuel s eof st Hp.
    pose proof (recv_loop_cap E H1 H2 H3 H4 fuel s eof 0 st) as H. lia.
  - intros st s error.
    destruct (recv_again_candidate E st s (LIBUS_RECV_BUFFER_LENGTH E - 24 * 1024 - 1) error)
      eqn:Hc; [ | reflexivity ].
    apply recv_again_candidate_iff in Hc. lia.
  - intros st s error Hopen Hbusy. split.
    + apply recv_again_candidate_iff. split; [ exists s; now split | ].
      split; [ lia | exact Hbusy ].
    + apply recv_continue_iff. unfold bump_repeat_recv_count.
      destruct (error =? 0); cbn; lia.
Qed.

Lemma recv_repeat_rule_witness :
  receives (trace_of (recv_loop sim 20 1 0 0 0 (sim_reading 12 3))) = 11
  /\ receives (trace_of (recv_loop sim 20 1 0 0 0 (sim_reading 12 3))) <= 11.
Proof.
  split; [ vm_compute; reflexivity | ].
  refine (proj1 (proj2 (proj2 (recv_repeat_rule sim))) _ _ _ _ 20%nat 1%nat 0
                (sim_reading 12 3) _).
  - intros fd st. simpl. unfold sim_pop. destruct (w_recv (world st)); reflexivity.
  - intros fd st. simpl. unfold sim_pop. destruct (w_recv (world st)); reflexivity.
  - intros; reflexivity.
  - intros; reflexivity.
  - simpl. lia.
Defined.

(** C6 as stated fails: with the error flag set and 3 ready polls, twelve
    full reads pending are all received in one dispatch, 12 repeats in a
    row, where the cap of 10 repeats would allow at most 11 receives. *)
Lemma recv_repeat_cap_counterexample :
  num_ready_polls (sim_reading 12 3) > 2
  /\ result_of (us_internal_dispatch_ready_poll sim 20 1 1 0 1 (sim_reading 12 3)) = Done tt
  /\ receives (trace_of (us_internal_dispatch_ready_poll sim 20 1 1 0 1 (sim_reading 12 3)))
     = 13
  /\ ~ receives (trace_of (us_internal_dispatch_ready_poll sim 20 1 1 0 1 (sim_reading 12 3)))
       <= 11.
Proof.
  split; [ simpl; lia | ].
  split; [ vm_compute; reflexivity | ].
  assert (H : receives (trace_of (us_internal_dispatch_ready_poll sim 20 1 1 0 1
                                    (sim_reading 12 3))) = 13) by (vm_compute; reflexivity).
  split; [ exact H | rewrite H; lia ].
Qed.

(** * Further properties of loop.c *)

(** ** Linked lists *)

Lemma chain_functional next :
  forall l1 l2 h, chain next h l1 -> chain next h l2 -> l1 = l2.
Proof.
  induction l1 as [ | x l1 IH]; intros [ | y l2] h H1 H2; simpl in *.
  - reflexivity.
  - destruct H2 as [H2 _]. congruence.
  - destruct H1 as [H1 _]. congruence.
  - destruct H1 as [H1 H1'], H2 as [H2 H2'].
    assert (x = y) by congruence. subst y. f_equal. eapply IH; eassumption.
Qed.

Lemma chain_app_inv next l1 :
  forall l2 h, chain next h (l1 ++ l2) ->
               exists mid, chain next mid l2.
Proof.
  induction l1 as [ | x l1 IH]; intros l2 h H; simpl in *.
  - now exists h.
  - destruct H as [_ H]. eapply IH; eassumption.
Qed.

Lemma chain_NoDup next l : forall h, chain next h l -> NoDup l.
Proof.
  induction l as [ | x l IH]; intros h H; [ constructor | ].
  destruct H as [Hh H]. constructor; [ | eapply IH; eassumption ].
  intros Hin. apply in_split in Hin. destruct Hin as (l1 & l2 & ->).
  destruct (chain_app_inv next l1 (x :: l2) _ H) as (mid & Hmid).
  simpl in Hmid. destruct Hmid as [_ Hmid].
  pose proof (chain_functional next _ _ _ H Hmid) as Heq.
  apply (f_equal (@length nat)) in Heq. rewrite length_app in Heq. simpl in Heq. lia.
Qed.

Lemma dlseg_chain next prev l :
  forall before h, dlseg next prev before h l None -> chain next h l.
Proof.
  induction l as [ | x l IH]; intros before h H; simpl in *; [ exact H | ].
  destruct H as (Hh & _ & H). split; [ exact Hh | eapply IH; eassumption ].
Qed.

Lemma dlseg_agree next prev next' prev' l :
  forall before h stop,
    (forall x, In x l -> next' x = next x /\ prev' x = prev x) ->
    dlseg next prev before h l stop -> dlseg next' prev' before h l stop.
Proof.
  induction l as [ | x l IH]; intros before h stop Hag H; simpl in *; [ exact H | ].
  destruct H as (Hh & Hp & H). destruct (Hag x (or_introl eq_refl)) as [Hn Hp'].
  split; [ exact Hh | ]. split; [ congruence | ].
  rewrite Hn. apply IH; [ | exact H ]. intros y Hy. apply Hag. now right.
Qed.

Lemma dlseg_app next prev l1 :
  forall l2 before h stop,
    dlseg next prev before h (l1 ++ l2) stop
    <-> exists mid, dlseg next prev before h l1 mid
                    /\ dlseg next prev (match rev l1 with [] => before | x :: _ => Some x end)
                             mid l2 stop.
Proof.
  induction l1 as [ | x l1 IH]; intros l2 before h stop; simpl.
  - split.
    + intros H. exists h. split; [ reflexivity | exact H ].
    + intros (mid & -> & H). exact H.
  - split.
    + intros (Hh & Hp & H). apply IH in H. destruct H as (mid & H1 & H2).
      exists mid. split; [ now repeat split | ].
      destruct (rev l1) as [ | y r] eqn:Hr; simpl; exact H2.
    + intros (mid & (Hh & Hp & H1) & H2). split; [ exact Hh | ]. split; [ exact Hp | ].
      apply IH. exists mid. split; [ exact H1 | ].
      destruct (rev l1) as [ | y r] eqn:Hr; simpl in *; exact H2.
Qed.

(** ** The list of contexts of the loop *)

Ltac eqb_cases :=
  repeat match goal with
         | |- context [Nat.eqb ?a ?b] => destruct (Nat.eqb_spec a b); subst
         | H : context [Nat.eqb ?a ?b] |- _ => destruct (Nat.eqb_spec a b); subst
         end;
  cbn in *; try reflexivity; try congruence.

Lemma loop_link_run {W} (context : nat) (st : state W) :
  result_of (us_internal_loop_link context st) = Done tt
  /\ trace_of (us_internal_loop_link context st) = []
  /\ head (data (state_of (us_internal_loop_link context st))) = Some context
  /\ ctx_next (state_of (us_internal_loop_link context st)) context = head (data st)
  /\ (head (data st) <> Some context ->
      ctx_prev (state_of (us_internal_loop_link context st)) context = None)
  /\ (forall c, c <> context ->
        ctx_next (state_of (us_internal_loop_link context st)) c = ctx_next st c)
  /\ (forall c, c <> context -> head (data st) <> Some c ->
        ctx_prev (state_of (us_internal_loop_link context st)) c = ctx_prev st c)
  /\ (forall h, head (data st) = Some h -> h <> context ->
        ctx_prev (state_of (us_internal_loop_link context st)) h = Some context)
  /\ (forall c, ctx_ticks (state_of (us_internal_loop_link context st)) c = ctx_ticks st c
                /\ head_sockets (contexts (state_of (us_internal_loop_link context st)) c)
                   = head_sockets (contexts st c)).
Proof.
  unfold us_internal_loop_link. step_run. cbn [with_context data].
  destruct (head (data st)) as [h | ] eqn:Hh; step_run;
    unfold modify, ret, result_of, state_of, trace_of, ctx_next, ctx_prev, ctx_ticks;
    cbn [fst snd contexts data with_context with_data head data_set_head];
    repeat split; intros; unfold upd; eqb_cases.
Qed.

Lemma loop_link_list {W} (context : nat) (l : list nat) (st : state W) :
  contexts_linked st l ->
  ~ In context l ->
  result_of (us_internal_loop_link context st) = Done tt
  /\ contexts_linked (state_of (us_internal_loop_link context st)) (context :: l)
  /\ forall c, ctx_ticks (state_of (us_internal_loop_link context st)) c = ctx_ticks st c
               /\ head_sockets (contexts (state_of (us_internal_loop_link context st)) c)
                  = head_sockets (contexts st c).
Proof.
  intros Hl Hnotin.
  destruct (loop_link_run context st)
    as (Hres & _ & Hhead & Hnext & Hprev & Hnexts & Hprevs & Hheadprev & Hrest).
  split; [ exact Hres | split; [ | exact Hrest ] ].
  pose proof (chain_NoDup _ _ _ (dlseg_chain _ _ _ _ _ Hl)) as Hnd.
  unfold contexts_linked in *. simpl. split; [ exact Hhead | ].
  destruct l as [ | h l']; simpl in Hl.
  - rewrite Hnext, Hl. split; [ | reflexivity ]. apply Hprev. rewrite Hl. discriminate.
  - destruct Hl as (Hh & Hp & Hl).
    assert (Hhc : h <> context) by (intros ->; apply Hnotin; now left).
    split; [ apply Hprev; rewrite Hh; congruence | ].
    rewrite Hnext, Hh. simpl. split; [ reflexivity | ].
    split; [ now apply Hheadprev | ].
    rewrite (Hnexts h Hhc).
    apply dlseg_agree with (next := ctx_next st) (prev := ctx_prev st); [ | exact Hl ].
    intros x Hx. inversion Hnd as [ | ? ? Hh_notin _]; subst.
    assert (Hxc : x <> context) by (intros ->; apply Hnotin; now right).
    assert (Hxh : x <> h) by (intros ->; contradiction).
    split; [ now apply Hnexts | apply Hprevs; [ exact Hxc | rewrite Hh; congruence ] ].
Qed.

Lemma loop_unlink_head_run {W} (context : nat) (st : state W) :
  head (data st) = Some context ->
  result_of (us_internal_loop_unlink context st) = Done tt
  /\ head (data (state_of (us_internal_loop_unlink context st))) = ctx_next st context
  /\ (forall c, ctx_next (state_of (us_internal_loop_unlink context st)) c = ctx_next st c)
  /\ (forall c, ctx_next st context <> Some c ->
        ctx_prev (state_of (us_internal_loop_unlink context st)) c = ctx_prev st c)
  /\ (forall n, ctx_next st context = Some n ->
        ctx_prev (state_of (us_internal_loop_unlink context st)) n = None)
  /\ (forall c, ctx_ticks (state_of (us_internal_loop_unlink context st)) c = ctx_ticks st c).
Proof.
  intros Hh. unfold us_internal_loop_unlink. step_run. rewrite Hh.
  cbn [ptr_eqb]. rewrite Nat.eqb_refl. step_run. cbn [with_data data head data_set_head].
  unfold ctx_next, ctx_prev, ctx_ticks in *.
  destruct (c_next (contexts st context)) as [n | ] eqn:Hn;
    unfold modify, ret, result_of, state_of, trace_of;
    cbn [fst snd contexts data with_context with_data head data_set_head];
    repeat split; intros; unfold upd; eqb_cases.
Qed.

Lemma loop_unlink_inner_run {W} (context p : nat) (st : state W) :
  head (data st) <> Some context ->
  ctx_prev st context = Some p ->
  result_of (us_internal_loop_unlink context st) = Done tt
  /\ head (data (state_of (us_internal_loop_unlink context st))) = head (data st)
  /\ ctx_next (state_of (us_internal_loop_unlink context st)) p = ctx_next st context
  /\ (forall c, c <> p ->
        ctx_next (state_of (us_internal_loop_unlink context st)) c = ctx_next st c)
  /\ (forall c, ctx_next st context <> Some c ->
        ctx_prev (state_of (us_internal_loop_unlink context st)) c = ctx_prev st c)
  /\ (forall n, ctx_next st context = Some n ->
        ctx_prev (state_of (us_internal_loop_unlink context st)) n = Some p)
  /\ (forall c, ctx_ticks (state_of (us_internal_loop_unlink context st)) c = ctx_ticks st c).
Proof.
  intros Hh Hp. unfold us_internal_loop_unlink. step_run.
  assert (Hne : ptr_eqb (head (data st)) (Some context) = false).
  { destruct (head (data st)) as [h | ]; [ | reflexivity ]. cbn.
    apply Nat.eqb_neq. congruence. }
  rewrite Hne. step_run. unfold ctx_next, ctx_prev, ctx_ticks in *. rewrite Hp.
  step_run. cbn [with_context contexts].
  assert (Hnx : c_next (upd (contexts st) p
                            (ctx_set_next (c_next (contexts st context)) (contexts st p))
                            context)
                = c_next (contexts st context)).
  { unfold upd. eqb_cases. }
  rewrite Hnx.
  destruct (c_next (contexts st context)) as [n | ] eqn:Hn;
    unfold modify, ret, result_of, state_of, trace_of;
    cbn [fst snd contexts data with_context with_data head data_set_head];
    repeat split; intros; unfold upd; eqb_cases.
Qed.

Lemma NoDup_app_cons_inv {A} (l1 l2 : list A) a :
  NoDup (l1 ++ a :: l2) ->
  ~ In a l1 /\ ~ In a l2 /\ NoDup l1 /\ NoDup l2 /\ (forall x, In x l1 -> ~ In x l2).
Proof.
  induction l1 as [ | b l1 IH]; simpl; intros H.
  - inversion H; subst. repeat split; try assumption; try constructor; tauto.
  - inversion H as [ | ? ? Hb Hnd]; subst. destruct (IH Hnd) as (H1 & H2 & H3 & H4 & H5).
    rewrite in_app_iff in Hb. simpl in Hb.
    repeat split.
    + intros [-> | Hin]; tauto.
    + exact H2.
    + constructor; tauto.
    + exact H4.
    + intros x [-> | Hx]; [ tauto | now apply H5 ].
Qed.

Lemma loop_unlink_list {W} (context : nat) (l1 l2 : list nat) (st : state W) :
  contexts_linked st (l1 ++ context :: l2) ->
  result_of (us_internal_loop_unlink context st) = Done tt
  /\ contexts_linked (state_of (us_internal_loop_unlink context st)) (l1 ++ l2)
  /\ forall c, ctx_ticks (state_of (us_internal_loop_unlink context st)) c = ctx_ticks st c.
Proof.
  intros Hl.
  pose proof (chain_NoDup _ _ _ (dlseg_chain _ _ _ _ _ Hl)) as Hnd.
  destruct (NoDup_app_cons_inv _ _ _ Hnd) as (Hc1 & Hc2 & Hnd1 & Hnd2 & Hdisj).
  unfold contexts_linked in *.
  apply dlseg_app in Hl. destruct Hl as (mid & Hseg1 & Hseg2).
  simpl in Hseg2. destruct Hseg2 as (Hmid & Hprev & Hseg2). subst mid.
  set (st' := state_of (us_internal_loop_unlink context st)).
  assert (Htail : forall before,
             (forall x, In x l2 ->
                        ctx_next st' x = ctx_next st x) ->
             (forall x, In x l2 -> ctx_next st context <> Some x ->
                        ctx_prev st' x = ctx_prev st x) ->
             (forall n, ctx_next st context = Some n -> ctx_prev st' n = before) ->
             dlseg (ctx_next st') (ctx_prev st') before (ctx_next st context) l2 None).
  { intros before Hn Hp Hfirst. destruct l2 as [ | n l2']; simpl in *; [ exact Hseg2 | ].
    destruct Hseg2 as (Hnc & Hpn & Hseg2).
    split; [ exact Hnc | ]. split; [ now apply Hfirst | ].
    rewrite (Hn n (or_introl eq_refl)).
    apply dlseg_agree with (next := ctx_next st) (prev := ctx_prev st); [ | exact Hseg2 ].
    intros x Hx. inversion Hnd2 as [ | ? ? Hn_notin _]; subst.
    split; [ apply Hn; now right | ].
    apply Hp; [ now right | ]. rewrite Hnc. intros [= ->]. contradiction. }
  destruct l1 as [ | x1 l1'] using rev_ind.
  - simpl in *.
    destruct (loop_unlink_head_run context st Hseg1) as (Hr & Hh & Hn & Hp & Hf & Ht).
    fold st' in Hh, Hn, Hp, Hf, Ht.
    split; [ exact Hr | split; [ | exact Ht ] ].
    rewrite Hh. apply Htail; auto.
  - clear IHl1'. rewrite rev_unit in Hprev.
    apply dlseg_app in Hseg1. destruct Hseg1 as (mid & Hseg1 & Hlast).
    simpl in Hlast. destruct Hlast as (Hmid & Hprev1 & Hnext1). subst mid.
    assert (Hx1c : x1 <> context) by (intros ->; apply Hc1; apply in_or_app; right; now left).
    assert (Hhead : head (data st) <> Some context).
    { destruct l1' as [ | y l1'']; simpl in Hseg1.
      - rewrite Hseg1. congruence.
      - destruct Hseg1 as (Hy & _). rewrite Hy. intros [= ->].
        apply Hc1. now left. }
    destruct (loop_unlink_inner_run context x1 st Hhead Hprev)
      as (Hr & Hh & Hnp & Hn & Hp & Hf & Ht).
    fold st' in Hh, Hnp, Hn, Hp, Hf, Ht.
    split; [ exact Hr | split; [ | exact Ht ] ].
    apply NoDup_app_remove_r in Hnd1 as Hnd1'.
    assert (Hx1_notin : ~ In x1 l1').
    { apply NoDup_remove_2 with (l' := []) in Hnd1. now rewrite app_nil_r in Hnd1. }
    apply dlseg_app. exists (ctx_next st context). split.
    + apply dlseg_app. exists (Some x1). split.
      * rewrite Hh.
        apply dlseg_agree with (next := ctx_next st) (prev := ctx_prev st); [ | exact Hseg1 ].
        intros x Hx. split.
        -- apply Hn. intros ->. contradiction.
        -- apply Hp. intros Hnx.
           destruct l2 as [ | n l2']; simpl in Hseg2; [ congruence | ].
           destruct Hseg2 as (Hnc & _). rewrite Hnc in Hnx. injection Hnx as ->.
           apply (Hdisj x); [ apply in_or_app; now left | now left ].
      * simpl. split; [ reflexivity | ]. split; [ | exact Hnp ].
        rewrite <- Hprev1. apply Hp. intros Hnx.
        destruct l2 as [ | n l2']; simpl in Hseg2; [ congruence | ].
        destruct Hseg2 as (Hnc & _). rewrite Hnc in Hnx. injection Hnx as ->.
        apply (Hdisj x1); [ apply in_or_app; right; now left | now left ].
    + rewrite rev_unit. apply Htail.
      * intros x Hx. apply Hn. intros ->.
        apply (Hdisj x1); [ apply in_or_app; right; now left | exact Hx ].
      * intros x _ Hx. now apply Hp.
      * exact Hf.
Qed.
(** X1.  us_internal_loop_link puts the context at the head of the loop's
    list of contexts: when the contexts of the loop form the properly
    doubly-linked list l and the context is not one of them, they form the
    list context :: l afterwards, again properly linked both ways; no
    context's tick, stamps or sockets are touched. *)
Theorem loop_link_prepends {W} (context : nat) (l : list nat) (st : state W) :
  contexts_linked st l ->
  ~ In context l ->
  result_of (us_internal_loop_link context st) = Done tt
  /\ contexts_linked (state_of (us_internal_loop_link context st)) (context :: l)
  /\ forall c, ctx_ticks (state_of (us_internal_loop_link context st)) c = ctx_ticks st c
               /\ head_sockets (contexts (state_of (us_internal_loop_link context st)) c)
                  = head_sockets (contexts st c).
Proof. apply loop_link_list. Qed.

Lemma loop_link_prepends_witness :
  contexts_linked (state_of (us_internal_loop_link 5 sim_armed)) [5%nat; 0%nat; 1%nat].
Proof.
  refine (proj1 (proj2 (loop_link_prepends 5 [0%nat; 1%nat] sim_armed _ _))).
  - unfold contexts_linked. simpl. repeat split; reflexivity.
  - simpl. intuition discriminate.
Defined.

(** X2.  us_internal_loop_unlink takes the context out of the loop's list
    of contexts wherever it stands: when the contexts form the properly
    doubly-linked list l1 ++ context :: l2, they form l1 ++ l2 afterwards,
    again properly linked both ways, and no context's tick or stamps are
    touched. *)
Theorem loop_unlink_removes {W} (context : nat) (l1 l2 : list nat) (st : state W) :
  contexts_linked st (l1 ++ context :: l2) ->
  result_of (us_internal_loop_unlink context st) = Done tt
  /\ contexts_linked (state_of (us_internal_loop_unlink context st)) (l1 ++ l2)
  /\ forall c, ctx_ticks (state_of (us_internal_loop_unlink context st)) c = ctx_ticks st c.
Proof. apply loop_unlink_list. Qed.

Lemma loop_unlink_removes_witness :
  contexts_linked (state_of (us_internal_loop_unlink 1 sim_armed)) ([0%nat] ++ [])
  /\ contexts_linked (state_of (us_internal_loop_unlink 0 sim_armed)) ([] ++ [1%nat]).
Proof.
  split.
  - refine (proj1 (proj2 (loop_unlink_removes 1 [0%nat] [] sim_armed _))).
    unfold contexts_linked. simpl. repeat split; reflexivity.
  - refine (proj1 (proj2 (loop_unlink_removes 0 [] [1%nat] sim_armed _))).
    unfold contexts_linked. simpl. repeat split; reflexivity.
Defined.

(** X3.  Linking a context and unlinking it again gives back the list of
    contexts the loop had, properly linked; unlinking a context that is not
    at the head and has no predecessor recorded dereferences a null
    pointer. *)
Theorem loop_link_unlink_round_trip {W} (context : nat) (l : list nat) (st : state W) :
  contexts_linked st l ->
  ~ In context l ->
  result_of ((us_internal_loop_link context ;; us_internal_loop_unlink context) st) = Done tt
  /\ contexts_linked
       (state_of ((us_internal_loop_link context ;; us_internal_loop_unlink context) st)) l
  /\ (forall st0 : state W,
        head (data st0) <> Some context -> ctx_prev st0 context = None ->
        result_of (us_internal_loop_unlink context st0) = Stuck NullDereference).
Proof.
  intros Hl Hnotin.
  destruct (loop_link_list context l st Hl Hnotin) as (Hr & Hl' & _).
  destruct (loop_link_run context st) as (_ & Ht & _).
  rewrite lin_bind, Hr. open_prefixed.
  destruct (loop_unlink_list context [] l _ Hl') as (Hr2 & Hl2 & _).
  split; [ exact Hr2 | split; [ exact Hl2 | ] ].
  intros st0 Hh Hp. unfold us_internal_loop_unlink. step_run.
  assert (Hne : ptr_eqb (head (data st0)) (Some context) = false).
  { destruct (head (data st0)) as [h | ]; [ | reflexivity ]. cbn.
    apply Nat.eqb_neq. congruence. }
  rewrite Hne. step_run. unfold ctx_prev in Hp. rewrite Hp. reflexivity.
Qed.

Lemma loop_link_unlink_round_trip_witness :
  contexts_linked
    (state_of ((us_internal_loop_link 5 ;; us_internal_loop_unlink 5) sim_armed))
    [0%nat; 1%nat].
Proof.
  refine (proj1 (proj2 (loop_link_unlink_round_trip 5 [0%nat; 1%nat] sim_armed _ _))).
  - unfold contexts_linked. simpl. repeat split; reflexivity.
  - simpl. intuition discriminate.
Defined.

(** ** The sweep timer's reference count *)

Section SweepTimerCount.
Context {W : Type}.
Variable us_timer_set : Z -> Z -> state W -> state W.
Variable granularity : Z.
Variable timer_of : W -> Z * Z.

Hypothesis timer_set_sets : forall ms repeat_ms st,
    timer_of (world (us_timer_set ms repeat_ms st)) = (ms, repeat_ms).
Hypothesis timer_set_keeps_count : forall ms repeat_ms st,
    sweep_timer_count (data (us_timer_set ms repeat_ms st)) = sweep_timer_count (data st).

Lemma enable_sweep_timer_run st :
  sweep_timer_in_step timer_of granularity st ->
  result_of (us_internal_enable_sweep_timer us_timer_set granularity st) = Done tt
  /\ sweep_timer_count
       (data (state_of (us_internal_enable_sweep_timer us_timer_set granularity st)))
     = sweep_timer_count (data st) + 1
  /\ sweep_timer_in_step timer_of granularity
       (state_of (us_internal_enable_sweep_timer us_timer_set granularity st)).
Proof.
  intros [Hpos Htimer]. unfold us_internal_enable_sweep_timer, sweep_timer_in_step.
  step_run.
  destruct (sweep_timer_count (data st) =? 0) eqn:Hz; step_run;
    unfold modify, ret, result_of, state_of; cbn [fst snd data with_data world
                                                    sweep_timer_count data_set_sweep_timer_count].
  - rewrite timer_set_keeps_count, timer_set_sets. apply Z.eqb_eq in Hz. rewrite Hz.
    repeat split; try lia.
  - apply Z.eqb_neq in Hz.
    assert (Hnz : (sweep_timer_count (data st) + 1 =? 0) = false) by (apply Z.eqb_neq; lia).
    rewrite Hnz. repeat split; try lia. exact Htimer.
Qed.

Lemma disable_sweep_timer_run st :
  sweep_timer_in_step timer_of granularity st ->
  0 < sweep_timer_count (data st) ->
  result_of (us_internal_disable_sweep_timer us_timer_set st) = Done tt
  /\ sweep_timer_count (data (state_of (us_internal_disable_sweep_timer us_timer_set st)))
     = sweep_timer_count (data st) - 1
  /\ sweep_timer_in_step timer_of granularity
       (state_of (us_internal_disable_sweep_timer us_timer_set st)).
Proof.
  intros [Hpos Htimer] Hused. unfold us_internal_disable_sweep_timer, sweep_timer_in_step.
  step_run. cbn [data with_data sweep_timer_count data_set_sweep_timer_count].
  destruct (sweep_timer_count (data st) - 1 =? 0) eqn:Hz;
    unfold modify, ret, result_of, state_of; cbn [fst snd data with_data world
                                                    sweep_timer_count data_set_sweep_timer_count].
  - rewrite timer_set_keeps_count, timer_set_sets.
    cbn [data with_data sweep_timer_count data_set_sweep_timer_count]. rewrite Hz.
    repeat split; lia.
  - rewrite Hz. repeat split; try lia.
    assert (Hnz : (sweep_timer_count (data st) =? 0) = false) by (apply Z.eqb_neq; lia).
    rewrite Hnz in Htimer. exact Htimer.
Qed.

Lemma sweep_timer_requests_run ops :
  forall st,
    sweep_timer_in_step timer_of granularity st ->
    never_overdrawn (sweep_timer_count (data st)) ops ->
    result_of (sweep_timer_requests us_timer_set granularity ops st) = Done tt
    /\ sweep_timer_count
         (data (state_of (sweep_timer_requests us_timer_set granularity ops st)))
       = sweep_timer_count (data st) + net_users ops
    /\ sweep_timer_in_step timer_of granularity
         (state_of (sweep_timer_requests us_timer_set granularity ops st)).
Proof.
  induction ops as [ | [ | ] ops IH]; intros st Hinv Hok; cbn [sweep_timer_requests].
  - unfold ret, result_of, state_of. cbn [fst snd net_users]. repeat split; try lia.
    + apply Hinv.
    + apply Hinv.
  - destruct (enable_sweep_timer_run st Hinv) as (Hr & Hc & Hinv1).
    rewrite lin_bind, Hr. open_prefixed.
    cbn [never_overdrawn] in Hok. rewrite <- Hc in Hok.
    destruct (IH _ Hinv1 Hok) as (Hr2 & Hc2 & Hinv2).
    split; [ exact Hr2 | split; [ | exact Hinv2 ] ].
    rewrite Hc2, Hc. cbn [net_users]. lia.
  - cbn [never_overdrawn] in Hok. destruct Hok as [Hused Hok].
    destruct (disable_sweep_timer_run st Hinv Hused) as (Hr & Hc & Hinv1).
    rewrite lin_bind, Hr. open_prefixed.
    rewrite <- Hc in Hok.
    destruct (IH _ Hinv1 Hok) as (Hr2 & Hc2 & Hinv2).
    split; [ exact Hr2 | split; [ | exact Hinv2 ] ].
    rewrite Hc2, Hc. cbn [net_users]. lia.
Qed.
End SweepTimerCount.

(** X4.  The sweep timer follows its users: through any sequence of
    us_internal_enable_sweep_timer and us_internal_disable_sweep_timer
    calls in which no disable comes without an earlier enable, the count
    ends at its start plus enables minus disables, and the timer is set to
    fire every LIBUS_TIMEOUT_GRANULARITY seconds exactly when the count is
    not zero, and is off when it is zero.  us_timer_set sets the timer and
    leaves the count alone. *)
Theorem sweep_timer_follows_users {W} (us_timer_set : Z -> Z -> state W -> state W)
        (granularity : Z) (timer_of : W -> Z * Z) (ops : list bool) (st : state W) :
  (forall ms repeat_ms st, timer_of (world (us_timer_set ms repeat_ms st)) = (ms, repeat_ms)) ->
  (forall ms repeat_ms st,
      sweep_timer_count (data (us_timer_set ms repeat_ms st)) = sweep_timer_count (data st)) ->
  sweep_timer_in_step timer_of granularity st ->
  never_overdrawn (sweep_timer_count (data st)) ops ->
  result_of (sweep_timer_requests us_timer_set granularity ops st) = Done tt
  /\ sweep_timer_count (data (state_of (sweep_timer_requests us_timer_set granularity ops st)))
     = sweep_timer_count (data st) + net_users ops
  /\ sweep_timer_in_step timer_of granularity
       (state_of (sweep_timer_requests us_timer_set granularity ops st)).
Proof. intros H1 H2. now apply sweep_timer_requests_run. Qed.

Lemma sweep_timer_follows_users_witness :
  world (state_of (sweep_timer_requests timer_set_world 4 [true; true; false] timer_state0))
  = (4000, 4000)
  /\ world (state_of (sweep_timer_requests timer_set_world 4 [true; true; false; false]
                                            timer_state0))
     = (0, 0)
  /\ sweep_timer_in_step (fun w => w) 4
       (state_of (sweep_timer_requests timer_set_world 4 [true; true; false; false]
                                       timer_state0)).
Proof.
  split; [ reflexivity | split; [ reflexivity | ] ].
  refine (proj2 (proj2 (sweep_timer_follows_users timer_set_world 4 (fun w => w)
                          [true; true; false; false] timer_state0 _ _ _ _))).
  - intros; reflexivity.
  - intros; reflexivity.
  - split; [ simpl; lia | reflexivity ].
  - simpl. lia.
Defined.

(** ** Deferred destruction *)

Lemma free_chain_run {W} (next : state W -> nat -> ptr) (f : nat -> state W -> state W)
      (ev : nat -> event) :
  (forall x y st, y <> x -> next (f x st) y = next st y) ->
  forall l fuel h st,
    chain (next st) h l -> (length l <= fuel)%nat ->
    free_chain fuel next (fun x => call_ (fun _ => ev x) (f x)) h st
    = (Done tt, free_all f l st, map ev l).
Proof.
  intros Hframe l. induction l as [ | x l IH]; intros fuel h st Hc Hfuel.
  - simpl in Hc. subst h. destruct fuel; reflexivity.
  - pose proof (chain_NoDup _ _ _ Hc) as Hnd. destruct Hc as [-> Hc].
    destruct fuel as [ | fuel]; [ simpl in Hfuel; lia | ].
    cbn [free_chain]. rewrite run_gets_bind, lin_call__bind.
    rewrite (IH fuel (next st x) (f x st)).
    + reflexivity.
    + apply chain_agree with (next := next st); [ | exact Hc ].
      intros y Hy. apply Hframe. inversion Hnd; subst. intros ->. contradiction.
    + simpl in Hfuel. lia.
Qed.

Lemma bind_done {W A B} (m : M W A) (k : A -> M W B) st a st1 t1 :
  m st = (Done a, st1, t1) -> bind m k st = prefixed t1 (k a st1).
Proof. intros H. rewrite lin_bind, H. reflexivity. Qed.

Lemma free_all_keeps {W A} (f : nat -> state W -> state W) (g : state W -> A) l :
  (forall x st, In x l -> g (f x st) = g st) ->
  forall st, g (free_all f l st) = g st.
Proof.
  unfold free_all. induction l as [ | x l IH]; intros H st; simpl; [ reflexivity | ].
  rewrite IH; [ apply H; now left | ]. intros y st' Hy. apply H. now right.
Qed.

(** X5.  us_internal_free_closed_sockets frees every object parked on the
    loop's three closed lists exactly once, in list order: the closed
    sockets and then the closed UDP sockets through us_poll_free, then the
    closed connecting sockets through us_free.  The link of each object is
    read before the object is freed, so freeing may destroy it; it leaves
    the links of the objects not yet freed and the loop's data alone.  The
    three lists are empty afterwards. *)
Theorem free_closed_sockets_frees_each_once {W} (E : env W) (fuel : nat) (st : state W)
        (l1 l2 l3 : list nat) :
  (forall x st, data (us_poll_free E x st) = data st) ->
  (forall x st, data (us_free E x st) = data st) ->
  (forall x y st, y <> x ->
     s_next (sockets (us_poll_free E x st) y) = s_next (sockets st y)
     /\ u_next (udp_sockets (us_poll_free E x st) y) = u_next (udp_sockets st y)
     /\ cs_next (connecting (us_poll_free E x st) y) = cs_next (connecting st y)) ->
  (forall x y st, y <> x ->
     cs_next (connecting (us_free E x st) y) = cs_next (connecting st y)) ->
  chain (fun s => s_next (sockets st s)) (closed_head (data st)) l1 ->
  chain (fun u => u_next (udp_sockets st u)) (closed_udp_head (data st)) l2 ->
  chain (fun c => cs_next (connecting st c)) (closed_connecting_head (data st)) l3 ->
  (forall x, In x l1 -> ~ In x l2 /\ ~ In x l3) ->
  (forall x, In x l2 -> ~ In x l3) ->
  (length l1 <= fuel)%nat -> (length l2 <= fuel)%nat -> (length l3 <= fuel)%nat ->
  result_of (us_internal_free_closed_sockets E fuel st) = Done tt
  /\ trace_of (us_internal_free_closed_sockets E fuel st)
     = map EvPollFree l1 ++ map EvPollFree l2 ++ map EvFree l3
  /\ closed_head (data (state_of (us_internal_free_closed_sockets E fuel st))) = None
  /\ closed_udp_head (data (state_of (us_internal_free_closed_sockets E fuel st))) = None
  /\ closed_connecting_head (data (state_of (us_internal_free_closed_sockets E fuel st)))
     = None.
Proof.
  intros Hdata Hdata' Hpoll Hfree Hc1 Hc2 Hc3 Hd12 Hd23 Hf1 Hf2 Hf3.
  unfold us_internal_free_closed_sockets. rewrite run_gets_bind.
  rewrite (bind_done _ _ _ _ _ _
             (free_chain_run (fun st x => s_next (sockets st x)) (us_poll_free E) EvPollFree
                (fun x y st' Hxy => proj1 (Hpoll x y st' Hxy)) l1 fuel _ st Hc1 Hf1)).
  set (st1 := free_all (us_poll_free E) l1 st).
  assert (Hd1 : data st1 = data st).
  { apply (free_all_keeps (us_poll_free E) data). intros; apply Hdata. }
  rewrite run_modify_bind, run_gets_bind.
  set (st1' := with_data (data_set_closed_head None) st1).
  assert (Hc2' : chain (fun u => u_next (udp_sockets st1' u)) (closed_udp_head (data st1')) l2).
  { change (closed_udp_head (data st1')) with (closed_udp_head (data st1)). rewrite Hd1.
    apply chain_agree with (next := fun u => u_next (udp_sockets st u)); [ | exact Hc2 ].
    intros y Hy. change (udp_sockets st1' y) with (udp_sockets st1 y).
    apply (free_all_keeps (us_poll_free E) (fun s => u_next (udp_sockets s y))).
    intros x s' Hx. apply Hpoll. intros Heq. subst y.
    destruct (Hd12 x Hx) as [Hn _]. contradiction. }
  rewrite (bind_done _ _ _ _ _ _
             (free_chain_run (fun st x => u_next (udp_sockets st x)) (us_poll_free E) EvPollFree
                (fun x y st' Hxy => proj1 (proj2 (Hpoll x y st' Hxy))) l2 fuel _ st1' Hc2' Hf2)).
  set (st2 := free_all (us_poll_free E) l2 st1').
  assert (Hd2 : data st2 = data st1').
  { apply (free_all_keeps (us_poll_free E) data). intros; apply Hdata. }
  rewrite run_modify_bind, run_gets_bind.
  set (st2' := with_data (data_set_closed_udp_head None) st2).
  assert (Hc3' : chain (fun c => cs_next (connecting st2' c))
                       (closed_connecting_head (data st2')) l3).
  { change (closed_connecting_head (data st2')) with (closed_connecting_head (data st2)).
    rewrite Hd2. change (closed_connecting_head (data st1'))
      with (closed_connecting_head (data st1)). rewrite Hd1.
    apply chain_agree with (next := fun c => cs_next (connecting st c)); [ | exact Hc3 ].
    intros y Hy. change (connecting st2' y) with (connecting st2 y).
    unfold st2.
    rewrite (free_all_keeps (us_poll_free E) (fun s => cs_next (connecting s y))).
    - change (connecting st1' y) with (connecting st1 y). unfold st1.
      apply (free_all_keeps (us_poll_free E) (fun s => cs_next (connecting s y))).
      intros x s' Hx. apply Hpoll. intros Heq. subst y.
      destruct (Hd12 x Hx) as [_ Hn]. contradiction.
    - intros x s' Hx. apply Hpoll. intros Heq. subst y.
      exact (Hd23 x Hx Hy). }
  rewrite (bind_done _ _ _ _ _ _
             (free_chain_run (fun st x => cs_next (connecting st x)) (us_free E) EvFree
                Hfree l3 fuel _ st2' Hc3' Hf3)).
  set (st3 := free_all (us_free E) l3 st2').
  assert (Hd3 : data st3 = data st2').
  { apply (free_all_keeps (us_free E) data). intros; apply Hdata'. }
  unfold modify, prefixed, result_of, state_of, trace_of. cbn [fst snd].
  rewrite app_nil_r. split; [ reflexivity | split; [ reflexivity | ] ].
  cbn [data with_data closed_head closed_udp_head closed_connecting_head
       data_set_closed_connecting_head].
  rewrite Hd3. unfold st2'.
  cbn [data with_data closed_head closed_udp_head data_set_closed_udp_head].
  rewrite Hd2. unfold st1'. cbn [data with_data closed_head data_set_closed_head].
  repeat split.
Qed.

Lemma free_closed_sockets_frees_each_once_witness :
  trace_of (us_internal_free_closed_sockets sim 2 sim_closed)
  = map EvPollFree [1%nat; 2%nat] ++ map EvPollFree [3%nat] ++ map EvFree [4%nat; 5%nat].
Proof.
  refine (proj1 (proj2 (free_closed_sockets_frees_each_once sim 2 sim_closed
                          [1%nat; 2%nat] [3%nat] [4%nat; 5%nat]
                          _ _ _ _ _ _ _ _ _ _ _ _))).
  - intros; reflexivity.
  - intros; reflexivity.
  - intros; repeat split; reflexivity.
  - intros; reflexivity.
  - simpl. repeat split; reflexivity.
  - simpl. repeat split; reflexivity.
  - simpl. repeat split; reflexivity.
  - simpl. intros x [<- | [<- | []]]; intuition discriminate.
  - simpl. intros x [<- | []]; intuition discriminate.
  - simpl. lia.
  - simpl. lia.
  - simpl. lia.
Defined.

(** ** More on the DNS hand-off list *)

Section DnsOnce.
Context {W : Type} (E : env W).

Hypothesis resolve_frame : forall c c' st,
    c' <> c -> conn_next (us_internal_socket_after_resolve E c st) c' = conn_next st c'.
Hypothesis resolve_keeps_head : forall c st,
    dns_ready_head (data (us_internal_socket_after_resolve E c st)) = dns_ready_head (data st).

Lemma drain_keeps_head fuel :
  forall s st,
    dns_ready_head (data (state_of (us_internal_drain_pending_dns_resolve E fuel s st)))
    = dns_ready_head (data st).
Proof.
  induction fuel as [ | fuel IH]; intros [c | ] st;
    cbn [us_internal_drain_pending_dns_resolve]; try reflexivity.
  rewrite run_gets_bind, lin_call__bind. open_prefixed. rewrite IH.
  apply resolve_keeps_head.
Qed.

Lemma handle_dns_results_run fuel st l :
  chain (conn_next st) (dns_ready_head (data st)) l ->
  (length l <= fuel)%nat ->
  result_of (us_internal_handle_dns_results E fuel st)
  = Done (match l with [] => false | _ => true end)
  /\ trace_of (us_internal_handle_dns_results E fuel st)
     = EvLock :: EvUnlock :: map EvAfterResolve l
  /\ dns_ready_head (data (state_of (us_internal_handle_dns_results E fuel st))) = None.
Proof.
  intros Hc Hfuel.
  pose proof (chain_NoDup _ _ _ Hc) as Hnd.
  unfold us_internal_handle_dns_results.
  rewrite lin_emit_bind, run_gets_bind, run_modify_bind, lin_emit_bind.
  set (st1 := with_data (data_set_dns_ready_head None) st).
  destruct (drain_follows_chain E resolve_frame l fuel (dns_ready_head (data st)) st1 Hc Hnd
              Hfuel) as [Hr Ht].
  pose proof (drain_keeps_head fuel (dns_ready_head (data st)) st1) as Hh.
  rewrite lin_bind, Hr. open_prefixed. rewrite Ht.
  unfold ret, result_of, state_of, trace_of in *. cbn [fst snd app] in *.
  rewrite app_nil_r. split; [ | split; [ reflexivity | exact Hh ] ].
  f_equal. destruct l as [ | x l']; simpl in Hc.
  - rewrite Hc. reflexivity.
  - destruct Hc as [-> _]. reflexivity.
Qed.
End DnsOnce.

(** X6.  us_internal_handle_dns_results delivers each pending DNS result
    exactly once.  For the connecting sockets l on the DNS-ready list, head
    first, it takes the lock, detaches the list and releases the lock, then
    resolves exactly the sockets of l in list order and returns whether l
    was not empty; the list is empty afterwards, so that a second call
    right after it resolves nothing and returns 0.  The resolve step leaves
    the links of the other pending sockets and the list head alone. *)
Theorem dns_results_delivered_once {W} (E : env W) (fuel : nat) (st : state W)
        (l : list nat) :
  (forall c c' st, c' <> c ->
     conn_next (us_internal_socket_after_resolve E c st) c' = conn_next st c') ->
  (forall c st,
     dns_ready_head (data (us_internal_socket_after_resolve E c st))
     = dns_ready_head (data st)) ->
  chain (conn_next st) (dns_ready_head (data st)) l ->
  (length l <= fuel)%nat ->
  let first := us_internal_handle_dns_results E fuel st in
  let second := us_internal_handle_dns_results E fuel (state_of first) in
  result_of first = Done (match l with [] => false | _ => true end)
  /\ trace_of first = EvLock :: EvUnlock :: map EvAfterResolve l
  /\ result_of second = Done false
  /\ trace_of second = [EvLock; EvUnlock].
Proof.
  intros Hframe Hhead Hc Hfuel first second.
  destruct (handle_dns_results_run E Hframe Hhead fuel st l Hc Hfuel) as (Hr & Ht & Hh).
  split; [ exact Hr | split; [ exact Ht | ] ].
  destruct (handle_dns_results_run E Hframe Hhead fuel (state_of first) []) as (Hr2 & Ht2 & _).
  - simpl. exact Hh.
  - simpl. lia.
  - split; assumption.
Qed.

Lemma dns_results_delivered_once_witness :
  let st := state_of (dns_push_all sim [(1%nat, 10, false); (2%nat, 20, true)]
                                   (sim_state0 sim_world0)) in
  let first := us_internal_handle_dns_results sim 2 st in
  let second := us_internal_handle_dns_results sim 2 (state_of first) in
  result_of first = Done true
  /\ trace_of first = EvLock :: EvUnlock :: map EvAfterResolve [2%nat; 1%nat]
  /\ result_of second = Done false
  /\ trace_of second = [EvLock; EvUnlock].
Proof.
  cbv zeta.
  refine (dns_results_delivered_once sim 2 _ [2%nat; 1%nat] _ _ _ _).
  - intros; reflexivity.
  - intros; reflexivity.
  - simpl. repeat split; reflexivity.
  - simpl. lia.
Defined.

(** X7.  A pushed DNS result keeps its request: after any sequence of
    pushes of distinct connecting sockets through us_internal_dns_callback
    or us_internal_dns_callback_threadsafe, each pushed socket holds the
    addrinfo request it was pushed with, and the sockets that were not
    pushed hold what they held.  The wake-up leaves the connecting sockets
    alone. *)
Theorem dns_push_keeps_request {W} (E : env W) (ps : list (nat * Z * bool)) (st : state W) :
  (forall c st, connecting (us_internal_async_wakeup E st) c = connecting st c) ->
  NoDup (map pushed_socket ps) ->
  (forall c req b, In (c, req, b) ps ->
     addrinfo_req (connecting (state_of (dns_push_all E ps st)) c) = req)
  /\ (forall c, ~ In c (map pushed_socket ps) ->
        connecting (state_of (dns_push_all E ps st)) c = connecting st c).
Proof.
  intros Hwake. revert st.
  assert (Hstep : forall p st,
             result_of (dns_push E p st) = Done tt
             /\ addrinfo_req (connecting (state_of (dns_push E p st)) (pushed_socket p))
                = snd (fst p)
             /\ forall c, c <> pushed_socket p ->
                          connecting (state_of (dns_push E p st)) c = connecting st c).
  { assert (Hplain : forall c req (st : state W),
               result_of (us_internal_dns_callback c req st) = Done tt
               /\ addrinfo_req (connecting (state_of (us_internal_dns_callback c req st)) c)
                  = req
               /\ forall c', c' <> c ->
                    connecting (state_of (us_internal_dns_callback c req st)) c'
                    = connecting st c').
    { intros c req st0. unfold us_internal_dns_callback. step_lin. open_prefixed.
      unfold emit, result_of, state_of. cbn [fst snd].
      repeat split.
      - cbn. rewrite !upd_same. reflexivity.
      - intros c' Hc'. cbn. now rewrite !upd_other by exact Hc'. }
    intros [[c req] [ | ]] st; unfold pushed_socket; cbn [fst snd dns_push].
    - destruct (Hplain c req st) as (Hr & Ha & Ho).
      unfold us_internal_dns_callback_threadsafe, us_wakeup_loop.
      rewrite lin_bind, Hr. open_prefixed. unfold call_, result_of, state_of. cbn [fst snd].
      repeat split.
      + rewrite Hwake. exact Ha.
      + intros c' Hc'. rewrite Hwake. now apply Ho.
    - apply Hplain. }
  induction ps as [ | p ps IH]; intros st Hnd; cbn [dns_push_all].
  - split; [ intros c req b [] | intros c _; reflexivity ].
  - inversion Hnd as [ | ? ? Hnotin Hnd']; subst.
    destruct (Hstep p st) as (Hr & Ha & Hother).
    rewrite lin_bind, Hr. open_prefixed.
    destruct (IH (state_of (dns_push E p st)) Hnd') as [IHin IHout].
    split.
    + intros c req b [Heq | Hin].
      * subst p. unfold pushed_socket in *. cbn [fst snd] in *.
        rewrite IHout; [ exact Ha | exact Hnotin ].
      * now apply IHin with (b := b).
    + intros c Hc. cbn [map In] in Hc.
      rewrite IHout by (intros Hin; apply Hc; now right).
      apply Hother. intros Heq. apply Hc. left. now symmetry.
Qed.

Lemma dns_push_keeps_request_witness :
  addrinfo_req (connecting (state_of (dns_push_all sim [(1%nat, 10, false); (2%nat, 20, true)]
                                                   (sim_state0 sim_world0))) 1) = 10.
Proof.
  refine (proj1 (dns_push_keeps_request sim [(1%nat, 10, false); (2%nat, 20, true)]
                   (sim_state0 sim_world0) _ _) 1%nat 10 false _).
  - intros; reflexivity.
  - simpl. repeat constructor; simpl; intuition discriminate.
  - simpl. now left.
Defined.

(** ** The order of the low-priority queue *)

Lemma promoted_app t1 t2 : promoted (t1 ++ t2) = promoted t1 ++ promoted t2.
Proof. unfold promoted. apply flat_map_app. Qed.

Section QueueOrder.
Context {W : Type} (E : env W).

Hypothesis change_keeps : forall s ev, keeps_queue (us_poll_change E s ev) s.
Hypothesis ref_keeps : forall c s, keeps_queue (us_socket_context_ref E c) s.
Hypothesis unlink_keeps : forall c s,
    keeps_queue (us_internal_socket_context_unlink_socket E c s) s.
Hypothesis link_keeps : forall c s,
    keeps_queue (us_internal_socket_context_link_socket E c s) s.

Lemma low_prio_defer_pushes c s l st :
  parked st l -> ~ In s l ->
  parked (state_of (low_prio_defer E c s st)) (s :: l).
Proof.
  intros [Hchain Hstate] Hnotin.
  unfold low_prio_defer. step_lin. open_prefixed.
  set (ev := Z.land (us_poll_events E st s) (LIBUS_SOCKET_WRITABLE E)).
  set (st1 := us_poll_change E s ev st).
  set (st2 := us_socket_context_ref E c st1).
  set (st3 := us_internal_socket_context_unlink_socket E c s st2).
  destruct (change_keeps s ev st) as (Hh1 & _ & Hq1). fold st1 in Hh1, Hq1.
  destruct (ref_keeps c s st1) as (Hh2 & _ & Hq2). fold st2 in Hh2, Hq2.
  destruct (unlink_keeps c s st2) as (Hh3 & _ & Hq3). fold st3 in Hh3, Hq3.
  assert (Hq : forall y, In y l ->
                 s_next (sockets st3 y) = s_next (sockets st y)
                 /\ low_prio_state (flags (sockets st3 y)) = 1).
  { intros y Hy. assert (Hys : y <> s) by (intros ->; contradiction).
    pose proof (Hstate y Hy) as H0.
    destruct (Hq1 y Hys H0) as [N1 S1]. destruct (Hq2 y Hys S1) as [N2 S2].
    destruct (Hq3 y Hys S2) as [N3 S3]. split; [ congruence | exact S3 ]. }
  assert (Hh : low_prio_head (data st3) = low_prio_head (data st)) by congruence.
  cbn [data with_socket sockets]. rewrite upd_same. cbn [s_next sock_set_next].
  rewrite Hh.
  assert (Hfinal : forall st4 : state W,
             low_prio_head (data st4) = Some s ->
             s_next (sockets st4 s) = low_prio_head (data st) ->
             low_prio_state (flags (sockets st4 s)) = 1 ->
             (forall y, In y l -> s_next (sockets st4 y) = s_next (sockets st y)
                                  /\ low_prio_state (flags (sockets st4 y)) = 1) ->
             parked st4 (s :: l)).
  { intros st4 H1 H2 H3 H4. split.
    - simpl. split; [ exact H1 | ]. rewrite H2.
      apply chain_agree with (next := fun y => s_next (sockets st y)); [ | exact Hchain ].
      intros y Hy. now apply H4.
    - intros y [Heq | Hy]; [ subst y; exact H3 | now apply H4 ]. }
  destruct (low_prio_head (data st)) as [n | ] eqn:Hn; step_lin; open_prefixed;
    unfold emit, state_of; cbn [fst snd]; apply Hfinal;
    cbn [data sockets with_socket with_data low_prio_head data_set_low_prio_head];
    try reflexivity.
  - assert (Hns : n <> s).
    { destruct l as [ | x l']; simpl in Hchain; [ discriminate | ].
      destruct Hchain as [[= ->] _]. intros ->. apply Hnotin. now left. }
    rewrite upd_same. cbn. rewrite upd_other by (apply not_eq_sym; exact Hns).
    rewrite upd_same. reflexivity.
  - rewrite upd_same. reflexivity.
  - assert (Hns : n <> s).
    { destruct l as [ | x l']; simpl in Hchain; [ discriminate | ].
      destruct Hchain as [[= ->] _]. intros ->. apply Hnotin. now left. }
    intros y Hy. destruct (Hq y Hy) as [N S].
    assert (Hys : y <> s) by (intros ->; contradiction).
    rewrite (upd_other _ s _ y Hys).
    destruct (Nat.eq_dec y n) as [-> | Hyn].
    + rewrite upd_same. cbn. rewrite !upd_other by exact Hns. now split.
    + rewrite (upd_other _ n _ y Hyn), !upd_other by exact Hys. now split.
  - rewrite upd_same. cbn. rewrite !upd_same. reflexivity.
  - rewrite upd_same. reflexivity.
  - intros y Hy. destruct (Hq y Hy) as [N S].
    assert (Hys : y <> s) by (intros ->; contradiction).
    rewrite !upd_other by exact Hys. now split.
Qed.

Lemma low_prio_promote_pops s0 l st :
  parked st (s0 :: l) ->
  result_of (low_prio_promote E s0 st) = Done tt
  /\ promoted (trace_of (low_prio_promote E s0 st)) = [s0]
  /\ budget_of (state_of (low_prio_promote E s0 st)) = budget_of st
  /\ parked (state_of (low_prio_promote E s0 st)) l
  /\ low_prio_state (flags (sockets (state_of (low_prio_promote E s0 st)) s0)) = 2.
Proof.
  intros [Hchain Hstate].
  pose proof (chain_NoDup _ _ _ Hchain) as Hnd. inversion Hnd as [ | ? ? Hnotin _]; subst.
  simpl in Hchain. destruct Hchain as [Hhead Hchain].
  unfold low_prio_promote. rewrite run_gets_bind, run_modify_bind.
  set (stA := with_data (data_set_low_prio_head (s_next (sockets st s0))) st).
  assert (Hpre : exists stC : state W,
             (forall k : unit -> M W unit,
                 bind (match s_next (sockets st s0) with
                       | Some n => modify (with_socket n (sock_set_prev None))
                       | None => ret tt
                       end)
                      (fun _ => bind (modify (with_socket s0 (sock_set_next None))) k) stA
                 = k tt stC)
             /\ data stC = data stA
             /\ (forall y, y <> s0 -> s_next (sockets stC y) = s_next (sockets st y)
                                     /\ flags (sockets stC y) = flags (sockets st y))).
  { destruct (s_next (sockets st s0)) as [n | ].
    - eexists. split; [ intros k; rewrite run_modify_bind, run_modify_bind; reflexivity | ].
      split; [ reflexivity | ]. intros y Hy. cbn [sockets with_socket].
      rewrite (upd_other _ s0 _ y Hy). unfold upd.
      destruct (Nat.eqb_spec y n) as [-> | Hyn]; split; reflexivity.
    - eexists. split; [ intros k; rewrite run_ret_bind, run_modify_bind; reflexivity | ].
      split; [ reflexivity | ]. intros y Hy. cbn [sockets with_socket].
      rewrite (upd_other _ s0 _ y Hy). split; reflexivity. }
  destruct Hpre as (stC & Hrun & HdC & HqC). rewrite Hrun. clear Hrun.
  step_lin. open_prefixed.
  set (ctx := s_context (sockets stC s0)).
  set (stD := us_internal_socket_context_link_socket E ctx s0 stC).
  set (ev := Z.lor (us_poll_events E stD s0) (LIBUS_SOCKET_READABLE E)).
  set (stE := us_poll_change E s0 ev stD).
  destruct (link_keeps ctx s0 stC) as (HhD & HbD & HqD). fold stD in HhD, HbD, HqD.
  destruct (change_keeps s0 ev stD) as (HhE & HbE & HqE). fold stE in HhE, HbE, HqE.
  unfold emit, result_of, state_of, trace_of. cbn [fst snd app].
  split; [ reflexivity | ]. split; [ reflexivity | ].
  split.
  { unfold budget_of. cbn [data with_socket]. rewrite HbE, HbD, HdC. reflexivity. }
  split.
  - split.
    + cbn [data with_socket sockets]. rewrite HhE, HhD, HdC.
      cbn [data stA with_data low_prio_head data_set_low_prio_head].
      apply chain_agree with (next := fun y => s_next (sockets st y)); [ | exact Hchain ].
      intros y Hy. assert (Hys : y <> s0) by (intros ->; contradiction).
      rewrite (upd_other _ s0 _ y Hys).
      destruct (HqC y Hys) as [NC FC].
      assert (S1 : low_prio_state (flags (sockets stC y)) = 1).
      { rewrite FC. apply Hstate. now right. }
      destruct (HqD y Hys S1) as [ND SD]. destruct (HqE y Hys SD) as [NE SE].
      congruence.
    + intros y Hy. assert (Hys : y <> s0) by (intros ->; contradiction).
      cbn [sockets with_socket]. rewrite (upd_other _ s0 _ y Hys).
      destruct (HqC y Hys) as [NC FC].
      assert (S1 : low_prio_state (flags (sockets stC y)) = 1).
      { rewrite FC. apply Hstate. now right. }
      destruct (HqD y Hys S1) as [ND SD]. destruct (HqE y Hys SD) as [NE SE].
      exact SE.
  - cbn [sockets with_socket]. rewrite upd_same. reflexivity.
Qed.

Lemma low_prio_loop_promotes fuel :
  forall l st,
    parked st l -> 0 <= budget_of st -> (Z.to_nat (budget_of st) <= fuel)%nat ->
    result_of (low_prio_loop E fuel st) = Done tt
    /\ promoted (trace_of (low_prio_loop E fuel st)) = firstn (Z.to_nat (budget_of st)) l
    /\ parked (state_of (low_prio_loop E fuel st)) (skipn (Z.to_nat (budget_of st)) l).
Proof.
  induction fuel as [ | fuel IH]; intros l st Hparked Hpos Hfuel.
  - assert (Hb : budget_of st = 0) by lia.
    rewrite low_prio_loop_zero. unfold budget_of in *. rewrite Hb.
    destruct (low_prio_head (data st)); cbn; repeat split; try exact (proj1 Hparked);
      exact (proj2 Hparked).
  - rewrite low_prio_loop_step.
    destruct l as [ | s0 l'].
    + destruct Hparked as [Hchain Hstate]. simpl in Hchain. rewrite Hchain.
      unfold result_of, state_of, trace_of. cbn [fst snd].
      rewrite firstn_nil, skipn_nil. repeat split; [ exact Hchain | exact Hstate ].
    + pose proof Hparked as [[Hhead _] _]. rewrite Hhead.
      destruct (low_prio_budget (data st) >? 0) eqn:Hb.
      * apply Z.gtb_lt in Hb.
        destruct (low_prio_promote_pops s0 l' st Hparked) as (Hr & Hp & Hbud & Hq & Hs2).
        rewrite lin_bind, Hr. open_prefixed. rewrite run_modify_bind.
        set (st1 := state_of (low_prio_promote E s0 st)) in *.
        set (st2 := with_data (data_set_low_prio_budget (low_prio_budget (data st1) - 1)) st1).
        assert (Hb2 : budget_of st2 = budget_of st - 1).
        { unfold budget_of in *. cbn. rewrite Hbud. reflexivity. }
        assert (Hq2 : parked st2 l') by exact Hq.
        destruct (IH l' st2 Hq2) as (Hr' & Hp' & Hq').
        { unfold budget_of in *. lia. }
        { rewrite Hb2. unfold budget_of in *. lia. }
        assert (Hn : Z.to_nat (budget_of st) = S (Z.to_nat (budget_of st2))).
        { rewrite Hb2. unfold budget_of in *. lia. }
        rewrite Hn. cbn [firstn skipn].
        split; [ exact Hr' | ]. split; [ rewrite promoted_app, Hp, Hp'; reflexivity | ].
        exact Hq'.
      * assert (Hz : budget_of st = 0).
        { unfold budget_of in *. rewrite Z.gtb_ltb in Hb. apply Z.ltb_ge in Hb. lia. }
        rewrite Hz. unfold result_of, state_of, trace_of. cbn.
        repeat split; try exact (proj1 (proj1 Hparked)); try exact (proj2 (proj1 Hparked));
          exact (proj2 Hparked).
Qed.
End QueueOrder.

(** X8.  Deferring a readable socket pushes it onto the front of the
    low-priority queue: when the queue holds the sockets l, head first and
    each in state 1, and the socket is not among them, the queue holds
    socket :: l afterwards, each in state 1.  us_poll_change,
    us_socket_context_ref and us_internal_socket_context_unlink_socket keep
    out of the queue. *)
Theorem low_prio_defer_pushes_front {W} (E : env W) (c s : nat) (l : list nat)
        (st : state W) :
  (forall s ev, keeps_queue (us_poll_change E s ev) s) ->
  (forall c s, keeps_queue (us_socket_context_ref E c) s) ->
  (forall c s, keeps_queue (us_internal_socket_context_unlink_socket E c s) s) ->
  parked st l ->
  ~ In s l ->
  parked (state_of (low_prio_defer E c s st)) (s :: l).
Proof. intros H1 H2 H3. now apply low_prio_defer_pushes. Qed.

Lemma sim_keeps_queue_change s ev : keeps_queue (us_poll_change sim s ev) s.
Proof.
  intros st. split; [ reflexivity | split; [ reflexivity | ] ].
  intros y _ H. split; [ reflexivity | exact H ].
Defined.

Lemma sim_keeps_queue_id s : keeps_queue (fun st : state sim_world => st) s.
Proof.
  intros st. split; [ reflexivity | split; [ reflexivity | ] ].
  intros y _ H. split; [ reflexivity | exact H ].
Defined.

Lemma low_prio_defer_pushes_front_witness :
  parked (state_of (low_prio_defer sim 0 8 (sim_parked 2))) [8%nat; 1%nat; 2%nat].
Proof.
  refine (low_prio_defer_pushes_front sim 0 8 [1%nat; 2%nat] (sim_parked 2) _ _ _ _ _).
  - exact sim_keeps_queue_change.
  - intros c s. exact (sim_keeps_queue_id s).
  - intros c s. exact (sim_keeps_queue_id s).
  - split.
    + simpl. repeat split; reflexivity.
    + intros y [<- | [<- | []]]; reflexivity.
  - simpl. intuition discriminate.
Defined.

(** X9.  us_internal_handle_low_priority_sockets promotes from the head of
    the queue: with the queue holding the sockets l, head first, it
    promotes exactly the first 5 sockets of l (all of l when there are
    fewer), in queue order, and leaves the remaining sockets queued in
    their order.  As a deferral pushes at the head, the sockets deferred
    last are promoted first.  us_internal_socket_context_link_socket and
    us_poll_change keep out of the queue. *)
Theorem low_prio_promotes_head_first {W} (E : env W) (fuel : nat) (l : list nat)
        (st : state W) :
  (forall s ev, keeps_queue (us_poll_change E s ev) s) ->
  (forall c s, keeps_queue (us_internal_socket_context_link_socket E c s) s) ->
  parked st l ->
  (5 <= fuel)%nat ->
  result_of (us_internal_handle_low_priority_sockets E fuel st) = Done tt
  /\ promoted (trace_of (us_internal_handle_low_priority_sockets E fuel st)) = firstn 5 l
  /\ parked (state_of (us_internal_handle_low_priority_sockets E fuel st)) (skipn 5 l).
Proof.
  intros Hchange Hlink Hparked Hfuel.
  unfold us_internal_handle_low_priority_sockets. rewrite run_modify_bind.
  set (st1 := with_data (data_set_low_prio_budget MAX_LOW_PRIO_SOCKETS_PER_LOOP_ITERATION) st).
  assert (Hb : budget_of st1 = 5) by reflexivity.
  destruct (low_prio_loop_promotes E Hchange Hlink fuel l st1) as (Hr & Hp & Hq).
  - exact Hparked.
  - rewrite Hb. lia.
  - rewrite Hb. simpl. exact Hfuel.
  - rewrite Hb in Hp, Hq. change (Z.to_nat 5) with 5%nat in Hp, Hq.
    split; [ exact Hr | split; [ exact Hp | exact Hq ] ].
Qed.

Lemma low_prio_promotes_head_first_witness :
  promoted (trace_of (us_internal_handle_low_priority_sockets sim 5 (sim_parked 7)))
  = [1%nat; 2%nat; 3%nat; 4%nat; 5%nat]
  /\ parked (state_of (us_internal_handle_low_priority_sockets sim 5 (sim_parked 7)))
            [6%nat; 7%nat]
  /\ promoted (trace_of (us_internal_handle_low_priority_sockets sim 5
                 (state_of (low_prio_defer sim 0 9
                    (state_of (low_prio_defer sim 0 8 sim_budget_spent))))))
     = [9%nat; 8%nat].
Proof.
  destruct (low_prio_promotes_head_first sim 5 [1; 2; 3; 4; 5; 6; 7]%nat (sim_parked 7))
    as (_ & Hp & Hq).
  - exact sim_keeps_queue_change.
  - intros c s. exact (sim_keeps_queue_id s).
  - split.
    + simpl. repeat split; reflexivity.
    + intros y Hy. simpl in Hy.
      repeat (destruct Hy as [<- | Hy]; [ reflexivity | ]). destruct Hy.
  - lia.
  - split; [ exact Hp | split; [ exact Hq | vm_compute; reflexivity ] ].
Defined.

Lemma flat_map_agree {A B} (f g : A -> list B) (l : list A) :
  (forall x, In x l -> f x = g x) -> flat_map f l = flat_map g l.
Proof.
  induction l as [ | x l IH]; intros H; simpl; [ reflexivity | ].
  rewrite (H x (or_introl eq_refl)). f_equal. apply IH. intros y Hy. apply H. now right.
Qed.

Lemma flat_map_all_nil {A B} (f : A -> list B) (l : list A) :
  (forall x, In x l -> f x = []) -> flat_map f l = [].
Proof.
  induction l as [ | x l IH]; intros H; simpl; [ reflexivity | ].
  rewrite (H x (or_introl eq_refl)). apply IH. intros y Hy. apply H. now right.
Qed.

(** ** The sweep with handlers that leave the walk alone *)

Section InertSweep.
Context {W : Type} (E : env W).

Hypothesis short_inert : forall context handler,
    on_socket_timeout E context = Some handler -> inert_handler handler.
Hypothesis long_inert : forall context handler,
    on_socket_long_timeout E context = Some handler -> inert_handler handler.

Lemma sweep_emit_inert context short long s st :
  result_of (sweep_emit E context short long s st) = Done (s_next (sockets st s))
  /\ trace_of (sweep_emit E context short long s st) = sweep_fires E context short long st s
  /\ (forall y, s_next (sockets (state_of (sweep_emit E context short long s st)) y)
                = s_next (sockets st y))
  /\ (forall y, timeout (sockets (state_of (sweep_emit E context short long s st)) y)
                = if Nat.eqb y s then swept_timeout short (timeout (sockets st y))
                  else timeout (sockets st y))
  /\ (forall y, long_timeout (sockets (state_of (sweep_emit E context short long s st)) y)
                = if Nat.eqb y s then swept_timeout long (long_timeout (sockets st y))
                  else long_timeout (sockets st y)).
Proof.
  unfold sweep_emit, sweep_fires, swept_timeout.
  rewrite run_modify_bind, run_gets_bind.
  set (st0 := with_context context (ctx_set_iterator (Some s)) st).
  change (timeout (sockets st0 s)) with (timeout (sockets st s)).
  assert (Hshort : exists st1 t1,
             (forall k : unit -> M W ptr,
                 bind (if short =? timeout (sockets st s) then
                         modify (with_socket s (sock_set_timeout 255)) ;;
                         match on_socket_timeout E context with
                         | Some handler =>
                             call_ (fun st => EvOnSocketTimeout context s
                                                (timeout (sockets st s))) (handler s)
                         | None => ret tt
                         end
                       else ret tt) k st0 = prefixed t1 (k tt st1))
             /\ t1 = (if short =? timeout (sockets st s) then
                        match on_socket_timeout E context with
                        | Some _ => [EvOnSocketTimeout context s 255]
                        | None => []
                        end
                      else [])
             /\ c_iterator (contexts st1 context) = Some s
             /\ (forall y, s_next (sockets st1 y) = s_next (sockets st y)
                           /\ long_timeout (sockets st1 y) = long_timeout (sockets st y)
                           /\ timeout (sockets st1 y)
                              = if Nat.eqb y s
                                then (if short =? timeout (sockets st s) then 255
                                      else timeout (sockets st y))
                                else timeout (sockets st y))).
  { assert (Hit0 : c_iterator (contexts st0 context) = Some s).
    { unfold st0. cbn. rewrite upd_same. reflexivity. }
    destruct (short =? timeout (sockets st s)) eqn:Hm.
    - set (stw := with_socket s (sock_set_timeout 255) st0).
      assert (Hw : forall y, s_next (sockets stw y) = s_next (sockets st y)
                             /\ long_timeout (sockets stw y) = long_timeout (sockets st y)
                             /\ timeout (sockets stw y)
                                = if Nat.eqb y s then 255 else timeout (sockets st y)).
      { intros y. unfold stw, st0. cbn. unfold upd.
        destruct (Nat.eqb_spec y s) as [Hy | Hy]; [ subst y | ]; repeat split; reflexivity. }
      destruct (on_socket_timeout E context) as [handler | ] eqn:Hh.
      + destruct (short_inert context handler Hh s stw) as [Hs Hc].
        exists (handler s stw), [EvOnSocketTimeout context s 255].
        split; [ | split; [ reflexivity | split ] ].
        * intros k. rewrite lin_bind. rewrite run_modify_bind. fold stw.
          unfold call_, result_of, state_of, trace_of. cbn [fst snd].
          destruct (Hw s) as (_ & _ & Ht). rewrite Nat.eqb_refl in Ht. rewrite Ht.
          reflexivity.
        * rewrite Hc. exact Hit0.
        * intros y. destruct (Hs y) as (H1 & H2 & H3). destruct (Hw y) as (H4 & H5 & H6).
          repeat split; congruence.
      + exists stw, []. split; [ | split; [ reflexivity | split ] ].
        * intros k. rewrite lin_bind. rewrite run_modify_bind. fold stw.
          unfold ret, result_of, state_of, trace_of. cbn [fst snd]. reflexivity.
        * exact Hit0.
        * exact Hw.
    - exists st0, []. split; [ | split; [ reflexivity | split ] ].
      + intros k. rewrite run_ret_bind. unfold prefixed. simpl. apply triple_eta.
      + exact Hit0.
      + intros y. destruct (Nat.eqb_spec y s) as [Hy | Hy]; [ subst y | ]; repeat split; reflexivity. }
  destruct Hshort as (st1 & t1 & Hrun & Ht1 & Hit1 & Hf1).
  rewrite Hrun. clear Hrun. rewrite run_gets_bind, run_gets_bind, Hit1.
  cbn [ptr_eqb]. rewrite Nat.eqb_refl. cbn [andb].
  destruct (Hf1 s) as (_ & Hl1 & _). rewrite Hl1.
  assert (Hlong : exists st2 t2,
             (forall k : unit -> M W ptr,
                 bind (if long =? long_timeout (sockets st s) then
                         modify (with_socket s (sock_set_long_timeout 255)) ;;
                         match on_socket_long_timeout E context with
                         | Some handler =>
                             call_ (fun st => EvOnSocketLongTimeout context s
                                                (long_timeout (sockets st s))) (handler s)
                         | None => ret tt
                         end
                       else ret tt) k st1 = prefixed t2 (k tt st2))
             /\ t2 = (if long =? long_timeout (sockets st s) then
                        match on_socket_long_timeout E context with
                        | Some _ => [EvOnSocketLongTimeout context s 255]
                        | None => []
                        end
                      else [])
             /\ c_iterator (contexts st2 context) = Some s
             /\ (forall y, s_next (sockets st2 y) = s_next (sockets st1 y)
                           /\ timeout (sockets st2 y) = timeout (sockets st1 y)
                           /\ long_timeout (sockets st2 y)
                              = if Nat.eqb y s
                                then (if long =? long_timeout (sockets st s) then 255
                                      else long_timeout (sockets st1 y))
                                else long_timeout (sockets st1 y))).
  { destruct (long =? long_timeout (sockets st s)) eqn:Hm.
    - set (stw := with_socket s (sock_set_long_timeout 255) st1).
      assert (Hw : forall y, s_next (sockets stw y) = s_next (sockets st1 y)
                             /\ timeout (sockets stw y) = timeout (sockets st1 y)
                             /\ long_timeout (sockets stw y)
                                = if Nat.eqb y s then 255 else long_timeout (sockets st1 y)).
      { intros y. unfold stw. cbn. unfold upd.
        destruct (Nat.eqb_spec y s) as [Hy | Hy]; [ subst y | ]; repeat split; reflexivity. }
      assert (Hitw : c_iterator (contexts stw context) = Some s) by exact Hit1.
      destruct (on_socket_long_timeout E context) as [handler | ] eqn:Hh.
      + destruct (long_inert context handler Hh s stw) as [Hs Hc].
        exists (handler s stw), [EvOnSocketLongTimeout context s 255].
        split; [ | split; [ reflexivity | split ] ].
        * intros k. rewrite lin_bind. rewrite run_modify_bind. fold stw.
          unfold call_, result_of, state_of, trace_of. cbn [fst snd].
          destruct (Hw s) as (_ & _ & Ht). rewrite Nat.eqb_refl in Ht. rewrite Ht.
          reflexivity.
        * rewrite Hc. exact Hitw.
        * intros y. destruct (Hs y) as (H1 & H2 & H3). destruct (Hw y) as (H4 & H5 & H6).
          repeat split; congruence.
      + exists stw, []. split; [ | split; [ reflexivity | split ] ].
        * intros k. rewrite lin_bind. rewrite run_modify_bind. fold stw.
          unfold ret, result_of, state_of, trace_of. cbn [fst snd]. reflexivity.
        * exact Hitw.
        * exact Hw.
    - exists st1, []. split; [ | split; [ reflexivity | split ] ].
      + intros k. rewrite run_ret_bind. unfold prefixed. simpl. apply triple_eta.
      + exact Hit1.
      + intros y. destruct (Nat.eqb_spec y s) as [Hy | Hy]; [ subst y | ]; repeat split; reflexivity. }
  destruct Hlong as (st2 & t2 & Hrun & Ht2 & Hit2 & Hf2).
  rewrite Hrun. clear Hrun. rewrite run_gets_bind, Hit2.
  cbn [ptr_eqb]. rewrite Nat.eqb_refl.
  unfold gets, prefixed, result_of, state_of, trace_of. cbn [fst snd].
  rewrite app_nil_r. subst t1 t2.
  split; [ | split; [ reflexivity | ] ].
  { destruct (Hf2 s) as (H1 & _). destruct (Hf1 s) as (H2 & _). congruence. }
  split; [ | split ].
  - intros y. destruct (Hf2 y) as (H1 & _). destruct (Hf1 y) as (H2 & _). congruence.
  - intros y. destruct (Hf2 y) as (_ & H1 & _). destruct (Hf1 y) as (_ & _ & H2).
    rewrite H1, H2. destruct (Nat.eqb_spec y s) as [Hy | Hy]; [ subst y | ]; reflexivity.
  - intros y. destruct (Hf2 y) as (_ & _ & H1). destruct (Hf1 y) as (_ & H2 & _).
    rewrite H1, H2. destruct (Nat.eqb_spec y s) as [Hy | Hy]; [ subst y | ]; reflexivity.
Qed.

Lemma sweep_fires_miss context short long (st : state W) y :
  (short =? timeout (sockets st y)) || (long =? long_timeout (sockets st y)) = false ->
  sweep_fires E context short long st y = []
  /\ swept_timeout short (timeout (sockets st y)) = timeout (sockets st y)
  /\ swept_timeout long (long_timeout (sockets st y)) = long_timeout (sockets st y).
Proof.
  intros H. apply orb_false_elim in H. destruct H as [H1 H2].
  unfold sweep_fires, swept_timeout. rewrite H1, H2. repeat split; reflexivity.
Qed.

Lemma sweep_seek_inert short long (st : state W) :
  forall l fuel s0,
    chain (fun x => s_next (sockets st x)) (Some s0) (s0 :: l) ->
    (length l <= fuel)%nat ->
    exists r, sweep_seek fuel short long s0 st = (Done r, st, [])
              /\ match r with
                 | None =>
                     forall y, In y (s0 :: l) ->
                               (short =? timeout (sockets st y))
                               || (long =? long_timeout (sockets st y)) = false
                 | Some s1 =>
                     exists pre post,
                     s0 :: l = pre ++ s1 :: post
                     /\ forall y, In y pre ->
                                  (short =? timeout (sockets st y))
                                  || (long =? long_timeout (sockets st y)) = false
                 end.
Proof.
  induction l as [ | x l IH]; intros fuel s0 [_ Hc] Hfuel.
  - simpl in Hc.
    destruct ((short =? timeout (sockets st s0)) || (long =? long_timeout (sockets st s0)))
      eqn:Hm.
    + exists (Some s0). split.
      * destruct fuel; cbn [sweep_seek]; rewrite run_gets_bind, Hm; reflexivity.
      * exists [], []. split; [ reflexivity | intros y [] ].
    + exists None. split.
      * destruct fuel; cbn [sweep_seek]; rewrite run_gets_bind, Hm, Hc; reflexivity.
      * intros y [<- | []]. exact Hm.
  - destruct Hc as [Hn Hc].
    destruct ((short =? timeout (sockets st s0)) || (long =? long_timeout (sockets st s0)))
      eqn:Hm.
    + exists (Some s0). split.
      * destruct fuel; cbn [sweep_seek]; rewrite run_gets_bind, Hm; reflexivity.
      * exists [], (x :: l). split; [ reflexivity | intros y [] ].
    + destruct fuel as [ | fuel]; [ simpl in Hfuel; lia | ].
      destruct (IH fuel x (conj eq_refl Hc)) as (r & Hrun & Hr); [ simpl in Hfuel; lia | ].
      exists r. split.
      * cbn [sweep_seek]. rewrite run_gets_bind, Hm, Hn. exact Hrun.
      * destruct r as [s1 | ].
        -- destruct Hr as (pre & post & Heq & Hpre).
           exists (s0 :: pre), post. split; [ simpl; now rewrite Heq | ].
           intros y [<- | Hy]; [ exact Hm | now apply Hpre ].
        -- intros y [<- | Hy]; [ exact Hm | now apply Hr ].
Qed.

Lemma sweep_sockets_inert context short long :
  forall fuel l h (st : state W),
    chain (fun x => s_next (sockets st x)) h l ->
    (length l <= fuel)%nat ->
    result_of (sweep_sockets E fuel context short long h st) = Done tt
    /\ trace_of (sweep_sockets E fuel context short long h st)
       = flat_map (sweep_fires E context short long st) l
    /\ (forall y, timeout (sockets (state_of (sweep_sockets E fuel context short long h st)) y)
                  = if existsb (Nat.eqb y) l then swept_timeout short (timeout (sockets st y))
                    else timeout (sockets st y))
    /\ (forall y,
           long_timeout (sockets (state_of (sweep_sockets E fuel context short long h st)) y)
           = if existsb (Nat.eqb y) l then swept_timeout long (long_timeout (sockets st y))
             else long_timeout (sockets st y))
    /\ (forall y, s_next (sockets (state_of (sweep_sockets E fuel context short long h st)) y)
                  = s_next (sockets st y)).
Proof.
  induction fuel as [ | fuel IH]; intros l h st Hc Hfuel.
  - destruct l; [ | simpl in Hfuel; lia ]. simpl in Hc. subst h.
    simpl. repeat split; reflexivity.
  - destruct l as [ | s0 l].
    { simpl in Hc. subst h. simpl. repeat split; reflexivity. }
    pose proof Hc as [Hh _]. subst h.
    cbn [sweep_sockets].
    destruct (sweep_seek_inert short long st l fuel s0 Hc) as (r & Hseek & Hr);
      [ simpl in Hfuel; lia | ].
    assert (Hb : forall k : ptr -> M W unit,
               bind (sweep_seek fuel short long s0) k st = k r st).
    { intros k. unfold bind. rewrite Hseek. destruct (k r st) as [[a b] c]. reflexivity. }
    rewrite Hb. clear Hb.
    destruct r as [s1 | ].
    + destruct Hr as (pre & post & Heq & Hpre).
      destruct (sweep_emit_inert context short long s1 st) as (He1 & He2 & He3 & He4 & He5).
      pose proof (chain_NoDup _ _ _ Hc) as Hnd.
      rewrite Heq in Hc, Hnd.
      destruct (chain_app_inv _ pre (s1 :: post) _ Hc) as (mid & Hmid).
      destruct Hmid as [_ Hpost].
      apply NoDup_remove_2 in Hnd.
      set (ste := state_of (sweep_emit E context short long s1 st)) in *.
      assert (Hpost' : chain (fun x => s_next (sockets ste x)) (s_next (sockets st s1)) post).
      { eapply chain_agree; [ | exact Hpost ]. intros x _. apply He3. }
      assert (Hlen : (length post <= fuel)%nat).
      { apply (f_equal (@length nat)) in Heq. rewrite length_app in Heq. simpl in *. lia. }
      destruct (IH post _ ste Hpost' Hlen) as (Hr1 & Hr2 & Hr3 & Hr4 & Hr5).
      assert (Hrun : forall k : ptr -> M W unit,
                 bind (sweep_emit E context short long s1) k st
                 = prefixed (sweep_fires E context short long st s1)
                            (k (s_next (sockets st s1)) ste)).
      { intros k. rewrite lin_bind, He1, He2. reflexivity. }
      cbn [app]. rewrite Hrun. clear Hrun.
      rewrite result_of_prefixed, trace_of_prefixed, !state_of_prefixed.
      rewrite Hr1, Hr2, Heq.
      assert (Hin_post : forall y, In y post -> y <> s1).
      { intros y Hy ->. apply Hnd. apply in_or_app. now right. }
      assert (Hin_pre : forall y, In y pre -> y <> s1).
      { intros y Hy ->. apply Hnd. apply in_or_app. now left. }
      split; [ reflexivity | split; [ | split; [ | split ] ] ].
      * rewrite flat_map_app. cbn [flat_map]. cbn [app].
        assert (Hp : flat_map (sweep_fires E context short long st) pre = []).
        { apply flat_map_all_nil; intros y Hy.
          apply (sweep_fires_miss context short long st y (Hpre y Hy)). }
        rewrite Hp. cbn [app]. f_equal.
        apply flat_map_agree. intros y Hy. unfold sweep_fires.
        rewrite (He4 y), (He5 y).
        destruct (Nat.eqb_spec y s1) as [Hys | _]; [ now apply Hin_post in Hy | reflexivity ].
      * intros y. rewrite Hr3, (He4 y), existsb_app. cbn [existsb].
        destruct (Nat.eqb_spec y s1) as [-> | Hys].
        -- rewrite orb_true_r.
           destruct (existsb (Nat.eqb s1) post) eqn:Hex; [ | reflexivity ].
           apply existsb_exists in Hex. destruct Hex as (x & Hx & Hxe).
           apply Nat.eqb_eq in Hxe. subst x. now apply Hin_post in Hx.
        -- cbn [orb].
           destruct (existsb (Nat.eqb y) post) eqn:Hex;
             [ rewrite orb_true_r; reflexivity | rewrite orb_false_r ].
           destruct (existsb (Nat.eqb y) pre) eqn:Hexp; [ | reflexivity ].
           apply existsb_exists in Hexp. destruct Hexp as (x & Hx & Hxe).
           apply Nat.eqb_eq in Hxe. subst x.
           symmetry. apply (sweep_fires_miss context short long st y (Hpre y Hx)).
      * intros y. rewrite Hr4, (He5 y), existsb_app. cbn [existsb].
        destruct (Nat.eqb_spec y s1) as [-> | Hys].
        -- rewrite orb_true_r.
           destruct (existsb (Nat.eqb s1) post) eqn:Hex; [ | reflexivity ].
           apply existsb_exists in Hex. destruct Hex as (x & Hx & Hxe).
           apply Nat.eqb_eq in Hxe. subst x. now apply Hin_post in Hx.
        -- cbn [orb].
           destruct (existsb (Nat.eqb y) post) eqn:Hex;
             [ rewrite orb_true_r; reflexivity | rewrite orb_false_r ].
           destruct (existsb (Nat.eqb y) pre) eqn:Hexp; [ | reflexivity ].
           apply existsb_exists in Hexp. destruct Hexp as (x & Hx & Hxe).
           apply Nat.eqb_eq in Hxe. subst x.
           symmetry. apply (sweep_fires_miss context short long st y (Hpre y Hx)).
      * intros y. rewrite Hr5. apply He3.
    + unfold ret, result_of, state_of, trace_of. cbn [fst snd app].
      split; [ reflexivity | split; [ | split; [ | split ] ] ].
      * symmetry. apply flat_map_all_nil. intros y Hy.
        apply (sweep_fires_miss context short long st y (Hr y Hy)).
      * intros y. destruct (existsb (Nat.eqb y) (s0 :: l)) eqn:Hex; [ | reflexivity ].
        apply existsb_exists in Hex. destruct Hex as (x & Hx & Hxe).
        apply Nat.eqb_eq in Hxe. subst x.
        symmetry. apply (sweep_fires_miss context short long st y (Hr y Hx)).
      * intros y. destruct (existsb (Nat.eqb y) (s0 :: l)) eqn:Hex; [ | reflexivity ].
        apply existsb_exists in Hex. destruct Hex as (x & Hx & Hxe).
        apply Nat.eqb_eq in Hxe. subst x.
        symmetry. apply (sweep_fires_miss context short long st y (Hr y Hx)).
      * intros y. reflexivity.
Qed.
End InertSweep.

Lemma stamp_fits_byte (t : Z) : (t mod 240) mod 256 = t mod 240.
Proof.
  apply Z.mod_small. pose proof (Z.mod_pos_bound t 240 ltac:(lia)). lia.
Qed.

(** X10.  One context's turn in the timer sweep, when the timeout handlers
    leave the sockets' links and timeout fields and the context's iterator
    alone.  The context's tick advances and gives the two stamps.  The
    sweep then comes to an end; walking the context's sockets in list
    order it calls on_socket_timeout for exactly the sockets whose timeout
    equals the short stamp and on_socket_long_timeout for exactly those
    whose long_timeout equals the long stamp (for a socket due on both, the
    short one first), once each, where a handler is installed.  Afterwards
    the context's iterator is NULL, every timeout that was due holds the
    sentinel 255, and every other timeout field, of this context's sockets
    or of any other socket, is as it was. *)
Theorem timer_sweep_fires_due_sockets {W} (E : env W) (fuel context : nat) (l : list nat)
        (st : state W) :
  (forall context handler, on_socket_timeout E context = Some handler ->
                           inert_handler handler) ->
  (forall context handler, on_socket_long_timeout E context = Some handler ->
                           inert_handler handler) ->
  chain (fun x => s_next (sockets st x)) (head_sockets (contexts st context)) l ->
  (length l <= fuel)%nat ->
  let tick := (global_tick (contexts st context) + 1) mod 2 ^ 32 in
  let st' := state_of (sweep_context E fuel context st) in
  result_of (sweep_context E fuel context st) = Done tt
  /\ trace_of (sweep_context E fuel context st)
     = flat_map (sweep_fires E context (tick mod 240) ((tick / 15) mod 240) st) l
  /\ c_iterator (contexts st' context) = None
  /\ (forall y, timeout (sockets st' y)
                = if existsb (Nat.eqb y) l
                  then swept_timeout (tick mod 240) (timeout (sockets st y))
                  else timeout (sockets st y))
  /\ (forall y, long_timeout (sockets st' y)
                = if existsb (Nat.eqb y) l
                  then swept_timeout ((tick / 15) mod 240) (long_timeout (sockets st y))
                  else long_timeout (sockets st y)).
Proof.
  intros Hshort Hlong Hc Hfuel tick st'. subst st'.
  unfold sweep_context.
  rewrite run_modify_bind, !run_gets_bind.
  set (st1 := with_context context sweep_advance_ticks st).
  assert (Hs : timestamp (contexts st1 context) = tick mod 240).
  { unfold st1. cbn. rewrite upd_same. cbn. apply stamp_fits_byte. }
  assert (Hl : long_timestamp (contexts st1 context) = (tick / 15) mod 240).
  { unfold st1. cbn. rewrite upd_same. cbn. apply stamp_fits_byte. }
  assert (Hh : head_sockets (contexts st1 context) = head_sockets (contexts st context)).
  { unfold st1. cbn. rewrite upd_same. reflexivity. }
  rewrite Hs, Hl, Hh.
  destruct (sweep_sockets_inert E Hshort Hlong context (tick mod 240) ((tick / 15) mod 240)
              fuel l (head_sockets (contexts st context)) st1 Hc Hfuel)
    as (H1 & H2 & H3 & H4 & _).
  rewrite lin_bind, H1.
  rewrite result_of_prefixed, trace_of_prefixed, !state_of_prefixed.
  unfold modify at 1 2. unfold result_of at 1, trace_of at 1. cbn [fst snd].
  rewrite app_nil_r.
  split; [ reflexivity | split; [ exact H2 | split; [ | split ] ] ].
  - unfold modify, state_of at 1. cbn. rewrite upd_same. reflexivity.
  - intros y. exact (H3 y).
  - intros y. exact (H4 y).
Qed.

Lemma timer_sweep_fires_due_sockets_witness :
  result_of (sweep_context sim 2 0 sim_armed) = Done tt
  /\ trace_of (sweep_context sim 2 0 sim_armed)
     = [EvOnSocketTimeout 0 1 255; EvOnSocketLongTimeout 0 2 255]
  /\ timeout (sockets (state_of (sweep_context sim 2 0 sim_armed)) 1) = 255
  /\ long_timeout (sockets (state_of (sweep_context sim 2 0 sim_armed)) 2) = 255
  /\ timeout (sockets (state_of (sweep_context sim 2 0 sim_armed)) 3) = 0.
Proof.
  assert (Hi : forall (context : nat) (handler : nat -> state sim_world -> state sim_world),
             Some (fun (_ : nat) (st : state sim_world) => st) = Some handler ->
             inert_handler handler).
  { intros context handler H. injection H as <-. intros s st.
    split; [ intros y; repeat split; reflexivity | intros c; reflexivity ]. }
  destruct (timer_sweep_fires_due_sockets sim 2 0 [1%nat; 2%nat] sim_armed Hi Hi)
    as (H1 & H2 & _ & H4 & H5).
  - simpl. repeat split; reflexivity.
  - simpl. lia.
  - split; [ exact H1 | split; [ rewrite H2; reflexivity | ] ].
    split; [ rewrite H4; reflexivity | split; [ rewrite H5; reflexivity | ] ].
    rewrite H4. reflexivity.
Defined.

(** ** The readable phase when the receive brings no data *)

Lemma recv_once_plain {W} (E : env W) (s : nat) (st : state W) :
  is_ipc (flags (sockets st s)) = false ->
  recv_once E s st
  = (Done (inr (s, fst (bsd_recv E (us_poll_fd E st s) st))),
     snd (bsd_recv E (us_poll_fd E st s) st),
     [EvRecv (us_poll_fd E st s) (fst (bsd_recv E (us_poll_fd E st s) st))]).
Proof.
  intros Hipc. unfold recv_once. rewrite !run_gets_bind, Hipc, lin_call_bind.
  reflexivity.
Qed.

(** X11.  A receive that fails for good closes the socket once, with
    LIBUS_ERR, and ends the dispatch.  When a socket admitted to the
    readable phase is not an IPC socket and bsd_recv returns
    LIBUS_SOCKET_ERROR while bsd_would_block says no, us_socket_close is
    called with the code LIBUS_ERR and the dispatch returns: on_data and
    on_end are not called, and the socket is not closed a second time with
    the poll's error code, whatever the eof and error flags of the event
    are. *)
Theorem failed_receive_closes_once {W} (E : env W) (fuel : nat) (p : nat)
        (error eof events : Z) (st : state W) (s : nat) (st1 st2 : state W)
        (t1 t2 : list event) :
  writable_phase E p error events st = (Done (Some s), st1, t1) ->
  Z.land events (LIBUS_SOCKET_READABLE E) <> 0 ->
  low_prio_admission E s st1 = (Done true, st2, t2) ->
  is_ipc (flags (sockets st2 s)) = false ->
  let fd := us_poll_fd E st2 s in
  let st3 := snd (bsd_recv E fd st2) in
  fst (bsd_recv E fd st2) = LIBUS_SOCKET_ERROR E ->
  LIBUS_SOCKET_ERROR E < 0 ->
  bsd_would_block E st3 = false ->
  (1 <= fuel)%nat ->
  dispatch_socket E fuel p error eof events st
  = (Done tt, snd (us_socket_close E (Some s) (LIBUS_ERR E) st3),
     t1 ++ t2 ++ [EvRecv fd (LIBUS_SOCKET_ERROR E); EvSocketClose (Some s) (LIBUS_ERR E)]).
Proof.
  intros Hw Hreadable Hadm Hipc fd st3 Hrecv Hneg Hwb Hfuel.
  apply Z.eqb_neq in Hreadable.
  destruct fuel as [ | fuel]; [ lia | ].
  assert (Hpos : (LIBUS_SOCKET_ERROR E >? 0) = false).
  { destruct (LIBUS_SOCKET_ERROR E >? 0) eqn:H; [ apply Z.gtb_lt in H; lia | reflexivity ]. }
  assert (Hzero : (LIBUS_SOCKET_ERROR E =? 0) = false) by (apply Z.eqb_neq; lia).
  assert (Hloop : recv_loop E (S fuel) s error eof 0 st2
                  = (Done ReadableReturn, snd (us_socket_close E (Some s) (LIBUS_ERR E) st3),
                     [EvRecv fd (LIBUS_SOCKET_ERROR E);
                      EvSocketClose (Some s) (LIBUS_ERR E)])).
  { cbn [recv_loop]. rewrite lin_bind, (recv_once_plain E s st2 Hipc).
    unfold result_of at 1, state_of at 1, trace_of at 1. cbn [fst snd].
    fold fd. fold st3. rewrite Hrecv, Hpos, Hzero.
    rewrite run_gets_bind, Hwb, Z.eqb_refl. cbn [andb negb].
    rewrite lin_call_bind.
    unfold ret, prefixed, result_of, state_of, trace_of. cbn [fst snd app]. reflexivity. }
  assert (Hread : readable_phase E (S fuel) s error eof events st1
                  = (Done ReadableReturn, snd (us_socket_close E (Some s) (LIBUS_ERR E) st3),
                     t2 ++ [EvRecv fd (LIBUS_SOCKET_ERROR E);
                            EvSocketClose (Some s) (LIBUS_ERR E)])).
  { unfold readable_phase. rewrite Hreadable. cbn [negb].
    rewrite lin_bind, Hadm.
    unfold result_of at 1, state_of at 1, trace_of at 1. cbn [fst snd].
    rewrite Hloop. reflexivity. }
  unfold dispatch_socket. rewrite lin_bind, Hw.
  unfold result_of at 1, state_of at 1, trace_of at 1. cbn [fst snd].
  rewrite lin_bind, Hread.
  unfold ret, prefixed, result_of, state_of, trace_of. cbn [fst snd].
  rewrite app_nil_r. reflexivity.
Qed.

Lemma failed_receive_closes_once_witness :
  dispatch_socket (with_would_block (fun _ => false) sim) 1 1 5 1 1 (sim_state0 sim_world0)
  = (Done tt, snd (sim_close (Some 1%nat) (sim_state0 sim_world0)),
     [] ++ [EvIsLowPrio 0 1 false] ++ [EvRecv 1 (-1); EvSocketClose (Some 1%nat) 0]).
Proof.
  refine (failed_receive_closes_once (with_would_block (fun _ => false) sim) 1 1 5 1 1
            (sim_state0 sim_world0) 1 (sim_state0 sim_world0) (sim_state0 sim_world0)
            [] [EvIsLowPrio 0 1 false] _ _ _ _ _ _ _ _).
  - reflexivity.
  - simpl. discriminate.
  - reflexivity.
  - reflexivity.
  - reflexivity.
  - simpl. lia.
  - reflexivity.
  - lia.
Defined.

Lemma dispatch_after_readable {W} (E : env W) (fuel : nat) (p : nat)
      (error eof events : Z) (st : state W) (s : nat) (st1 st2 st3 : state W)
      (t1 t2 t3 : list event) (s' : ptr) (eof' : Z) :
  writable_phase E p error events st = (Done (Some s), st1, t1) ->
  Z.land events (LIBUS_SOCKET_READABLE E) <> 0 ->
  low_prio_admission E s st1 = (Done true, st2, t2) ->
  recv_loop E fuel s error eof 0 st2 = (Done (ReadableDone s' eof'), st3, t3) ->
  dispatch_socket E fuel p error eof events st
  = prefixed (t1 ++ t2 ++ t3) (eof_and_error_phases E s' error eof' st3).
Proof.
  intros Hw Hreadable Hadm Hloop. apply Z.eqb_neq in Hreadable.
  assert (Hread : readable_phase E fuel s error eof events st1
                  = (Done (ReadableDone s' eof'), st3, t2 ++ t3)).
  { unfold readable_phase. rewrite Hreadable. cbn [negb].
    rewrite lin_bind, Hadm.
    unfold result_of at 1, state_of at 1, trace_of at 1. cbn [fst snd].
    rewrite Hloop. reflexivity. }
  unfold dispatch_socket. rewrite lin_bind, Hw.
  unfold result_of at 1, state_of at 1, trace_of at 1. cbn [fst snd].
  rewrite lin_bind, Hread.
  unfold result_of at 1, state_of at 1, trace_of at 1. cbn [fst snd].
  unfold prefixed. cbn [result_of state_of trace_of fst snd].
  rewrite <- !app_assoc. reflexivity.
Qed.

(** X12.  A receive of zero bytes is the end of the stream.  When a socket
    admitted to the readable phase is not an IPC socket and bsd_recv
    returns 0, on_data is not called and the dispatch goes on with the EOF
    phase and the error phase exactly as for an event with the eof flag
    set, whether the poller reported eof or not. *)
Theorem empty_receive_is_end_of_stream {W} (E : env W) (fuel : nat) (p : nat)
        (error eof events : Z) (st : state W) (s : nat) (st1 st2 : state W)
        (t1 t2 : list event) :
  writable_phase E p error events st = (Done (Some s), st1, t1) ->
  Z.land events (LIBUS_SOCKET_READABLE E) <> 0 ->
  low_prio_admission E s st1 = (Done true, st2, t2) ->
  is_ipc (flags (sockets st2 s)) = false ->
  let fd := us_poll_fd E st2 s in
  let st3 := snd (bsd_recv E fd st2) in
  fst (bsd_recv E fd st2) = 0 ->
  (1 <= fuel)%nat ->
  dispatch_socket E fuel p error eof events st
  = prefixed (t1 ++ t2 ++ [EvRecv fd 0]) (eof_and_error_phases E (Some s) error 1 st3).
Proof.
  intros Hw Hreadable Hadm Hipc fd st3 Hrecv Hfuel.
  destruct fuel as [ | fuel]; [ lia | ].
  apply (dispatch_after_readable E (S fuel) p error eof events st s st1 st2 st3 t1 t2);
    try assumption.
  cbn [recv_loop]. rewrite lin_bind, (recv_once_plain E s st2 Hipc).
  unfold result_of at 1, state_of at 1, trace_of at 1. cbn [fst snd].
  fold fd. fold st3. rewrite Hrecv. cbn [Z.gtb Z.compare Z.eqb].
  unfold ret, prefixed, result_of, state_of, trace_of. cbn [fst snd app]. reflexivity.
Qed.

Lemma empty_receive_is_end_of_stream_witness :
  trace_of (dispatch_socket sim 1 1 0 0 1 (with_world (w_set_recv [0]) (sim_at_eof false false)))
  = [EvIsLowPrio 0 1 false; EvRecv 1 0; EvOnEnd 0 1; EvSocketClose (Some 1%nat) 0].
Proof.
  rewrite (empty_receive_is_end_of_stream sim 1 1 0 0 1
             (with_world (w_set_recv [0]) (sim_at_eof false false)) 1
             (with_world (w_set_recv [0]) (sim_at_eof false false))
             (with_world (w_set_recv [0]) (sim_at_eof false false))
             [] [EvIsLowPrio 0 1 false]).
  - reflexivity.
  - reflexivity.
  - simpl. discriminate.
  - reflexivity.
  - reflexivity.
  - reflexivity.
  - lia.
Defined.

(** X13.  A receive that only would block is harmless.  When a socket
    admitted to the readable phase is not an IPC socket and bsd_recv
    returns a negative value that is not a hard failure (it is not
    LIBUS_SOCKET_ERROR, or bsd_would_block says yes), neither on_data nor
    us_socket_close is called for it and the dispatch goes on with the EOF
    and error phases for the flags the poller reported; with both flags
    clear the dispatch ends right after the receive. *)
Theorem blocked_receive_is_harmless {W} (E : env W) (fuel : nat) (p : nat)
        (error eof events : Z) (st : state W) (s : nat) (st1 st2 : state W)
        (t1 t2 : list event) :
  writable_phase E p error events st = (Done (Some s), st1, t1) ->
  Z.land events (LIBUS_SOCKET_READABLE E) <> 0 ->
  low_prio_admission E s st1 = (Done true, st2, t2) ->
  is_ipc (flags (sockets st2 s)) = false ->
  let fd := us_poll_fd E st2 s in
  let n := fst (bsd_recv E fd st2) in
  let st3 := snd (bsd_recv E fd st2) in
  n < 0 ->
  n <> LIBUS_SOCKET_ERROR E \/ bsd_would_block E st3 = true ->
  (1 <= fuel)%nat ->
  dispatch_socket E fuel p error eof events st
  = prefixed (t1 ++ t2 ++ [EvRecv fd n]) (eof_and_error_phases E (Some s) error eof st3)
  /\ (error = 0 -> eof = 0 ->
      dispatch_socket E fuel p error eof events st = (Done tt, st3, t1 ++ t2 ++ [EvRecv fd n])).
Proof.
  intros Hw Hreadable Hadm Hipc fd n st3 Hneg Hsoft Hfuel.
  destruct fuel as [ | fuel]; [ lia | ].
  assert (Hd : dispatch_socket E (S fuel) p error eof events st
               = prefixed (t1 ++ t2 ++ [EvRecv fd n])
                          (eof_and_error_phases E (Some s) error eof st3)).
  { apply (dispatch_after_readable E (S fuel) p error eof events st s st1 st2 st3 t1 t2);
      try assumption.
    cbn [recv_loop]. rewrite lin_bind, (recv_once_plain E s st2 Hipc).
    unfold result_of at 1, state_of at 1, trace_of at 1. cbn [fst snd].
    fold fd. fold n. fold st3.
    assert (Hpos : (n >? 0) = false).
    { destruct (n >? 0) eqn:H; [ apply Z.gtb_lt in H; lia | reflexivity ]. }
    assert (Hzero : (n =? 0) = false) by (apply Z.eqb_neq; lia).
    rewrite Hpos, Hzero, run_gets_bind.
    assert (Hhard : (n =? LIBUS_SOCKET_ERROR E) && negb (bsd_would_block E st3) = false).
    { destruct Hsoft as [Hne | Hwb].
      - apply Z.eqb_neq in Hne. now rewrite Hne.
      - rewrite Hwb. apply andb_false_r. }
    rewrite Hhard.
    unfold ret, prefixed, result_of, state_of, trace_of. cbn [fst snd app]. reflexivity. }
  split; [ exact Hd | ].
  intros -> ->. rewrite Hd. unfold eof_and_error_phases, error_phase. cbn [Z.eqb negb].
  unfold ret, prefixed, result_of, state_of, trace_of. cbn [fst snd].
  rewrite !app_nil_r. reflexivity.
Qed.

Lemma blocked_receive_is_harmless_witness :
  dispatch_socket sim 1 1 0 0 1 (sim_state0 sim_world0)
  = (Done tt, sim_state0 sim_world0, [] ++ [EvIsLowPrio 0 1 false] ++ [EvRecv 1 (-1)]).
Proof.
  refine (proj2 (blocked_receive_is_harmless sim 1 1 0 0 1 (sim_state0 sim_world0) 1
                   (sim_state0 sim_world0) (sim_state0 sim_world0) []
                   [EvIsLowPrio 0 1 false] _ _ _ _ _ _ _) eq_refl eq_refl).
  - reflexivity.
  - simpl. discriminate.
  - reflexivity.
  - reflexivity.
  - simpl. lia.
  - right. reflexivity.
  - lia.
Defined.

(** ** The writable phase *)

(** X14.  A writable handler that gives the socket up ends the dispatch.
    For a writable event without the error flag the loop's
    last_write_failed is cleared and on_writable is called; when the
    handler returns NULL or a socket that is closed, the dispatch returns
    right there: nothing is received and neither the EOF phase nor the
    error phase runs, whatever else the event reports. *)
Theorem closing_on_writable_ends_dispatch {W} (E : env W) (fuel : nat) (p : nat)
        (eof events : Z) (st : state W) :
  Z.land events (LIBUS_SOCKET_WRITABLE E) <> 0 ->
  let c := s_context (sockets st p) in
  let r := on_writable E c p (with_data (data_set_last_write_failed 0) st) in
  match fst r with
  | None => True
  | Some s1 => us_socket_is_closed E (snd r) s1 = true
  end ->
  dispatch_socket E fuel p 0 eof events st = (Done tt, snd r, [EvOnWritable c p]).
Proof.
  intros Hwritable c r Hgone. apply Z.eqb_neq in Hwritable.
  assert (Hw : writable_phase E p 0 events st = (Done None, snd r, [EvOnWritable c p])).
  { unfold writable_phase. rewrite Hwritable. cbn [negb andb Z.eqb].
    rewrite run_modify_bind, run_gets_bind, lin_call_bind.
    change (s_context (sockets (with_data (data_set_last_write_failed 0) st) p)) with c.
    fold r. destruct (fst r) as [s1 | ].
    - rewrite run_gets_bind, Hgone. reflexivity.
    - reflexivity. }
  unfold dispatch_socket. rewrite lin_bind, Hw. reflexivity.
Qed.

Lemma closing_on_writable_ends_dispatch_witness :
  dispatch_socket sim 1 1 0 1 5 (with_world (w_set_closed [1%nat]) (sim_state0 sim_world0))
  = (Done tt,
     with_data (data_set_last_write_failed 0)
               (with_world (w_set_closed [1%nat]) (sim_state0 sim_world0)),
     [EvOnWritable 0 1]).
Proof.
  refine (closing_on_writable_ends_dispatch sim 1 1 1 5
            (with_world (w_set_closed [1%nat]) (sim_state0 sim_world0)) _ _).
  - simpl. discriminate.
  - reflexivity.
Defined.

(** ** An event with the error flag *)

Section ErrorEvent.
Context {W : Type} (E : env W).

Let Q := @all_events W not_writable_callback.

Ltac quiet_auto :=
  respects_auto ltac:(apply all_events_refl) ltac:(apply all_events_trans)
                ltac:(intros; unfold all_events; repeat constructor).

Lemma dispatch_callback_quiet p : respects Q (dispatch_callback E p).
Proof. unfold dispatch_callback, Q. quiet_auto. Qed.

Lemma accept_one_quiet l fd : respects Q (accept_one E l fd).
Proof. unfold accept_one, Q. quiet_auto. Qed.

Lemma accept_loop_quiet fuel : forall l fd, respects Q (accept_loop E fuel l fd).
Proof.
  induction fuel as [ | fuel IH]; intros l fd; cbn [accept_loop]; unfold Q in *.
  - quiet_auto.
  - pose proof (accept_one_quiet l fd). unfold Q in *. quiet_auto.
Qed.

Lemma dispatch_semi_socket_quiet fuel p error eof :
  respects Q (dispatch_semi_socket E fuel p error eof).
Proof.
  unfold dispatch_semi_socket. pose proof (accept_loop_quiet fuel). unfold Q in *.
  quiet_auto.
Qed.

Lemma writable_phase_quiet s error events :
  error <> 0 -> respects Q (writable_phase E s error events).
Proof.
  intros He. apply Z.eqb_neq in He. unfold writable_phase, Q.
  rewrite He, andb_false_r. quiet_auto.
Qed.

Lemma low_prio_defer_quiet c s : respects Q (low_prio_defer E c s).
Proof. unfold low_prio_defer, Q. quiet_auto. Qed.

Lemma low_prio_admission_quiet s : respects Q (low_prio_admission E s).
Proof.
  unfold low_prio_admission. pose proof low_prio_defer_quiet. unfold Q in *. quiet_auto.
Qed.

Lemma recv_once_quiet s : respects Q (recv_once E s).
Proof. unfold recv_once, Q. quiet_auto. Qed.

Lemma recv_loop_quiet fuel :
  forall s error eof count, respects Q (recv_loop E fuel s error eof count).
Proof.
  induction fuel as [ | fuel IH]; intros s error eof count; cbn [recv_loop]; unfold Q in *.
  - quiet_auto.
  - pose proof (recv_once_quiet s). unfold Q in *. quiet_auto.
Qed.

Lemma readable_phase_quiet fuel s error eof events :
  respects Q (readable_phase E fuel s error eof events).
Proof.
  unfold readable_phase. pose proof (low_prio_admission_quiet s).
  pose proof (recv_loop_quiet fuel s error eof 0). unfold Q in *. quiet_auto.
Qed.

Lemma eof_phase_quiet s : respects Q (eof_phase E s).
Proof. unfold eof_phase, Q. quiet_auto. Qed.

Lemma error_phase_quiet s error : respects Q (error_phase E s error).
Proof. unfold error_phase, Q. quiet_auto. Qed.

Lemma eof_and_error_phases_quiet s error eof :
  respects Q (eof_and_error_phases E s error eof).
Proof.
  unfold eof_and_error_phases.
  pose proof eof_phase_quiet. pose proof error_phase_quiet.
  unfold Q in *. quiet_auto.
Qed.

Lemma dispatch_socket_quiet fuel p error eof events :
  error <> 0 -> respects Q (dispatch_socket E fuel p error eof events).
Proof.
  intros He. unfold dispatch_socket.
  pose proof (writable_phase_quiet p error events He).
  pose proof readable_phase_quiet. pose proof eof_and_error_phases_quiet.
  unfold Q in *. quiet_auto.
Qed.

(** The receive loop of a UDP socket never clears the error flag. *)
Lemma udp_recv_loop_quiet fuel :
  forall u error st,
    error <> 0 ->
    Q st (state_of (udp_recv_loop E fuel u error st)) (trace_of (udp_recv_loop E fuel u error st))
    /\ forall error1, result_of (udp_recv_loop E fuel u error st) = Done error1 -> error1 <> 0.
Proof.
  induction fuel as [ | fuel IH]; intros u error st He; cbn [udp_recv_loop].
  - split; [ apply all_events_refl | intros error1 H; discriminate H ].
  - rewrite run_gets_bind, lin_call_bind. open_prefixed.
    set (r := bsd_recvmmsg E (us_poll_fd E st u) st).
    destruct (fst r >? 0).
    + rewrite lin_call__bind. open_prefixed. rewrite run_gets_bind.
      destruct (u_closed (udp_sockets (udp_on_data E u (fst r) (snd r)) u)).
      * split; [ | intros error1 H; injection H as <-; exact He ].
        unfold Q, all_events, ret, trace_of. cbn [snd app]. repeat constructor.
      * destruct (IH u error (udp_on_data E u (fst r) (snd r)) He) as [H1 H2].
        split; [ | exact H2 ].
        unfold Q, all_events in *. repeat (constructor; [ exact I | ]). exact H1.
    + destruct (fst r =? LIBUS_SOCKET_ERROR E).
      * rewrite run_gets_bind. destruct (bsd_would_block E (snd r)); cbn [negb].
        -- split; [ | intros error1 H; injection H as <-; exact He ].
           unfold Q, all_events, ret, trace_of. cbn [snd app]. repeat constructor.
        -- split; [ | intros error1 H; injection H as <-; discriminate ].
           unfold Q, all_events, ret, trace_of. cbn [snd app]. repeat constructor.
      * split; [ | intros error1 H; injection H as <-; exact He ].
        unfold Q, all_events, ret, trace_of. cbn [snd app]. repeat constructor.
Qed.

Lemma dispatch_udp_tail_quiet u error1 closed1 events :
  error1 <> 0 ->
  respects Q
    (drained <- (if negb (Z.land events (LIBUS_SOCKET_WRITABLE E) =? 0)
                    && (error1 =? 0) && negb closed1 then
                   call_ (fun _ => EvUdpOnDrain u) (udp_on_drain E u) ;;
                   closed2 <- gets (fun st => u_closed (udp_sockets st u)) ;;
                   if closed2 then ret false
                   else
                     ev <- gets (fun st => us_poll_events E st u) ;;
                     call_ (fun _ => EvPollChange u (Z.land ev (LIBUS_SOCKET_READABLE E)))
                           (us_poll_change E u (Z.land ev (LIBUS_SOCKET_READABLE E))) ;;
                     ret true
                 else ret true) ;;
     if drained then
       closed3 <- gets (fun st => u_closed (udp_sockets st u)) ;;
       if negb (error1 =? 0) && negb closed3
       then call_ (fun _ => EvUdpSocketClose u) (us_udp_socket_close E u)
       else ret tt
     else ret tt).
Proof.
  intros He. apply Z.eqb_neq in He. rewrite He, andb_false_r. cbn [andb].
  unfold Q. quiet_auto.
Qed.

Lemma dispatch_udp_quiet fuel u error events :
  error <> 0 -> respects Q (dispatch_udp E fuel u error events).
Proof.
  intros He st. unfold dispatch_udp. rewrite run_gets_bind.
  destruct (u_closed (udp_sockets st u)); [ apply all_events_refl | ].
  destruct (negb (Z.land events (LIBUS_SOCKET_READABLE E) =? 0)).
  - destruct (udp_recv_loop_quiet fuel u error st He) as [H1 H2].
    rewrite lin_bind.
    destruct (result_of (udp_recv_loop E fuel u error st)) as [error1 | why] eqn:Hr.
    + open_prefixed. rewrite run_gets_bind.
      eapply all_events_trans; [ exact H1 | ].
      apply (dispatch_udp_tail_quiet u error1 _ events (H2 error1 eq_refl)).
    + exact H1.
  - rewrite run_ret_bind, run_gets_bind.
    apply (dispatch_udp_tail_quiet u error _ events He).
Qed.

Lemma dispatch_ready_poll_quiet fuel p error eof events :
  error <> 0 -> respects Q (us_internal_dispatch_ready_poll E fuel p error eof events).
Proof.
  intros He. unfold us_internal_dispatch_ready_poll.
  pose proof (dispatch_callback_quiet p).
  pose proof (dispatch_semi_socket_quiet fuel p error eof).
  pose proof (dispatch_socket_quiet fuel p error eof events He).
  pose proof (dispatch_udp_quiet fuel p error events He).
  unfold Q in *. quiet_auto.
Qed.
End ErrorEvent.

(** X15.  An event with the error flag never reaches a writable handler.
    Whatever the type of the poll, the events reported with it and the
    behaviour of the callbacks and of the kernel, a dispatch with a
    non-zero error flag calls neither on_writable of a socket context nor
    on_drain of a UDP socket; this holds for every call made in the run,
    whether the dispatch comes to an end or not. *)
Theorem error_event_skips_writable_handlers {W} (E : env W) (fuel : nat) (p : nat)
        (error eof events : Z) (st : state W) :
  error <> 0 ->
  Forall not_writable_callback
         (trace_of (us_internal_dispatch_ready_poll E fuel p error eof events st)).
Proof.
  intros He. apply (dispatch_ready_poll_quiet E fuel p error eof events He st).
Qed.

Lemma error_event_skips_writable_handlers_witness :
  Forall not_writable_callback
         (trace_of (us_internal_dispatch_ready_poll sim 5 1 1 0 5 (sim_state0 sim_world0)))
  /\ trace_of (us_internal_dispatch_ready_poll sim 5 1 1 0 5 (sim_state0 sim_world0))
     = [EvIsLowPrio 0 1 false; EvRecv 1 (-1); EvSocketClose (Some 1%nat) 1]
  /\ trace_of (us_internal_dispatch_ready_poll sim 5 1 0 0 5 (sim_state0 sim_world0))
     = [EvOnWritable 0 1; EvPollChange 1 1; EvIsLowPrio 0 1 false; EvRecv 1 (-1)].
Proof.
  split; [ | split; reflexivity ].
  apply (error_event_skips_writable_handlers sim 5 1 1 0 5 (sim_state0 sim_world0)).
  discriminate.
Defined.

(** ** The socket handed to on_open *)

(** X16.  An accepted socket starts fresh.  For each accepted descriptor
    the accept loop creates a poll, asking us_create_poll for
    sizeof(struct us_socket_t) - sizeof(struct us_poll_t) plus the listen
    socket's socket_ext_size bytes of extension (computed in size_t),
    starts it polling for READABLE, switches nodelay on, links
    the socket into the listen socket's context and calls on_open of that
    context; in the state on_open is entered with, the new socket belongs
    to the listen socket's context, is not connecting, has both timeouts
    disarmed (255), low_prio_state 0, is neither paused nor an IPC socket,
    and has the allow_half_open policy of the listen socket.
    bsd_socket_nodelay and us_internal_socket_context_link_socket leave
    these fields alone. *)
Theorem accepted_socket_starts_fresh {W} (E : env W) (l : nat) (fd : Z) (st : state W) :
  (forall fd, keeps_socket_fields (bsd_socket_nodelay E fd)) ->
  (forall c s, keeps_socket_fields (us_internal_socket_context_link_socket E c s)) ->
  let ext := (sizeof_us_socket_t E - sizeof_us_poll_t E + listen_socket_ext_size st l)
             mod 2 ^ 64 in
  let s := fst (us_create_poll E ext st) in
  let st0 := us_poll_start E s (LIBUS_SOCKET_READABLE E)
               (us_poll_init E s fd POLL_TYPE_SOCKET (snd (us_create_poll E ext st))) in
  let c := s_context (sockets st0 l) in
  exists st1,
    accept_one E l fd st
    = (Done tt, on_open E c s st1,
       [EvCreatePoll ext s; EvPollInit s fd POLL_TYPE_SOCKET;
        EvPollStart s (LIBUS_SOCKET_READABLE E); EvLowPrioState s 0; EvNodelay fd;
        EvLinkSocket c s; EvOnOpen c s])
    /\ fresh_socket c (allow_half_open (flags (sockets st0 l))) (sockets st1 s).
Proof.
  intros Hnodelay Hlink ext s st0 c.
  unfold accept_one, accepted_ext_size. rewrite run_gets_bind. fold ext.
  rewrite lin_call_bind. fold s.
  rewrite !lin_call__bind. fold st0.
  rewrite !run_modify_bind, lin_emit_bind, !run_modify_bind.
  fold c.
  match goal with
  | |- context [ bind _ _ ?stx ] => set (stN := stx)
  end.
  assert (Hl : s_context (sockets stN l) = c).
  { unfold stN. cbn [sockets with_socket]. unfold upd.
    destruct (Nat.eqb l s) eqn:Hls; [ | reflexivity ].
    rewrite ?Nat.eqb_refl. reflexivity. }
  assert (Hhalf : allow_half_open
                    (flags (sockets
                      (with_socket s (sock_set_flags (set_flags_low_prio_state 0))
                        (with_socket s (sock_set_long_timeout 255)
                          (with_socket s (sock_set_timeout 255)
                            (with_socket s (sock_set_connect_state None)
                              (with_socket s (sock_set_context c) st0))))) l))
                  = allow_half_open (flags (sockets st0 l))).
  { cbn [sockets with_socket]. unfold upd.
    destruct (Nat.eqb l s) eqn:Hls; [ | reflexivity ].
    apply Nat.eqb_eq in Hls. rewrite ?Nat.eqb_refl. cbn. now rewrite <- Hls. }
  assert (Hs : fresh_socket c (allow_half_open (flags (sockets st0 l))) (sockets stN s)).
  { unfold stN. rewrite Hhalf. cbn [sockets with_socket]. rewrite !upd_same.
    repeat split. }
  destruct (Hnodelay fd stN l) as (Hn1 & _).
  destruct (Hlink c s (bsd_socket_nodelay E fd stN) l) as (Hk1 & _).
  exists (us_internal_socket_context_link_socket E c s (bsd_socket_nodelay E fd stN)).
  split.
  - rewrite lin_call__bind, run_gets_bind, Hn1, Hl.
    rewrite lin_call__bind, run_gets_bind, Hk1, Hn1, Hl.
    reflexivity.
  - destruct Hs as (F1 & F2 & F3 & F4 & F5).
    destruct (Hnodelay fd stN s) as (N1 & N2 & N3 & N4 & N5).
    destruct (Hlink c s (bsd_socket_nodelay E fd stN) s) as (K1 & K2 & K3 & K4 & K5).
    unfold fresh_socket. repeat split; congruence.
Qed.

Lemma accepted_socket_starts_fresh_witness :
  exists st1,
    accept_one sim 0 7 (sim_listening None)
    = (Done tt, on_open sim 0 100 st1,
       [EvCreatePoll 48 100; EvPollInit 100 7 POLL_TYPE_SOCKET; EvPollStart 100 1;
        EvLowPrioState 100 0; EvNodelay 7; EvLinkSocket 0 100; EvOnOpen 0 100])
    /\ fresh_socket 0 false (sockets st1 100).
Proof.
  refine (accepted_socket_starts_fresh sim 0 7 (sim_listening None) _ _).
  - intros fd st y. repeat split.
  - intros c s st y. repeat split.
Defined.

(** ** From deferral to the next read *)

Section Turn.
Context {W : Type} (E : env W).

Hypothesis change_keeps : forall s ev, keeps_queue (us_poll_change E s ev) s.
Hypothesis link_keeps : forall c s,
    keeps_queue (us_internal_socket_context_link_socket E c s) s.
Hypothesis change_states : forall s ev, keeps_other_states (us_poll_change E s ev) s.
Hypothesis link_states : forall c s,
    keeps_other_states (us_internal_socket_context_link_socket E c s) s.

Lemma others_state_refl s0 (st : state W) : others_state s0 st st [].
Proof. intros y _. reflexivity. Qed.

Lemma others_state_trans s0 (a b c : state W) t1 t2 :
  others_state s0 a b t1 -> others_state s0 b c t2 -> others_state s0 a c (t1 ++ t2).
Proof. intros H1 H2 y Hy. rewrite (H2 y Hy). apply H1. exact Hy. Qed.

Lemma low_prio_promote_others s0 : respects (others_state s0) (low_prio_promote E s0).
Proof.
  unfold low_prio_promote.
  respects_auto ltac:(apply others_state_refl) ltac:(apply others_state_trans)
    ltac:(intros st y Hy;
          first [ reflexivity
                | apply change_states; exact Hy
                | apply link_states; exact Hy
                | cbn [sockets with_socket]; unfold upd;
                  match goal with
                  | |- context [ Nat.eqb y ?k ] =>
                      destruct (Nat.eqb_spec y k) as [Heq | Hne];
                      [ try contradiction; subst y; reflexivity | reflexivity ]
                  end ]).
Qed.

Lemma low_prio_loop_others fuel :
  forall l st y,
    parked st l -> ~ In y l ->
    low_prio_state (flags (sockets (state_of (low_prio_loop E fuel st)) y))
    = low_prio_state (flags (sockets st y)).
Proof.
  induction fuel as [ | fuel IH]; intros l st y Hparked Hy.
  - rewrite low_prio_loop_zero.
    destruct (low_prio_head (data st)); [ | reflexivity ].
    destruct (low_prio_budget (data st) >? 0); reflexivity.
  - rewrite low_prio_loop_step.
    destruct (low_prio_head (data st)) as [s0 | ] eqn:Hhead; [ | reflexivity ].
    destruct (low_prio_budget (data st) >? 0); [ | reflexivity ].
    destruct l as [ | x l'].
    { destruct Hparked as [Hc _]. simpl in Hc. congruence. }
    assert (x = s0).
    { destruct Hparked as [[Hc _] _]. congruence. }
    subst x.
    destruct (low_prio_promote_pops E change_keeps link_keeps s0 l' st Hparked)
      as (Hr & _ & _ & Hp & _).
    rewrite lin_bind, Hr, state_of_prefixed, run_modify_bind.
    set (stP := state_of (low_prio_promote E s0 st)) in *.
    rewrite (IH l' _ y).
    + cbn [sockets with_data]. apply (low_prio_promote_others s0 st).
      intros ->. apply Hy. now left.
    + exact Hp.
    + intros Hin. apply Hy. now right.
Qed.

Lemma deferred_then_promoted fuel s l (st1 : state W) :
  parked st1 (s :: l) ->
  (5 <= fuel)%nat ->
  result_of (us_internal_handle_low_priority_sockets E fuel st1) = Done tt
  /\ promoted (trace_of (us_internal_handle_low_priority_sockets E fuel st1))
     = s :: firstn 4 l
  /\ low_prio_state
       (flags (sockets (state_of (us_internal_handle_low_priority_sockets E fuel st1)) s)) = 2.
Proof.
  intros Hparked Hfuel.
  unfold us_internal_handle_low_priority_sockets. rewrite run_modify_bind.
  set (st2 := with_data (data_set_low_prio_budget MAX_LOW_PRIO_SOCKETS_PER_LOOP_ITERATION) st1).
  assert (Hp2 : parked st2 (s :: l)) by exact Hparked.
  destruct (low_prio_loop_promotes E change_keeps link_keeps fuel (s :: l) st2 Hp2)
    as (Hr & Ht & _).
  { unfold budget_of, st2. cbn. unfold MAX_LOW_PRIO_SOCKETS_PER_LOOP_ITERATION. lia. }
  { unfold budget_of, st2. cbn. unfold MAX_LOW_PRIO_SOCKETS_PER_LOOP_ITERATION. lia. }
  split; [ exact Hr | split; [ exact Ht | ] ].
  destruct fuel as [ | fuel]; [ lia | ].
  rewrite low_prio_loop_step.
  assert (Hhead : low_prio_head (data st2) = Some s).
  { destruct Hp2 as [[Hc _] _]. exact Hc. }
  rewrite Hhead.
  change (low_prio_budget (data st2) >? 0) with true. cbv iota.
  destruct (low_prio_promote_pops E change_keeps link_keeps s l st2 Hp2)
    as (Hr1 & _ & _ & Hp & Hs).
  rewrite lin_bind, Hr1, state_of_prefixed, run_modify_bind.
  rewrite (low_prio_loop_others fuel l _ s).
  - exact Hs.
  - exact Hp.
  - pose proof (chain_NoDup _ _ _ (proj1 Hp2)) as Hnd.
    inversion Hnd; assumption.
Qed.

Lemma promoted_socket_is_read s (st3 : state W) :
  let c := s_context (sockets st3 s) in
  fst (is_low_prio E c s st3) = true ->
  low_prio_state (flags (sockets (snd (is_low_prio E c s st3)) s)) = 2 ->
  low_prio_admission E s st3
  = (Done true,
     with_socket s (sock_set_flags (set_flags_low_prio_state 0)) (snd (is_low_prio E c s st3)),
     [EvIsLowPrio c s true; EvLowPrioState s 0]).
Proof.
  intros c Hlp Hstate. unfold low_prio_admission.
  rewrite run_gets_bind, lin_call_bind. fold c. rewrite Hlp, run_gets_bind, Hstate.
  cbn [Z.eqb Pos.eqb]. rewrite run_modify_bind, lin_emit_bind. reflexivity.
Qed.
End Turn.

(** X17.  A deferred socket gets its turn.  A socket deferred onto the
    low-priority queue is at its head, so the next run of
    us_internal_handle_low_priority_sockets promotes it first (followed by
    up to four of the sockets queued before it) and leaves it in
    low_prio_state 2, whatever is promoted after it.  At its next readable
    event a socket in state 2 that is still classified low-priority is
    admitted to the receive loop whatever the budget is: its state goes
    back to 0 and the budget is not touched.  The collaborators keep out
    of the queue and leave the low-priority state of other sockets
    alone. *)
Theorem deferred_socket_gets_its_turn {W} (E : env W) (fuel : nat) (c s : nat)
        (l : list nat) (st : state W) :
  (forall s ev, keeps_queue (us_poll_change E s ev) s) ->
  (forall c s, keeps_queue (us_socket_context_ref E c) s) ->
  (forall c s, keeps_queue (us_internal_socket_context_unlink_socket E c s) s) ->
  (forall c s, keeps_queue (us_internal_socket_context_link_socket E c s) s) ->
  (forall s ev, keeps_other_states (us_poll_change E s ev) s) ->
  (forall c s, keeps_other_states (us_internal_socket_context_link_socket E c s) s) ->
  parked st l ->
  ~ In s l ->
  (5 <= fuel)%nat ->
  let pre := us_internal_handle_low_priority_sockets E fuel
               (state_of (low_prio_defer E c s st)) in
  result_of pre = Done tt
  /\ promoted (trace_of pre) = s :: firstn 4 l
  /\ low_prio_state (flags (sockets (state_of pre) s)) = 2
  /\ forall st3 : state W,
       let c3 := s_context (sockets st3 s) in
       fst (is_low_prio E c3 s st3) = true ->
       low_prio_state (flags (sockets (snd (is_low_prio E c3 s st3)) s)) = 2 ->
       low_prio_admission E s st3
       = (Done true,
          with_socket s (sock_set_flags (set_flags_low_prio_state 0))
                      (snd (is_low_prio E c3 s st3)),
          [EvIsLowPrio c3 s true; EvLowPrioState s 0]).
Proof.
  intros Hchange Href Hunlink Hlink Hcs Hls Hparked Hnotin Hfuel pre.
  pose proof (low_prio_defer_pushes E Hchange Href Hunlink c s l st Hparked Hnotin) as Hp1.
  destruct (deferred_then_promoted E Hchange Hlink Hcs Hls fuel s l _ Hp1 Hfuel)
    as (H1 & H2 & H3).
  split; [ exact H1 | split; [ exact H2 | split; [ exact H3 | ] ] ].
  intros st3 c3. apply promoted_socket_is_read.
Qed.

Lemma deferred_socket_gets_its_turn_witness :
  let pre := us_internal_handle_low_priority_sockets sim 5
               (state_of (low_prio_defer sim 0 8 (sim_parked 2))) in
  promoted (trace_of pre) = [8%nat; 1%nat; 2%nat]
  /\ low_prio_state (flags (sockets (state_of pre) 8)) = 2
  /\ result_of (low_prio_admission sim 8 (state_of pre)) = Done true
  /\ trace_of (low_prio_admission sim 8 (state_of pre))
     = [EvIsLowPrio 0 8 true; EvLowPrioState 8 0]
  /\ budget_of (state_of (low_prio_admission sim 8 (state_of pre))) = budget_of (state_of pre).
Proof.
  intros pre.
  destruct (deferred_socket_gets_its_turn sim 5 0 8 [1%nat; 2%nat] (sim_parked 2))
    as (_ & H2 & H3 & H4).
  - exact sim_keeps_queue_change.
  - intros c s. exact (sim_keeps_queue_id s).
  - intros c s. exact (sim_keeps_queue_id s).
  - intros c s. exact (sim_keeps_queue_id s).
  - intros s ev st y _. reflexivity.
  - intros c s st y _. reflexivity.
  - split.
    + simpl. repeat split; reflexivity.
    + intros y [<- | [<- | []]]; reflexivity.
  - simpl. intuition discriminate.
  - lia.
  - fold pre in H2, H3.
    split; [ exact H2 | split; [ exact H3 | ] ].
    assert (Hlp : fst (is_low_prio sim (s_context (sockets (state_of pre) 8)) 8 (state_of pre))
                  = true) by (vm_compute; reflexivity).
    rewrite (H4 (state_of pre) Hlp H3).
    split; [ reflexivity | split; vm_compute; reflexivity ].
Defined.

(** ** The post-hook *)

(** X18.  The post-hook frees the closed contexts last and then calls
    back.  After the pending DNS results are handled and the closed
    sockets are freed, us_internal_free_closed_contexts frees every context
    on the loop's list of closed contexts exactly once, in list order,
    through us_free, reading the link of each context before freeing it,
    and empties the list; only then is the post callback of the loop
    called, as the last thing the hook does.  us_free leaves the links of
    the contexts not yet freed alone. *)
Theorem loop_post_frees_contexts_then_calls_back {W} (E : env W) (fuel : nat)
        (st : state W) (b : bool) (st1 st2 : state W) (t1 t2 : list event) (l : list nat) :
  us_internal_handle_dns_results E fuel st = (Done b, st1, t1) ->
  us_internal_free_closed_sockets E fuel st1 = (Done tt, st2, t2) ->
  (forall x y st, y <> x -> c_next (contexts (us_free E x st) y) = c_next (contexts st y)) ->
  chain (fun c => c_next (contexts st2 c)) (closed_context_head (data st2)) l ->
  (length l <= fuel)%nat ->
  let st3 := with_data (data_set_closed_context_head None) (free_all (us_free E) l st2) in
  us_internal_free_closed_contexts E fuel st2 = (Done tt, st3, map EvFree l)
  /\ closed_context_head (data st3) = None
  /\ us_internal_loop_post E fuel st
     = (Done tt, post_cb E st3, t1 ++ t2 ++ map EvFree l ++ [EvPostCb]).
Proof.
  intros Hdns Hsockets Hframe Hchain Hfuel st3.
  assert (Hctx : us_internal_free_closed_contexts E fuel st2 = (Done tt, st3, map EvFree l)).
  { unfold us_internal_free_closed_contexts. rewrite run_gets_bind.
    rewrite (bind_done _ _ _ _ _ _
               (free_chain_run (fun st x => c_next (contexts st x)) (us_free E) EvFree
                               Hframe l fuel _ st2 Hchain Hfuel)).
    unfold modify, prefixed, result_of, state_of, trace_of. cbn [fst snd].
    rewrite app_nil_r. reflexivity. }
  split; [ exact Hctx | split; [ reflexivity | ] ].
  unfold us_internal_loop_post.
  rewrite (bind_done _ _ _ _ _ _ Hdns), (bind_done _ _ _ _ _ _ Hsockets),
    (bind_done _ _ _ _ _ _ Hctx).
  unfold call_, prefixed, result_of, state_of, trace_of. cbn [fst snd]. reflexivity.
Qed.

Lemma loop_post_frees_contexts_then_calls_back_witness :
  let st := with_data (data_set_closed_context_head (Some 0%nat)) sim_armed in
  result_of (us_internal_loop_post sim 5 st) = Done tt
  /\ trace_of (us_internal_loop_post sim 5 st)
     = [EvLock; EvUnlock; EvFree 0; EvFree 1; EvPostCb].
Proof.
  intros st.
  destruct (loop_post_frees_contexts_then_calls_back sim 5 st false _ _ _ _ [0%nat; 1%nat]
              eq_refl eq_refl) as (_ & _ & H).
  - intros x y st0 _. reflexivity.
  - simpl. repeat split; reflexivity.
  - simpl. lia.
  - rewrite H. split; reflexivity.
Defined.

(** ** A timeout handler that unlinks its socket *)

(** X19.  The sweep keeps its hands off a socket its handler unlinked.
    When the short timeout of a socket is due, the sweep points the
    context's iterator at the socket, stores the sentinel and calls
    on_socket_timeout; when the handler moved the iterator away from the
    socket (as closing the socket does), the sweep does not write the
    socket's long timeout and does not call on_socket_long_timeout for
    it, even when that is due as well: the
    state the handler returned is left as it is, and the walk goes on with
    the socket the iterator points at, or ends when it is NULL. *)
Theorem sweep_leaves_unlinked_socket_alone {W} (E : env W) (context : nat)
        (short_ticks long_ticks : Z) (s : nat) (st : state W)
        (handler : nat -> state W -> state W) :
  on_socket_timeout E context = Some handler ->
  short_ticks = timeout (sockets st s) ->
  let st1 := handler s (with_socket s (sock_set_timeout 255)
                          (with_context context (ctx_set_iterator (Some s)) st)) in
  c_iterator (contexts st1 context) <> Some s ->
  sweep_emit E context short_ticks long_ticks s st
  = (Done (c_iterator (contexts st1 context)), st1, [EvOnSocketTimeout context s 255]).
Proof.
  intros Hh Hdue st1 Hmoved.
  assert (Hne : ptr_eqb (c_iterator (contexts st1 context)) (Some s) = false
                /\ ptr_eqb (Some s) (c_iterator (contexts st1 context)) = false).
  { destruct (c_iterator (contexts st1 context)) as [x | ]; [ | split; reflexivity ].
    cbn [ptr_eqb]. assert (x <> s) by congruence.
    split; apply Nat.eqb_neq; congruence. }
  destruct Hne as [Hne1 Hne2].
  unfold sweep_emit. rewrite run_modify_bind, run_gets_bind.
  change (timeout (sockets (with_context context (ctx_set_iterator (Some s)) st) s))
    with (timeout (sockets st s)).
  rewrite <- Hdue, Z.eqb_refl, Hh.
  set (st0 := with_context context (ctx_set_iterator (Some s)) st) in *.
  assert (Hcall : (modify (with_socket s (sock_set_timeout 255)) ;;
                   call_ (fun st => EvOnSocketTimeout context s (timeout (sockets st s)))
                         (handler s)) st0
                  = (Done tt, st1, [EvOnSocketTimeout context s 255])).
  { rewrite run_modify_bind. unfold call_. cbn [sockets with_socket].
    rewrite upd_same. reflexivity. }
  rewrite (bind_done _ _ _ _ _ _ Hcall).
  rewrite !run_gets_bind, Hne1. cbn [andb]. rewrite run_ret_bind, run_gets_bind, Hne2.
  unfold ret, prefixed, result_of, state_of, trace_of. cbn [fst snd app]. reflexivity.
Qed.

Lemma sweep_leaves_unlinked_socket_alone_witness :
  let st := with_socket 1 (sock_set_long_timeout 0) sim_armed in
  sweep_emit (with_socket_timeout (fun _ => Some closing_handler) sim) 0 1 0 1 st
  = (Done (Some 2%nat),
     closing_handler 1 (with_socket 1 (sock_set_timeout 255)
                          (with_context 0 (ctx_set_iterator (Some 1%nat)) st)),
     [EvOnSocketTimeout 0 1 255])
  /\ trace_of (sweep_emit sim 0 1 0 1 st)
     = [EvOnSocketTimeout 0 1 255; EvOnSocketLongTimeout 0 1 255].
Proof.
  intros st. split; [ | reflexivity ].
  refine (sweep_leaves_unlinked_socket_alone
            (with_socket_timeout (fun _ => Some closing_handler) sim) 0 1 0 1 st
            closing_handler _ _ _).
  - reflexivity.
  - reflexivity.
  - simpl. discriminate.
Defined.

(** ** UDP sockets *)

(** X20.  A UDP socket closed in its data handler is not touched again.
    When on_data of a readable UDP socket closes the socket, the receive
    loop is left at once and the dispatch ends: no further receive is
    made, on_drain is not called although the event may report writable,
    and us_udp_socket_close is not called although the error flag may be
    set. *)
Theorem udp_closed_in_handler_ends_dispatch {W} (E : env W) (fuel : nat) (u : nat)
        (error events : Z) (st : state W) :
  u_closed (udp_sockets st u) = false ->
  Z.land events (LIBUS_SOCKET_READABLE E) <> 0 ->
  let fd := us_poll_fd E st u in
  let n := fst (bsd_recvmmsg E fd st) in
  let st2 := udp_on_data E u n (snd (bsd_recvmmsg E fd st)) in
  n > 0 ->
  u_closed (udp_sockets st2 u) = true ->
  (1 <= fuel)%nat ->
  dispatch_udp E fuel u error events st
  = (Done tt, st2, [EvUdpRecvmmsg fd n; EvUdpOnData u n]).
Proof.
  intros Hopen Hreadable fd n st2 Hn Hclosed Hfuel.
  apply Z.eqb_neq in Hreadable.
  destruct fuel as [ | fuel]; [ lia | ].
  assert (Hpos : (n >? 0) = true) by (apply Z.gtb_lt; lia).
  assert (Hloop : udp_recv_loop E (S fuel) u error st
                  = (Done error, st2, [EvUdpRecvmmsg fd n; EvUdpOnData u n])).
  { cbn [udp_recv_loop]. rewrite run_gets_bind, lin_call_bind. fold fd. fold n.
    rewrite Hpos, lin_call__bind. fold st2. rewrite run_gets_bind, Hclosed. reflexivity. }
  unfold dispatch_udp. rewrite run_gets_bind, Hopen, Hreadable. cbn [negb].
  rewrite (bind_done _ _ _ _ _ _ Hloop).
  rewrite run_gets_bind, Hclosed. cbn [negb]. rewrite andb_false_r, run_ret_bind.
  rewrite run_gets_bind, Hclosed. cbn [negb]. rewrite andb_false_r.
  unfold ret, prefixed, result_of, state_of, trace_of. cbn [fst snd].
  rewrite app_nil_r. reflexivity.
Qed.

Lemma udp_closed_in_handler_ends_dispatch_witness :
  let st := with_world (w_set_recv [3; 2]) (sim_state0 sim_world0) in
  trace_of (dispatch_udp (with_udp_on_data closing_udp_handler sim) 5 1 1 5 st)
  = [EvUdpRecvmmsg 1 3; EvUdpOnData 1 3]
  /\ trace_of (dispatch_udp sim 5 1 0 5 st)
     = [EvUdpRecvmmsg 1 3; EvUdpOnData 1 3; EvUdpRecvmmsg 1 2; EvUdpOnData 1 2;
        EvUdpRecvmmsg 1 (-1); EvUdpOnDrain 1; EvPollChange 1 1].
Proof.
  intros st. split; [ | reflexivity ].
  rewrite (udp_closed_in_handler_ends_dispatch
             (with_udp_on_data closing_udp_handler sim) 5 1 1 5 st).
  - reflexivity.
  - reflexivity.
  - simpl. discriminate.
  - simpl. lia.
  - reflexivity.
  - lia.
Defined.

(** X21.  A UDP receive that fails for good closes the socket and skips
    the drain.  When bsd_recvmmsg returns LIBUS_SOCKET_ERROR and
    bsd_would_block says no, the error is recorded for the rest of the
    dispatch: on_drain is not called although the event may report
    writable, and the socket, which is still open, is closed through
    us_udp_socket_close, whether the poller reported an error or not. *)
Theorem udp_failed_receive_closes {W} (E : env W) (fuel : nat) (u : nat)
        (error events : Z) (st : state W) :
  u_closed (udp_sockets st u) = false ->
  Z.land events (LIBUS_SOCKET_READABLE E) <> 0 ->
  let fd := us_poll_fd E st u in
  let st1 := snd (bsd_recvmmsg E fd st) in
  fst (bsd_recvmmsg E fd st) = LIBUS_SOCKET_ERROR E ->
  LIBUS_SOCKET_ERROR E <= 0 ->
  bsd_would_block E st1 = false ->
  u_closed (udp_sockets st1 u) = false ->
  (1 <= fuel)%nat ->
  dispatch_udp E fuel u error events st
  = (Done tt, us_udp_socket_close E u st1,
     [EvUdpRecvmmsg fd (LIBUS_SOCKET_ERROR E); EvUdpSocketClose u]).
Proof.
  intros Hopen Hreadable fd st1 Hrecv Hneg Hwb Hopen1 Hfuel.
  apply Z.eqb_neq in Hreadable.
  destruct fuel as [ | fuel]; [ lia | ].
  assert (Hpos : (LIBUS_SOCKET_ERROR E >? 0) = false).
  { destruct (LIBUS_SOCKET_ERROR E >? 0) eqn:H; [ apply Z.gtb_lt in H; lia | reflexivity ]. }
  assert (Hloop : udp_recv_loop E (S fuel) u error st
                  = (Done 1, st1, [EvUdpRecvmmsg fd (LIBUS_SOCKET_ERROR E)])).
  { cbn [udp_recv_loop]. rewrite run_gets_bind, lin_call_bind. fold fd. fold st1.
    rewrite Hrecv, Hpos, Z.eqb_refl, run_gets_bind, Hwb. reflexivity. }
  unfold dispatch_udp. rewrite run_gets_bind, Hopen, Hreadable. cbn [negb].
  rewrite (bind_done _ _ _ _ _ _ Hloop).
  rewrite run_gets_bind, Hopen1. cbn [negb Z.eqb]. rewrite andb_false_r. cbn [andb].
  rewrite run_ret_bind, run_gets_bind, Hopen1. cbn [negb andb].
  unfold call_, prefixed, result_of, state_of, trace_of. cbn [fst snd app]. reflexivity.
Qed.

Lemma udp_failed_receive_closes_witness :
  dispatch_udp (with_would_block (fun _ => false) sim) 1 1 0 5 (sim_state0 sim_world0)
  = (Done tt, sim_state0 sim_world0, [EvUdpRecvmmsg 1 (-1); EvUdpSocketClose 1]).
Proof.
  refine (udp_failed_receive_closes (with_would_block (fun _ => false) sim) 1 1 0 5
            (sim_state0 sim_world0) _ _ _ _ _ _ _).
  - reflexivity.
  - simpl. discriminate.
  - reflexivity.
  - simpl. lia.
  - reflexivity.
  - reflexivity.
  - lia.
Defined.

(** ** The whole sweep *)

Lemma keeps_shape_refl {W} (st : state W) : keeps_shape st st [].
Proof. split; [ reflexivity | intros c; reflexivity ]. Qed.

Lemma keeps_shape_trans {W} (a b c : state W) t1 t2 :
  keeps_shape a b t1 -> keeps_shape b c t2 -> keeps_shape a c (t1 ++ t2).
Proof.
  intros [H1 H2] [H3 H4]. split; [ congruence | ]. intros x. rewrite H4. apply H2.
Qed.

Lemma keeps_shape_iterator {W} (st : state W) context v t :
  keeps_shape st (with_context context (ctx_set_iterator v) st) t.
Proof.
  split; [ reflexivity | ]. intros c. cbn [contexts with_context]. unfold upd.
  destruct (Nat.eqb_spec c context) as [Hc | Hc]; [ subst c | ]; reflexivity.
Qed.

Section WholeSweep.
Context {W : Type} (E : env W).

Hypothesis short_quiet : forall context handler,
    on_socket_timeout E context = Some handler -> quiet_handler handler.
Hypothesis long_quiet : forall context handler,
    on_socket_long_timeout E context = Some handler -> quiet_handler handler.

Lemma quiet_handler_inert (handler : nat -> state W -> state W) :
  quiet_handler handler -> inert_handler handler.
Proof.
  intros Hq s st. destruct (Hq s st) as (Hs & Hc & _). rewrite Hs, Hc.
  split; [ intros y; repeat split | intros c; reflexivity ].
Qed.

Lemma quiet_handler_shape (handler : nat -> state W -> state W) s st t :
  quiet_handler handler -> keeps_shape st (handler s st) t.
Proof.
  intros Hq. destruct (Hq s st) as (_ & Hc & Hd). split; [ exact Hd | ].
  intros c. now rewrite Hc.
Qed.

Ltac shape_leaf :=
  intros;
  first [ apply keeps_shape_iterator
        | match goal with
          | H : on_socket_timeout E _ = Some _ |- _ =>
              exact (quiet_handler_shape _ _ _ _ (short_quiet _ _ H))
          | H : on_socket_long_timeout E _ = Some _ |- _ =>
              exact (quiet_handler_shape _ _ _ _ (long_quiet _ _ H))
          end
        | (split; [ reflexivity | intros; reflexivity ]) ].

Ltac shape_auto :=
  respects_auto ltac:(apply keeps_shape_refl) ltac:(apply keeps_shape_trans)
                ltac:(shape_leaf).

Lemma sweep_seek_shape fuel :
  forall short long s, respects keeps_shape (sweep_seek (W := W) fuel short long s).
Proof.
  induction fuel as [ | fuel IH]; intros short long s; cbn [sweep_seek]; shape_auto.
Qed.

Lemma sweep_emit_shape context short long s :
  respects keeps_shape (sweep_emit E context short long s).
Proof. unfold sweep_emit. shape_auto. Qed.

Lemma sweep_sockets_shape fuel :
  forall context short long s,
    respects keeps_shape (sweep_sockets E fuel context short long s).
Proof.
  pose proof sweep_emit_shape as Hemit.
  induction fuel as [ | fuel IH]; intros context short long [s | ]; cbn [sweep_sockets];
    try pose proof (sweep_seek_shape fuel short long s);
    shape_auto.
Qed.

(** One context's turn, with all it leaves as it was. *)
Lemma sweep_context_quiet fuel context l (st : state W) :
  chain (fun x => s_next (sockets st x)) (head_sockets (contexts st context)) l ->
  (length l <= fuel)%nat ->
  let st' := state_of (sweep_context E fuel context st) in
  result_of (sweep_context E fuel context st) = Done tt
  /\ trace_of (sweep_context E fuel context st) = context_fires E st (fun _ => l) context
  /\ data st' = data st
  /\ (forall c, c_next (contexts st' c) = c_next (contexts st c)
                /\ head_sockets (contexts st' c) = head_sockets (contexts st c))
  /\ (forall c, c <> context -> global_tick (contexts st' c) = global_tick (contexts st c))
  /\ (forall y, s_next (sockets st' y) = s_next (sockets st y))
  /\ (forall y, ~ In y l ->
                timeout (sockets st' y) = timeout (sockets st y)
                /\ long_timeout (sockets st' y) = long_timeout (sockets st y)).
Proof.
  intros Hc Hfuel st'. subst st'.
  unfold sweep_context, context_fires.
  set (tick := (global_tick (contexts st context) + 1) mod 2 ^ 32).
  rewrite run_modify_bind, !run_gets_bind.
  set (st1 := with_context context sweep_advance_ticks st).
  assert (Hs : timestamp (contexts st1 context) = tick mod 240).
  { unfold st1. cbn. rewrite upd_same. cbn. apply stamp_fits_byte. }
  assert (Hl : long_timestamp (contexts st1 context) = (tick / 15) mod 240).
  { unfold st1. cbn. rewrite upd_same. cbn. apply stamp_fits_byte. }
  assert (Hh : head_sockets (contexts st1 context) = head_sockets (contexts st context)).
  { unfold st1. cbn. rewrite upd_same. reflexivity. }
  rewrite Hs, Hl, Hh.
  destruct (sweep_sockets_inert E
              (fun c h H => quiet_handler_inert h (short_quiet c h H))
              (fun c h H => quiet_handler_inert h (long_quiet c h H))
              context (tick mod 240) ((tick / 15) mod 240)
              fuel l (head_sockets (contexts st context)) st1 Hc Hfuel)
    as (H1 & H2 & H3 & H4 & H5).
  destruct (sweep_sockets_shape fuel context (tick mod 240) ((tick / 15) mod 240)
              (head_sockets (contexts st context)) st1) as [S1 S2].
  rewrite lin_bind, H1.
  rewrite result_of_prefixed, trace_of_prefixed, !state_of_prefixed.
  set (st2 := state_of (sweep_sockets E fuel context (tick mod 240) ((tick / 15) mod 240)
                          (head_sockets (contexts st context)) st1)) in *.
  unfold modify at 1 2. unfold result_of at 1, trace_of at 1. cbn [fst snd].
  rewrite app_nil_r.
  assert (Hshape : forall c, c_next (contexts st2 c) = c_next (contexts st c)
                             /\ head_sockets (contexts st2 c) = head_sockets (contexts st c)
                             /\ (c <> context ->
                                 global_tick (contexts st2 c) = global_tick (contexts st c))).
  { intros c. specialize (S2 c). unfold ctx_shape in S2.
    injection S2 as I1 I2 I3 I4 I5 I6. rewrite I1, I3, I4.
    unfold st1. cbn [contexts with_context]. unfold upd.
    destruct (Nat.eqb_spec c context) as [Heq | Hne].
    - subst c. repeat split. intros Hne. contradiction.
    - repeat split. }
  split; [ reflexivity | split; [ exact H2 | ] ].
  unfold modify, state_of at 1 2 3 4 5 6 7. cbn [fst snd data with_context contexts sockets].
  split; [ exact S1 | split; [ | split; [ | split ] ] ].
  - intros c. destruct (Hshape c) as (A1 & A2 & _). unfold upd.
    destruct (Nat.eqb_spec c context) as [Heq | Hne]; [ subst c | ]; cbn; split; assumption.
  - intros c Hne. destruct (Hshape c) as (_ & _ & A3). rewrite upd_other by exact Hne.
    apply A3. exact Hne.
  - intros y. apply H5.
  - intros y Hy.
    assert (Hex : existsb (Nat.eqb y) l = false).
    { destruct (existsb (Nat.eqb y) l) eqn:Hex; [ | reflexivity ].
      apply existsb_exists in Hex. destruct Hex as (x & Hx & Hxe).
      apply Nat.eqb_eq in Hxe. subst x. contradiction. }
    rewrite (H3 y), (H4 y), Hex. split; reflexivity.
Qed.

Lemma sweep_contexts_quiet (socks : nat -> list nat) :
  forall cl fuel (st0 st : state W),
    chain (ctx_next st) (iterator (data st)) cl ->
    (forall c, In c cl ->
       chain (fun x => s_next (sockets st x)) (head_sockets (contexts st c)) (socks c)
       /\ (length cl + length (socks c) <= fuel)%nat) ->
    (forall c c' x, In c cl -> In c' cl -> c <> c' -> In x (socks c) -> ~ In x (socks c')) ->
    (forall c, In c cl -> context_fires E st socks c = context_fires E st0 socks c) ->
    result_of (sweep_contexts E fuel st) = Done tt
    /\ trace_of (sweep_contexts E fuel st) = flat_map (context_fires E st0 socks) cl
    /\ iterator (data (state_of (sweep_contexts E fuel st))) = None.
Proof.
  induction cl as [ | x cl IH]; intros fuel st0 st Hchain Hsocks Hdisj Hfires.
  - simpl in Hchain.
    destruct fuel; cbn [sweep_contexts]; rewrite run_gets_bind, Hchain;
      repeat split; exact Hchain.
  - pose proof (chain_NoDup _ _ _ Hchain) as Hnd.
    inversion Hnd as [ | ? ? Hnotin Hnd']; subst.
    destruct Hchain as [Hit Hchain].
    destruct (Hsocks x (or_introl eq_refl)) as [Hcx Hlen].
    destruct fuel as [ | fuel]; [ simpl in Hlen; lia | ].
    cbn [sweep_contexts]. rewrite run_gets_bind, Hit.
    destruct (sweep_context_quiet fuel x (socks x) st Hcx) as (R1 & R2 & R3 & R4 & R5 & R6 & R7);
      [ simpl in Hlen; lia | ].
    rewrite lin_bind, R1.
    set (st2 := state_of (sweep_context E fuel x st)) in *.
    rewrite run_gets_bind, R3, Hit, run_modify_bind.
    set (st3 := with_data (data_set_iterator (c_next (contexts st2 x))) st2).
    destruct (IH fuel st0 st3) as (I1 & I2 & I3).
    + change (iterator (data st3)) with (c_next (contexts st2 x)).
      rewrite (proj1 (R4 x)).
      apply chain_agree with (next := ctx_next st); [ | exact Hchain ].
      intros y _. apply (proj1 (R4 y)).
    + intros c Hc. destruct (Hsocks c (or_intror Hc)) as [Hcc Hl]. split.
      * change (head_sockets (contexts st3 c)) with (head_sockets (contexts st2 c)).
        rewrite (proj2 (R4 c)).
        apply chain_agree with (next := fun y => s_next (sockets st y)); [ | exact Hcc ].
        intros y _. apply R6.
      * simpl in Hl. lia.
    + intros c c' y Hc Hc'. apply Hdisj; now right.
    + intros c Hc. rewrite <- (Hfires c (or_intror Hc)).
      assert (Hcx' : c <> x) by (intros ->; contradiction).
      unfold context_fires.
      change (contexts st3 c) with (contexts st2 c). rewrite (R5 c Hcx').
      apply flat_map_agree. intros y Hy. unfold sweep_fires.
      change (sockets st3 y) with (sockets st2 y).
      assert (Hyx : ~ In y (socks x)).
      { intros Hin. apply (Hdisj x c y (or_introl eq_refl) (or_intror Hc)); auto. }
      destruct (R7 y Hyx) as [T1 T2]. rewrite T1, T2. reflexivity.
    + rewrite result_of_prefixed, trace_of_prefixed, state_of_prefixed.
      split; [ exact I1 | split; [ | exact I3 ] ].
      rewrite I2, R2. cbn [flat_map]. f_equal.
      rewrite <- (Hfires x (or_introl eq_refl)). reflexivity.
Qed.
End WholeSweep.

(** X22.  The whole timer sweep, when the timeout handlers touch none of
    the loop's structures.  With the loop's contexts cl, each holding the
    sockets socks c, no socket in two contexts, the sweep comes to an end:
    it visits the contexts in list order, advances the tick of each and
    calls the timeout handlers for exactly the sockets of that context
    that are due at the new stamps, in list order (the due timeouts as
    they stood when the sweep began), and leaves the loop's iterator
    NULL. *)
Theorem timer_sweep_fires_every_due_socket {W} (E : env W) (fuel : nat) (st : state W)
        (cl : list nat) (socks : nat -> list nat) :
  (forall context handler, on_socket_timeout E context = Some handler ->
                           quiet_handler handler) ->
  (forall context handler, on_socket_long_timeout E context = Some handler ->
                           quiet_handler handler) ->
  chain (ctx_next st) (head (data st)) cl ->
  (forall c, In c cl ->
     chain (fun x => s_next (sockets st x)) (head_sockets (contexts st c)) (socks c)
     /\ (length cl + length (socks c) <= fuel)%nat) ->
  (forall c c' x, In c cl -> In c' cl -> c <> c' -> In x (socks c) -> ~ In x (socks c')) ->
  result_of (us_internal_timer_sweep E fuel st) = Done tt
  /\ trace_of (us_internal_timer_sweep E fuel st) = flat_map (context_fires E st socks) cl
  /\ iterator (data (state_of (us_internal_timer_sweep E fuel st))) = None.
Proof.
  intros Hshort Hlong Hchain Hsocks Hdisj.
  unfold us_internal_timer_sweep. rewrite run_modify_bind.
  apply (sweep_contexts_quiet E Hshort Hlong socks cl fuel st); try assumption.
  intros c _. reflexivity.
Qed.

Lemma timer_sweep_fires_every_due_socket_witness :
  result_of (us_internal_timer_sweep sim 5 sim_armed) = Done tt
  /\ trace_of (us_internal_timer_sweep sim 5 sim_armed)
     = [EvOnSocketTimeout 0 1 255; EvOnSocketLongTimeout 0 2 255; EvOnSocketTimeout 1 3 255]
  /\ iterator (data (state_of (us_internal_timer_sweep sim 5 sim_armed))) = None.
Proof.
  assert (Hq : forall (context : nat) (handler : nat -> state sim_world -> state sim_world),
             Some (fun (_ : nat) (st : state sim_world) => st) = Some handler ->
             quiet_handler handler).
  { intros context handler H. injection H as <-. intros s st. repeat split. }
  destruct (timer_sweep_fires_every_due_socket sim 5 sim_armed [0%nat; 1%nat]
              (fun c => match c with 0%nat => [1%nat; 2%nat] | _ => [3%nat] end) Hq Hq)
    as (H1 & H2 & H3).
  - simpl. repeat split; reflexivity.
  - intros c [<- | [<- | []]]; simpl; (split; [ repeat split; reflexivity | lia ]).
  - intros c c' x [<- | [<- | []]] [<- | [<- | []]] Hne; try contradiction; simpl;
      intuition congruence.
  - split; [ exact H1 | split; [ rewrite H2; reflexivity | exact H3 ] ].
Defined.

(** ** The ticks of the sweep *)

Lemma quiet_handler_frame {W} (handler : nat -> state W -> state W) s st :
  quiet_handler handler -> ctx_frame st (handler s st) [].
Proof.
  intros Hq. destruct (Hq s st) as (_ & Hc & Hd). unfold ctx_frame, ctx_next, ctx_ticks.
  rewrite Hc, Hd. split; [ reflexivity | intros c; split; reflexivity ].
Qed.


